(** * qwc2: the Qt-Designer form renderer and the map-info tooltip

  A shallow embedding of the parts of

    - [components/QtDesignerForm.jsx]  (form loading, normalisation of the
      parsed [.ui] tree, layout sizing, widget-name grammar, error messages)
    - [plugins/MapInfoTooltip.jsx]     (right-click popup state and rows)

  that the specification makes statements about, followed by the theorems
  that settle those statements against the code.

  Conventions of the embedding:
    - a JavaScript object used as a dictionary (React component state, the
      [fields]/[buttons]/[nrels] registries, a widget's property map) is a
      [gmap string _]; [setState patch] is a right-to-left merge;
    - an absent key reads as [None] (JavaScript [undefined]);
    - [a || b] and [if (a)] go through an explicit truthiness function;
    - [key in obj] is [js_in]: true of the object's own keys and of the
      keys every object inherits from [Object.prototype]; a write
      [obj[key] = v] creates an own key for every [key] (the key
      ["__proto__"], whose assignment replaces the prototype instead, is
      not told apart);
    - a registry holds a widget by reference: its position in the tree;
    - an event handler runs to its end and React renders before the next
      event; what a callback invoked within the handler itself reads from
      [this.state] depends on whether React batches the handler's
      [setState] calls ([batchedUpdates]);
    - externally supplied functions (XML parser, translation, number
      formatting, reprojection, the preprocessor of a layer) and the
      floating-point operations on numbers are fields of an [externals]
      record. *)

From Stdlib Require Import ZArith QArith Qround Ascii String List Lia.
From stdpp Require Import base option list gmap strings pretty.

Local Open Scope string_scope.

(** ** JavaScript string primitives used by the sources *)
Module JS.

(** The one-character string ["\n"]. *)
Definition nl : string := String (ascii_of_nat 10) "".

Definition underscore : ascii := ascii_of_nat 95.

(** [s.split("__")]: the separator is matched left to right, without
    overlap; the result always has at least one element. *)
Fixpoint split_dunder (s : string) : list string :=
  match s with
  | EmptyString => [""]
  | String c s' =>
      let keep :=
        match split_dunder s' with
        | t :: ts => String c t :: ts
        | [] => [String c ""]
        end in
      if Ascii.eqb c underscore then
        match s' with
        | String c' rest =>
            if Ascii.eqb c' underscore then "" :: split_dunder rest else keep
        | EmptyString => keep
        end
      else keep
  end.

(** [s.startsWith(p)] *)
Definition startsWith (s p : string) : bool := String.prefix p s.

(** [s.slice(n)] for [0 <= n] *)
Fixpoint slice_from (n : nat) (s : string) : string :=
  match n, s with
  | O, _ => s
  | S n', String _ s' => slice_from n' s'
  | S _, EmptyString => ""
  end.

(** [l.join(sep)] on an array of strings *)
Definition join (sep : string) (l : list string) : string :=
  String.concat sep l.

(** [String(array)] / implicit conversion of an array in [str + array]:
    the elements joined with a comma. *)
Definition array_toString (l : list string) : string := join "," l.

(** [l.slice(from, to)] for [0 <= from <= to] *)
Definition list_slice {A} (from to : nat) (l : list A) : list A :=
  take (to - from) (drop from l).

(** [lodash.isEmpty] on a value that is [undefined] or an array. *)
Definition isEmpty {A} (o : option (list A)) : bool :=
  match o with
  | None => true
  | Some [] => true
  | Some (_ :: _) => false
  end.

(** A JavaScript string is falsy exactly when it is empty. *)
Definition truthy_str (s : string) : bool :=
  match s with EmptyString => false | _ => true end.

(** The properties every plain object inherits from [Object.prototype]. *)
Definition Object_prototype_keys : list string :=
  ["constructor"; "__defineGetter__"; "__defineSetter__"; "hasOwnProperty";
   "__lookupGetter__"; "__lookupSetter__"; "isPrototypeOf";
   "propertyIsEnumerable"; "toString"; "valueOf"; "__proto__";
   "toLocaleString"].

(** [key in obj] for a plain object: an own property or an inherited one. *)
Definition js_in {V} (key : string) (obj : gmap string V) : bool :=
  bool_decide (key ∈ dom obj) || bool_decide (key ∈ Object_prototype_keys).

(** The tokens of the widget-name grammar: a string in which the separator
    ["__"] does not occur, ... *)
Fixpoint no_dunder (s : string) : bool :=
  match s with
  | EmptyString => true
  | String c s' =>
      (negb (Ascii.eqb c underscore)
       || match s' with
          | String c' _ => negb (Ascii.eqb c' underscore)
          | EmptyString => true
          end)
      && no_dunder s'
  end.

Fixpoint ends_with_underscore (s : string) : bool :=
  match s with
  | EmptyString => false
  | String c EmptyString => Ascii.eqb c underscore
  | String _ s' => ends_with_underscore s'
  end.

(** ... and which, when another token follows, does not end with an
    underscore either (["a_" + "__" + "b"] splits as ["a"], ["_b"]). *)
Definition token (s : string) : bool :=
  no_dunder s && negb (ends_with_underscore s).

End JS.

(** ** components/QtDesignerForm.jsx *)
Module QtDesignerForm.
Import JS.

(** *** The parsed [.ui] document

    A property value as the XML parser yields it: text, or a nested element
    such as a font or a rectangle. *)
Inductive pval :=
| PUndefined
| PStr (s : string)
| PObj (fields : list (string * string)).

(** One [<property name=...>] (or [<attribute name=...>]) element: its [name]
    attribute and its remaining keys, in document order. *)
Record prop_entry := {
  entry_name : option string;
  entry_rest : list (string * pval)
}.

(** Before normalisation a node carries its properties as the list of such
    elements (one element or an array of them in the parsed JSON, which
    [MiscUtils.ensureArray] turns into an array); afterwards as a map. *)
Definition raw_props : Type := list prop_entry.
Abbreviation norm_props := (gmap string pval).

Scheme All for list.
Scheme All for option.

(** The tree. [P] is the representation of the property lists. A field that
    may be missing on the JavaScript object is an [option]; a field holding
    one element or an array of elements ([item], [widget]) is a list.
    A layout [<item>] wraps exactly one of a widget, a spacer or a layout. *)
Inductive widget (P : Type) :=
| Widget (class name : option string) (property attribute : option P)
         (allowMulti : option string)
         (item : list (widget P)) (layout : option (layout P))
         (children : list (widget P))
with layout (P : Type) :=
| Layout (class name : option string) (item : list (item P))
         (verticalFill : option bool)
with item (P : Type) :=
| Item (row column rowspan colspan : option string) (content : item_content P)
with item_content (P : Type) :=
| IWidget (w : widget P)
| ISpacer (name : option string) (property : option P)
| ILayout (l : layout P)
| INone.

Arguments Widget {P}.
Arguments Layout {P}.
Arguments Item {P}.
Arguments IWidget {P}.
Arguments ISpacer {P}.
Arguments ILayout {P}.
Arguments INone {P}.

Scheme widget_mut := Induction for widget Sort Prop
  with layout_mut := Induction for layout Sort Prop
  with item_mut := Induction for item Sort Prop
  with item_content_mut := Induction for item_content Sort Prop.
Combined Scheme tree_mutind
  from widget_mut, layout_mut, item_mut, item_content_mut.

Definition w_class {P} (w : widget P) : option string :=
  match w with Widget c _ _ _ _ _ _ _ => c end.
Definition w_name {P} (w : widget P) : option string :=
  match w with Widget _ n _ _ _ _ _ _ => n end.
Definition w_property {P} (w : widget P) : option P :=
  match w with Widget _ _ p _ _ _ _ _ => p end.
Definition w_attribute {P} (w : widget P) : option P :=
  match w with Widget _ _ _ a _ _ _ _ => a end.
Definition w_allowMulti {P} (w : widget P) : option string :=
  match w with Widget _ _ _ _ m _ _ _ => m end.
Definition w_item {P} (w : widget P) : list (widget P) :=
  match w with Widget _ _ _ _ _ i _ _ => i end.
Definition w_layout {P} (w : widget P) : option (layout P) :=
  match w with Widget _ _ _ _ _ _ l _ => l end.
Definition w_widget {P} (w : widget P) : list (widget P) :=
  match w with Widget _ _ _ _ _ _ _ c => c end.

Definition l_class {P} (l : layout P) : option string :=
  match l with Layout c _ _ _ => c end.
Definition l_name {P} (l : layout P) : option string :=
  match l with Layout _ n _ _ => n end.
Definition l_item {P} (l : layout P) : list (item P) :=
  match l with Layout _ _ i _ => i end.
Definition l_verticalFill {P} (l : layout P) : option bool :=
  match l with Layout _ _ _ v => v end.

Definition i_row {P} (i : item P) : option string :=
  match i with Item r _ _ _ _ => r end.
Definition i_column {P} (i : item P) : option string :=
  match i with Item _ c _ _ _ => c end.
Definition i_rowspan {P} (i : item P) : option string :=
  match i with Item _ _ r _ _ => r end.
Definition i_colspan {P} (i : item P) : option string :=
  match i with Item _ _ _ c _ => c end.
Definition i_content {P} (i : item P) : item_content P :=
  match i with Item _ _ _ _ c => c end.

(** [item.widget], [item.spacer?.property], as optional reads *)
Definition i_widget {P} (i : item P) : option (widget P) :=
  match i_content i with IWidget w => Some w | _ => None end.
Definition i_spacer_property {P} (i : item P) : option P :=
  match i_content i with ISpacer _ p => p | _ => None end.

(** A JavaScript object reference to a widget of the tree is represented by
    the position of that widget: the registries built during the parse hold
    references to nodes that are still being mutated, so what they hold at
    the end is the node at that position of the final tree. *)
Inductive step :=
| AtItem (i : nat)        (* widget.item[i] *)
| AtLayout                (* widget.layout *)
| AtLayoutItem (i : nat)  (* layout.item[i].widget or layout.item[i].layout *)
| AtChild (i : nat).      (* widget.widget[i] *)

Definition path := list step.

(** *** Props of the component and registries filled by the parse *)

Record field_config := {
  constraints_readOnly : bool;
  constraints_required : bool
}.

(** An attribute value of a feature. *)
Inductive fval :=
| FNull
| FStr (s : string)
| FNum (z : Z)
| FBool (b : bool).

(** A feature, as far as the component reads it. [relationValues] is only
    compared by object identity, which a number stands for. *)
Record feature := {
  properties : option (gmap string fval);
  relationValues : option nat;
  version : option nat                         (* __version__ *)
}.

Record props := {
  editLayerId : string;
  p_feature : feature;
  p_fields : gmap string field_config;
  form : string;
  locale : string;
  mapPrefix : string;
  readOnly : bool
}.

(** [{fk, sortcol, noreorder}]: [sortcol] is a string or [null] ([None]);
    [noreorder] is the fifth name token or [false] ([None]). *)
Record relation_table := {
  fk : string;
  sortcol : option string;
  noreorder : option string
}.

Record registries := {
  relationTables : gmap string relation_table;
  fields : gmap string path;
  buttons : gmap string path;
  nrels : gmap string path;
  externalFields : gmap string string;
  widgets : gmap string path;
  counters_widget : nat;
  counters_layout : nat
}.

Definition empty_registries : registries :=
  {| relationTables := ∅; fields := ∅; buttons := ∅; nrels := ∅;
     externalFields := ∅; widgets := ∅;
     counters_widget := 0; counters_layout := 0 |}.

Definition set_relationTables (f : gmap string relation_table → gmap string relation_table)
    (r : registries) : registries :=
  {| relationTables := f (relationTables r); fields := fields r;
     buttons := buttons r; nrels := nrels r;
     externalFields := externalFields r; widgets := widgets r;
     counters_widget := counters_widget r; counters_layout := counters_layout r |}.
Definition set_fields (f : gmap string path → gmap string path)
    (r : registries) : registries :=
  {| relationTables := relationTables r; fields := f (fields r);
     buttons := buttons r; nrels := nrels r;
     externalFields := externalFields r; widgets := widgets r;
     counters_widget := counters_widget r; counters_layout := counters_layout r |}.
Definition set_buttons (f : gmap string path → gmap string path)
    (r : registries) : registries :=
  {| relationTables := relationTables r; fields := fields r;
     buttons := f (buttons r); nrels := nrels r;
     externalFields := externalFields r; widgets := widgets r;
     counters_widget := counters_widget r; counters_layout := counters_layout r |}.
Definition set_nrels (f : gmap string path → gmap string path)
    (r : registries) : registries :=
  {| relationTables := relationTables r; fields := fields r;
     buttons := buttons r; nrels := f (nrels r);
     externalFields := externalFields r; widgets := widgets r;
     counters_widget := counters_widget r; counters_layout := counters_layout r |}.
Definition set_externalFields (f : gmap string string → gmap string string)
    (r : registries) : registries :=
  {| relationTables := relationTables r; fields := fields r;
     buttons := buttons r; nrels := nrels r;
     externalFields := f (externalFields r); widgets := widgets r;
     counters_widget := counters_widget r; counters_layout := counters_layout r |}.
Definition set_widgets (f : gmap string path → gmap string path)
    (r : registries) : registries :=
  {| relationTables := relationTables r; fields := fields r;
     buttons := buttons r; nrels := nrels r;
     externalFields := externalFields r; widgets := f (widgets r);
     counters_widget := counters_widget r; counters_layout := counters_layout r |}.

(** [":widget_" + counters.widget++] *)
Definition fresh_widget_name (r : registries) : string * registries :=
  (":widget_" +:+ pretty (counters_widget r),
   {| relationTables := relationTables r; fields := fields r;
      buttons := buttons r; nrels := nrels r;
      externalFields := externalFields r; widgets := widgets r;
      counters_widget := S (counters_widget r);
      counters_layout := counters_layout r |}).

(** [":layout_" + counters.layout++] *)
Definition fresh_layout_name (r : registries) : string * registries :=
  (":layout_" +:+ pretty (counters_layout r),
   {| relationTables := relationTables r; fields := fields r;
      buttons := buttons r; nrels := nrels r;
      externalFields := externalFields r; widgets := widgets r;
      counters_widget := counters_widget r;
      counters_layout := S (counters_layout r) |}).

Definition hFitWidgets : list string :=
  ["QLabel"; "QCheckBox"; "QRadioButton"; "Line"; "QDateTimeEdit"; "QDateEdit";
   "QTimeEdit"].
Definition vFitWidgets : list string :=
  ["QLabel"; "QCheckBox"; "QRadioButton"; "Line"; "QDateTimeEdit"; "QDateEdit";
   "QTimeEdit"; "QPushButton"; "QComboBox"; "QLineEdit"; "QSpinBox";
   "QDoubleSpinBox"; "QSlider"].

(** [list.includes(widget.class)], where the class may be [undefined] *)
Definition includes (l : list string) (c : option string) : bool :=
  match c with
  | Some s => bool_decide (s ∈ l)
  | None => false
  end.

(** [v === s] for a string literal [s] *)
Definition pval_is (v : option pval) (s : string) : bool :=
  match v with
  | Some (PStr s') => String.eqb s' s
  | _ => false
  end.

(** [ensureArray(x).reduce((res, prop) =>
       ({...res, [prop.name]: prop[Object.keys(prop).find(key => key !== "name")]}), {})] *)
Definition reduce_props (entries : raw_props) : norm_props :=
  foldl (fun res prop =>
           <[ default "undefined" (entry_name prop) :=
                match entry_rest prop with
                | (_, v) :: _ => v
                | [] => PUndefined
                end ]> res)
        ∅ entries.

(** [x || fallback()] on an optional string *)
Definition name_or {S} (n : option string) (fallback : S → string * S) (st : S)
    : string * S :=
  match n with
  | Some s => if truthy_str s then (s, st) else fallback st
  | None => fallback st
  end.

(** [parts[i]] used as an object key: a missing element reads as the key
    ["undefined"]. *)
Definition part_key (parts : list string) (i : nat) : string :=
  default "undefined" (parts !! i).

(** [parts[i] || null] *)
Definition part_or_null (parts : list string) (i : nat) : option string :=
  match parts !! i with
  | Some s => if truthy_str s then Some s else None
  | None => None
  end.

(** [forEach] over children that threads the registries and accumulates
    [verticalFill |= ...]. *)
Definition forEachS {A B S} (f : nat → A → S → B * bool * S)
    : nat → list A → S → list B * bool * S :=
  fix go i l st :=
    match l with
    | [] => ([], false, st)
    | x :: xs =>
        let '(y, b, st1) := f i x st in
        let '(ys, b', st2) := go (Datatypes.S i) xs st1 in
        (y :: ys, b || b', st2)
    end.

(** The last statement of [reformatWidget]:
    [const parts = widget.name.split("__");
     if (parts.length >= 3 && parts[0] === "nrel") relationTables[...] = {...}] *)
Definition register_relation (pr : props) (name : string) (st : registries)
    : registries :=
  let parts := split_dunder name in
  if (3 <=? length parts)%nat && bool_decide (parts !! 0%nat = Some "nrel") then
    set_relationTables
      <[mapPrefix pr +:+ part_key parts 1 :=
          {| fk := part_key parts 2;
             sortcol := part_or_null parts 3;
             noreorder := part_or_null parts 4 |}]> st
  else st.

(** *** reformatWidget / reformatLayout

    The JavaScript functions mutate the parsed tree in place and return the
    [verticalFill] flag; here they return the rewritten node, the flag and
    the registries. [verticalFill |= x] only ever tests the flag for
    truthiness, so it is a boolean disjunction.

    [forced] is the name the caller assigned to the node just before the
    call ([child.name = ":widget_" + counters.widget++] for the children of
    a tab or stacked widget); [here] is the position of the node. *)
Fixpoint reformatWidget (pr : props) (here : path) (forced : option string)
    (w : widget raw_props) (st : registries) {struct w}
    : widget norm_props * bool * registries :=
  match w with
  | Widget class name property attribute allowMulti item layout children =>
      let property' :=
        match property with Some entries => reduce_props entries | None => ∅ end in
      let attribute' :=
        match attribute with Some entries => reduce_props entries | None => ∅ end in
      let '(item', vf_item, st) :=
        forEachS (fun i it s => reformatWidget pr (here ++ [AtItem i])%list None it s)
                 0 item st in
      let '(name', st) :=
        name_or (match forced with Some f => Some f | None => name end)
                fresh_widget_name st in
      let st :=
        if js_in name' (p_fields pr) then
          set_fields <[name' := here]> st
        else if startsWith name' "kvrel__" || startsWith name' "img__" then
          let parts := split_dunder name' in
          if js_in (part_key parts 1) (p_fields pr) then
            set_fields <[part_key parts 1 := here]> st
          else st
        else if startsWith name' "btn__" then
          set_buttons <[part_key (split_dunder name') 1 := here]> st
        else if startsWith name' "nrel__" then
          set_nrels <[part_key (split_dunder name') 1 := here]> st
        else st in
      let st :=
        if startsWith name' "ext__" then
          set_externalFields <[slice_from 5 name' := ""]> st
        else st in
      let st := set_widgets <[name' := here]> st in
      let '(layout', vf_layout, st) :=
        match layout with
        | Some l =>
            let '(l', vf, st') := reformatLayout pr (here ++ [AtLayout])%list l st in
            (Some l', vf, st')
        | None => (None, false, st)
        end in
      let '(children', vf_children, st) :=
        forEachS (fun i child s =>
                    let '(n, s') := fresh_widget_name s in
                    reformatWidget pr (here ++ [AtChild i])%list (Some n) child s')
                 0 children st in
      let verticalFill := vf_item || vf_layout || vf_children in
      let verticalFill :=
        if startsWith name' "nrel__"
           || (negb (bool_decide (is_Some layout)) && negb (includes vFitWidgets class))
        then true else verticalFill in
      let st := register_relation pr name' st in
      (Widget class (Some name') (Some property') (Some attribute') allowMulti
              item' layout' children',
       verticalFill, st)
  end
with reformatLayout (pr : props) (here : path) (l : layout raw_props)
    (st : registries) {struct l} : layout norm_props * bool * registries :=
  match l with
  | Layout class name item _ =>
      let '(name', st) := name_or name fresh_layout_name st in
      let '(item', verticalFill, st) :=
        forEachS
          (fun i it s =>
             match it with
             | Item row column rowspan colspan content =>
                 match content with
                 | IWidget w =>
                     let '(w', vf, s') :=
                       reformatWidget pr (here ++ [AtLayoutItem i])%list None w s in
                     (Item row column rowspan colspan (IWidget w'), vf, s')
                 | ISpacer sname sprop =>
                     let sprop' := reduce_props (default [] sprop) in
                     (Item row column rowspan colspan (ISpacer sname (Some sprop')),
                      pval_is (sprop' !! "orientation") "Qt::Vertical", s)
                 | ILayout l' =>
                     let '(l'', vf, s') :=
                       reformatLayout pr (here ++ [AtLayoutItem i])%list l' s in
                     (Item row column rowspan colspan (ILayout l''), vf, s')
                 | INone => (Item row column rowspan colspan INone, false, s)
                 end
             end)
          0 item st in
      (Layout class (Some name') item' (Some verticalFill), verticalFill, st)
  end.


(** The normalisation invariant of a widget node: property and attribute
    maps are there, and the name is a non-empty string. *)
Definition widget_normalised (w : widget norm_props) : Prop :=
  is_Some (w_property w) ∧ is_Some (w_attribute w)
  ∧ ∃ n, w_name w = Some n ∧ n ≠ "".

(** All widget nodes of a tree: the node itself, the nodes under its
    [item]s, under its layout and under its child widgets. *)
Fixpoint widget_nodes {P} (w : widget P) : list (widget P) :=
  match w with
  | Widget _ _ _ _ _ item layout children =>
      (w :: flat_map widget_nodes item
         ++ match layout with Some l => layout_nodes l | None => [] end
         ++ flat_map widget_nodes children)%list
  end
with layout_nodes {P} (l : layout P) : list (widget P) :=
  match l with
  | Layout _ _ item _ =>
      flat_map (fun it =>
                  match it with
                  | Item _ _ _ _ (IWidget w) => widget_nodes w
                  | Item _ _ _ _ (ILayout l') => layout_nodes l'
                  | Item _ _ _ _ _ => []
                  end) item
  end.

Definition item_nodes {P} (it : item P) : list (widget P) :=
  match it with
  | Item _ _ _ _ (IWidget w) => widget_nodes w
  | Item _ _ _ _ (ILayout l') => layout_nodes l'
  | Item _ _ _ _ _ => []
  end.

(** *** Form loading: component state, [componentDidUpdate], [parseForm] *)

(** [json] after the registries have been attached to it. *)
Record formdata := {
  ui_widget : widget norm_props;                (* json.ui.widget *)
  fd_externalFields : gmap string string;
  fd_widgets : gmap string path;
  fd_fields : gmap string path;
  fd_buttons : gmap string path;
  fd_nrels : gmap string path
}.

(** Values held by the keys of the React state object. *)
Inductive sval :=
| SUndefined
| SNull
| SBool (b : bool)
| SReqId (id : nat)                     (* a value returned by [uuidv1()] *)
| STabs (active : gmap string string)
| SForm (fd : formdata)
| SElement (e : nat).                   (* a DOM node *)

Abbreviation state := (gmap string sval).

(** [this.setState(patch)]: the keys of the patch replace those of the
    state. The state of a [world] is the state with every update made so
    far applied, which is what React renders next; between two events
    React is taken to have rendered. What [this.state] holds inside
    [parseForm], before that, depends on whether updates are batched. *)
Definition setState (patch st : state) : state := patch ∪ st.

Definition defaultState : state :=
  {[ "activetabs" := STabs ∅;
     "formdata" := SNull;
     "loading" := SBool false;
     "loadingReqId" := SNull;
     "relationAddPressed" := SNull ]}.

(** Functions of other modules and libraries. *)
Record externals := {
  xmlParse : string → option (widget raw_props);  (* XMLParser.parse(data).ui.widget *)
  resolveAssetsPath : string → string;            (* MiscUtils.resolveAssetsPath *)
  (* whether React batches the updates made outside its own handlers (a
     React 18 root) or applies them inside [setState] (a legacy root) *)
  batchedUpdates : bool;
  (* what the preprocessor of an edit layer passes to its callback when it
     calls it before React has rendered the updates of the [parseForm]
     call, inside the call or in a microtask; [None] when it calls back
     later or never *)
  earlyCallback : string → formdata → feature → option formdata
}.

(** The component instance together with the module-level state it depends
    on: [uuid_count] many identifiers have been handed out by [uuidv1()]
    (each call returns a fresh one), [FormPreprocessors] holds the edit-layer
    ids with a registered preprocessor, [requests] the URLs requested so far
    (a request is named by its index). *)
Record world := {
  w_state : state;
  w_props : props;
  uuid_count : nat;
  FormPreprocessors : gset string;
  requests : list string
}.

Inductive effect :=
| EGet (url : string)                                       (* axios.get(url) *)
| ECallPreprocessor (layer : string) (json : formdata) (f : feature) (reqId : nat)
| ESetRelationTables (tables : gmap string relation_table)  (* props.setRelationTables *)
| EScrollToBottom (e : nat)
| EConsoleLog.

Definition with_state (w : world) (st : state) : world :=
  {| w_state := st; w_props := w_props w; uuid_count := uuid_count w;
     FormPreprocessors := FormPreprocessors w; requests := requests w |}.

Definition registerFormPreprocessor (editLayerId : string) (w : world) : world :=
  {| w_state := w_state w; w_props := w_props w; uuid_count := uuid_count w;
     FormPreprocessors := {[editLayerId]} ∪ FormPreprocessors w;
     requests := requests w |}.

Definition removeFormPreprocessor (editLayerId : string) (w : world) : world :=
  {| w_state := w_state w; w_props := w_props w; uuid_count := uuid_count w;
     FormPreprocessors := FormPreprocessors w ∖ {[editLayerId]};
     requests := requests w |}.

(** [url.includes('?')] *)
Fixpoint includes_qmark (s : string) : bool :=
  match s with
  | EmptyString => false
  | String c s' => Ascii.eqb c (ascii_of_nat 63) || includes_qmark s'
  end.

(** [componentDidUpdate(prevProps)]; [prev = None] is the call
    [componentDidUpdate({})] made by [componentDidMount]. The world already
    holds the new props. *)
Definition componentDidUpdate (E : externals) (prev : option props) (w : world)
    : world * list effect :=
  let cur := w_props w in
  let st0 := w_state w in   (* this.state, which the queued updates do not change *)
  let form_changed := negb (bool_decide (Some (form cur) = form <$> prev)) in
  let version_changed :=
    negb (bool_decide (version (p_feature cur) = prev ≫= (version ∘ p_feature))) in
  let '(w, eff1) :=
    if form_changed || version_changed then
      let patch :=
        <[ "activetabs" :=
             if form_changed then STabs ∅
             else default SUndefined (st0 !! "activetabs") ]> defaultState in
      let url := resolveAssetsPath E (form cur) in
      let url := url +:+ (if includes_qmark url then "&" else "?")
                     +:+ "lang=" +:+ locale cur in
      ({| w_state := setState patch st0; w_props := cur;
          uuid_count := uuid_count w; FormPreprocessors := FormPreprocessors w;
          requests := (requests w ++ [url])%list |},
       [EGet url])
    else (w, []) in
  let '(w, eff2) :=
    match st0 !! "relationAddPressed" with
    | Some (SElement e) =>
        if negb (bool_decide (relationValues (p_feature cur)
                              = prev ≫= (relationValues ∘ p_feature))) then
          (with_state w (setState {[ "relationAddPressed" := SNull ]} (w_state w)),
           [EScrollToBottom e])
        else (w, [])
    | _ => (w, [])
    end in
  (w, (eff1 ++ eff2)%list).

(** The callback handed to the preprocessor, called while [this.state] is
    [seen]:
    [if (this.state.loadingReqId === loadingReqId) this.setState({...})] *)
Definition earlyPreprocessorCallback (seen : state) (loadingReqId : nat)
    (formData : formdata) (w : world) : world :=
  match seen !! "loadingReqId" with
  | Some (SReqId current) =>
      if Nat.eqb current loadingReqId then
        with_state w
          (setState {[ "formData" := SForm formData;
                       "loading" := SBool false;
                       "loadingReqId" := SNull ]} (w_state w))
      else w
  | _ => w
  end.

(** [parseForm(data)] *)
Definition parseForm (E : externals) (data : string) (w : world)
    : world * list effect :=
  let loadingReqId := uuid_count w in
  let this_state := w_state w in   (* this.state when the call begins *)
  let w :=
    {| w_state := setState {[ "loading" := SBool true;
                              "loadingReqId" := SReqId loadingReqId ]} (w_state w);
       w_props := w_props w; uuid_count := S (uuid_count w);
       FormPreprocessors := FormPreprocessors w; requests := requests w |} in
  match xmlParse E data with
  | None =>
      (* json.ui.widget is missing: reformatWidget throws, the promise's
         catch handler logs the error *)
      (w, [EConsoleLog])
  | Some root =>
      let '(root', _, reg) :=
        reformatWidget (w_props w) [] None root empty_registries in
      let json :=
        {| ui_widget := root';
           fd_externalFields := externalFields reg;
           fd_widgets := widgets reg;
           fd_fields := fields reg;
           fd_buttons := buttons reg;
           fd_nrels := nrels reg |} in
      let '(w, eff) :=
        if bool_decide (editLayerId (w_props w) ∈ FormPreprocessors w) then
          (match earlyCallback E (editLayerId (w_props w)) json
                               (p_feature (w_props w)) with
           | Some formData =>
               earlyPreprocessorCallback
                 (if batchedUpdates E then this_state else w_state w)
                 loadingReqId formData w
           | None => w
           end,
           [ECallPreprocessor (editLayerId (w_props w)) json
                              (p_feature (w_props w)) loadingReqId])
        else
          (with_state w
             (setState {[ "formData" := SForm json;
                          "loading" := SBool false;
                          "loadingReqId" := SNull ]} (w_state w)),
           []) in
      (w, (eff ++ [ESetRelationTables (relationTables reg)])%list)
  end.

(** What a [parseForm] call produced: the [json] it committed to the state
    or handed to the preprocessor ([None] when the parse threw), and the
    relation tables it pushed. *)
Definition produced_form (r : world * list effect) : option formdata :=
  match r.2 with
  | ECallPreprocessor _ json _ _ :: _ => Some json
  | ESetRelationTables _ :: _ =>
      match w_state r.1 !! "formData" with
      | Some (SForm json) => Some json
      | _ => None
      end
  | _ => None
  end.

Fixpoint pushed_tables (effs : list effect) : option (gmap string relation_table) :=
  match effs with
  | ESetRelationTables tables :: _ => Some tables
  | _ :: rest => pushed_tables rest
  | [] => None
  end.

(** The callback handed to the preprocessor by the [parseForm] call that drew
    [loadingReqId], called in a later task: [this.state] is the state of the
    world. *)
Definition preprocessorCallback (loadingReqId : nat) (formData : formdata)
    (w : world) : world :=
  (* this.state.loadingReqId === loadingReqId *)
  match w_state w !! "loadingReqId" with
  | Some (SReqId current) =>
      if Nat.eqb current loadingReqId then
        with_state w
          (setState {[ "formData" := SForm formData;
                       "loading" := SBool false;
                       "loadingReqId" := SNull ]} (w_state w))
      else w
  | _ => w
  end.

(** What can happen to a mounted component. *)
Inductive event :=
| SetProps (new : props)                        (* re-render with new props *)
| HttpResponse (req : nat) (data : string)      (* the [then] of request [req] *)
| HttpFailure (req : nat)                       (* the [catch] of request [req] *)
| PreprocessorCallback (loadingReqId : nat) (formData : formdata)
| RegisterFormPreprocessor (editLayerId : string)
| RemoveFormPreprocessor (editLayerId : string).

Definition handle (E : externals) (w : world) (ev : event) : world * list effect :=
  match ev with
  | SetProps new =>
      componentDidUpdate E (Some (w_props w))
        {| w_state := w_state w; w_props := new; uuid_count := uuid_count w;
           FormPreprocessors := FormPreprocessors w; requests := requests w |}
  | HttpResponse _ data => parseForm E data w
  | HttpFailure _ => (w, [EConsoleLog])
  | PreprocessorCallback id fd => (preprocessorCallback id fd w, [])
  | RegisterFormPreprocessor l => (registerFormPreprocessor l w, [])
  | RemoveFormPreprocessor l => (removeFormPreprocessor l w, [])
  end.

(** The constructor followed by [componentDidMount]. *)
Definition mount (E : externals) (pr : props) (pre : gset string)
    : world * list effect :=
  componentDidUpdate E None
    {| w_state := defaultState; w_props := pr; uuid_count := 0;
       FormPreprocessors := pre; requests := [] |}.

Definition run (E : externals) (w : world) (evs : list event) : world :=
  foldl (fun w ev => fst (handle E w ev)) w evs.



(** *** Layout sizing: [computeLayoutColumns] *)

Definition is_ws (c : ascii) : bool :=
  let n := nat_of_ascii c in
  ((9 <=? n) && (n <=? 13))%nat || (n =? 32)%nat.

Definition digit_of (c : ascii) : option Z :=
  let n := nat_of_ascii c in
  if ((48 <=? n) && (n <=? 57))%nat then Some (Z.of_nat (n - 48)) else None.

Fixpoint skip_ws (s : string) : string :=
  match s with
  | String c s' => if is_ws c then skip_ws s' else s
  | EmptyString => s
  end.

(** The value of the longest prefix of decimal digits, [None] when the
    string does not start with a digit. *)
Fixpoint read_digits (s : string) (acc : option Z) : option Z :=
  match s with
  | String c s' =>
      match digit_of c with
      | Some d => read_digits s' (Some (10 * default 0 acc + d)%Z)
      | None => acc
      end
  | EmptyString => acc
  end.

(** [parseInt(x, 10)] for [x] a string or [undefined]; [None] is [NaN]. *)
Definition parseInt10 (x : option string) : option Z :=
  match x with
  | None => None
  | Some s =>
      match skip_ws s with
      | String c s' =>
          if Ascii.eqb c (ascii_of_nat 45) then Z.opp <$> read_digits s' None
          else if Ascii.eqb c (ascii_of_nat 43) then read_digits s' None
          else read_digits (String c s') None
      | EmptyString => None
      end
  end.

(** [n || d] for [n] the result of [parseInt]: [NaN] and [0] are falsy. *)
Definition num_or (n : option Z) (d : Z) : Z :=
  match n with
  | Some z => if (z =? 0)%Z then d else z
  | None => d
  end.

(** An element of the [columns] array while it is being built. *)
Inductive cell :=
| CUndefined          (* a hole *)
| CNull
| CStr (s : string).

(** [a[i]] for an integer [i]; an [i] that is not an array index names an
    ordinary property, which neither the final loop nor [join] looks at. *)
Definition is_array_index (i : Z) : bool :=
  ((0 <=? i) && (i <? 2 ^ 32 - 1))%Z.

Definition arr_get (a : list cell) (i : Z) : cell :=
  if is_array_index i then default CUndefined (a !! Z.to_nat i) else CUndefined.

(** [a[i] = v]: writing past the end extends the array with holes. *)
Definition arr_set (a : list cell) (i : Z) (v : cell) : list cell :=
  if is_array_index i then
    let n := Z.to_nat i in
    if (n <? length a)%nat then <[n := v]> a
    else (a ++ replicate (n - length a) CUndefined ++ [v])%list
  else a.

(** [c ?? null] *)
Definition or_null (c : cell) : cell :=
  match c with CUndefined => CNull | _ => c end.

(** [c || d] *)
Definition cell_or (c : cell) (d : string) : string :=
  match c with
  | CStr s => if truthy_str s then s else d
  | _ => d
  end.

(** [item.spacer?.property?.orientation === "Qt::Horizontal"] *)
Definition is_hspacer (it : item norm_props) : bool :=
  pval_is (i_spacer_property it ≫= (.!! "orientation")) "Qt::Horizontal".

(** [Math.round(1 / n * 100)] printed in decimal, computed on exact
    rationals (rounding half up). *)
Definition round_percent (n : nat) : string :=
  match n with
  | O => "Infinity"
  | _ => pretty ((200 + n) / (2 * n))%nat
  end.

(** [useIndex ? index : (parseInt(item.column, 10) || 0)] *)
Definition item_column (useIndex : bool) (index : nat) (it : item norm_props) : Z :=
  if useIndex then Z.of_nat index else num_or (parseInt10 (i_column it)) 0%Z.

(** The [forEach] of [computeLayoutColumns]: the state is the [columns]
    array and the [hasAuto] flag. *)
Definition columns_step (useIndex hasSpacer : bool) (acc : list cell * bool)
    (index : nat) (it : item norm_props) : list cell * bool :=
  let '(columns, hasAuto) := acc in
  let col := item_column useIndex index it in
  let colSpan := if useIndex then 1%Z else num_or (parseInt10 (i_colspan it)) 1%Z in
  if is_hspacer it then (arr_set columns col (CStr "auto"), true)
  else if negb hasSpacer && negb (includes hFitWidgets (i_widget it ≫= w_class))
          && (colSpan =? 1)%Z then
    (arr_set columns col (CStr "auto"), true)
  else (arr_set columns col (or_null (arr_get columns col)), hasAuto).

Fixpoint forEach_index {A B} (f : B → nat → A → B) (index : nat) (l : list A)
    (acc : B) : B :=
  match l with
  | [] => acc
  | x :: xs => forEach_index f (S index) xs (f acc index x)
  end.

Definition computeLayoutColumns (items : list (item norm_props)) (useIndex : bool)
    : list string :=
  let hasSpacer := existsb is_hspacer items in
  let '(columns, hasAuto) :=
    forEach_index (columns_step useIndex hasSpacer) 0 items ([], false) in
  let fit := "fit-content(" +:+ round_percent (length columns) +:+ "%)" in
  map (fun c => if hasAuto then cell_or c fit else "auto") columns.

(** The columns of the items that hold a horizontal spacer, the items being
    numbered from [index]. *)
Fixpoint hspacer_columns (useIndex : bool) (index : nat)
    (items : list (item norm_props)) : list Z :=
  match items with
  | [] => []
  | it :: rest =>
      ((if is_hspacer it then [item_column useIndex index it] else [])
         ++ hspacer_columns useIndex (S index) rest)%list
  end.

(** What the cells look like while the items are processed, given the list
    [S] of columns in which a horizontal spacer has been seen. *)
Definition columns_inv (S : list Z) (cols : list cell) : Prop :=
  (Z.of_nat (length cols) ≤ 2 ^ 32 - 1)%Z ∧
  (∀ z, z ∈ S → is_array_index z = true → (Z.to_nat z < length cols)%nat) ∧
  ∀ c x, cols !! c = Some x →
    (Z.of_nat c ∈ S → x = CStr "auto") ∧
    (Z.of_nat c ∉ S → x = CUndefined ∨ x = CNull).

(** *** Widget-name grammar at render time *)

(** [String(v)] for a property value *)
Definition String_of (v : option pval) : string :=
  match v with
  | None | Some PUndefined => "undefined"
  | Some (PStr s) => s
  | Some (PObj _) => "[object Object]"
  end.

(** [widget.name]; a normalised widget always has one. *)
Definition name_of (w : widget norm_props) : string := default "" (w_name w).

(** [widget.property || {}] *)
Definition props_of (w : widget norm_props) : norm_props :=
  default ∅ (w_property w).

(** What a render function does: it throws, returns [null], or returns an
    element. *)
Inductive rendered (A : Type) :=
| TypeError
| Null
| Element (a : A).

Arguments TypeError {A}.
Arguments Null {A}.
Arguments Element {A}.

(** The part of [renderNRelation] that is derived from the widget name and
    the props: the table header of the relation and which row controls are
    shown. The header and the rows themselves are not modelled. *)
Record nrelation := {
  nr_disabled : bool;
  nr_tablename : string;
  nr_sortcol : option string;
  nr_noreorder : option string;
  nr_datasetname : string;
  nr_reorder_buttons : bool;      (* chevron-up / chevron-down per row *)
  nr_remove_button : bool         (* trash per row *)
}.

Definition renderNRelation (pr : props) (w : widget norm_props)
    : rendered nrelation :=
  let parts := split_dunder (name_of w) in
  if (length parts <? 3)%nat then Null
  else
    let disabled := String.eqb (String_of (props_of w !! "enabled")) "false" in
    let tablename := part_key parts 1 in
    let sortcol := part_or_null parts 3 in
    let noreorder := part_or_null parts 4 in
    let datasetname := mapPrefix pr +:+ tablename in
    match w_layout w with
    | None => TypeError                  (* widget.layout.item *)
    | Some _ =>
        Element {| nr_disabled := disabled;
                   nr_tablename := tablename;
                   nr_sortcol := sortcol;
                   nr_noreorder := noreorder;
                   nr_datasetname := datasetname;
                   nr_reorder_buttons :=
                     negb (readOnly pr) && negb disabled
                     && bool_decide (is_Some sortcol)
                     && negb (bool_decide (is_Some noreorder));
                   nr_remove_button := negb (readOnly pr) && negb disabled |}
    end.

(** The [EditComboField] element produced by the [QComboBox] branch of
    [renderWidget], with the props that bind it to data. Styling and input
    constraints are left out. *)
Inductive combo :=
| KeyValCombo (fieldId key keyvalrel name : string) (multiSelect : bool)
              (value : fval)
| ValuesCombo (fieldId key : string) (name : option string) (value : fval)
              (values : list (option pval * option pval)).

(** [x ?? ""] *)
Definition or_empty (v : option fval) : fval :=
  match v with
  | None | Some FNull => FStr ""
  | Some v => v
  end.

(** [renderWidget] on a widget of class [QComboBox]; [None] is the [null]
    returned for a widget whose [visible] property is ["false"]. *)
Definition renderWidget_QComboBox (pr : props) (externalFieldValues : gmap string string)
    (feat : feature) (nametransform : string → string) (w : widget norm_props)
    : option combo :=
  let wname := name_of w in
  let value := or_empty (default ∅ (properties feat) !! wname) in
  let prop := props_of w in
  if String.eqb (String_of (prop !! "visible")) "false" then None
  else
    let '(elname, value) :=
      if startsWith wname "ext__" then
        (None,
         match externalFieldValues !! slice_from 5 wname with
         | Some s => FStr s
         | None => FNull
         end)
      else (Some (nametransform wname), value) in
    let parts := split_dunder wname in
    let count := length parts in
    if ((count =? 5)%nat || (count =? 6)%nat)
       && bool_decide (parts !! 0%nat = Some "kvrel") then
      let fieldId := join "__" (list_slice 1 (count - 3) parts) in
      let value := or_empty (default ∅ (properties feat) !! fieldId) in
      let keyvalrel :=
        mapPrefix pr +:+ part_key parts (count - 3) +:+ ":"
                     +:+ part_key parts (count - 2) +:+ ":"
                     +:+ part_key parts (count - 1) in
      Some (KeyValCombo fieldId fieldId keyvalrel (nametransform fieldId)
                        (bool_decide (w_allowMulti w = Some "true")) value)
    else
      Some (ValuesCombo wname wname elname value
              (map (fun it =>
                      let p := props_of it in
                      (p !! "text",
                       match p !! "value" with
                       | None | Some PUndefined => p !! "text"
                       | v => v
                       end))
                   (w_item w))).


(** Names built from tokens: [kvrel__a__b__c__d] and
    [nrel__t__fk], [nrel__t__fk__sort], [nrel__t__fk__sort__noreorder]. *)
Definition kvrel_name (a b c d : string) : string :=
  join "__" ["kvrel"; a; b; c; d].

Definition nrel_name (t fk : string) (optional : list string) : string :=
  join "__" ("nrel" :: t :: fk :: optional).

(** Every string of the list but the last is a [token], the last one does
    not contain the separator. *)
Fixpoint tokens_ok (l : list string) : bool :=
  match l with
  | [] => false
  | [d] => no_dunder d
  | a :: l' => token a && tokens_ok l'
  end.

Definition combo_fieldId (c : combo) : string :=
  match c with
  | KeyValCombo fieldId _ _ _ _ _ => fieldId
  | ValuesCombo fieldId _ _ _ _ => fieldId
  end.

(** The [keyvalrel] prop, which only a key/value combo has. *)
Definition combo_keyvalrel (c : combo) : option string :=
  match c with
  | KeyValCombo _ _ keyvalrel _ _ _ => Some keyvalrel
  | ValuesCombo _ _ _ _ _ => None
  end.

(** *** buildErrMsg *)

Record geometry_error := { reason : string; location : string }.

Record error_details := {
  geometry_errors : option (list geometry_error);
  data_errors : option (list string);
  validation_errors : option (list string)
}.

(** A relation-row feature, as far as [buildErrMsg] reads it. *)
Record record := {
  error : string;
  record_error_details : option error_details
}.

Definition no_details : error_details :=
  {| geometry_errors := None; data_errors := None; validation_errors := None |}.

Definition buildErrMsg (rec : record) : string :=
  let message := error rec in
  (* record.error_details || {} *)
  let errorDetails := default no_details (record_error_details rec) in
  let message :=
    if negb (isEmpty (geometry_errors errorDetails)) then
      (message +:+ ":" +:+ nl) +:+
      array_toString
        (map (fun entry => " - " +:+ reason entry +:+ " at " +:+ location entry)
             (default [] (geometry_errors errorDetails)))
    else message in
  let message :=
    if negb (isEmpty (data_errors errorDetails)) then
      message +:+ (":" +:+ nl +:+ " - ") +:+
      join (nl +:+ " - ") (default [] (data_errors errorDetails))
    else message in
  let message :=
    if negb (isEmpty (validation_errors errorDetails)) then
      message +:+ (":" +:+ nl +:+ " - ") +:+
      join (nl +:+ " - ") (default [] (validation_errors errorDetails))
    else message in
  message.

(** The [onClick] of the tab bar of a [QTabWidget] (l.335):
    [setState(state => ({activetabs: {...state.activetabs, [widget.name]: key}}))]. *)
Definition selectTab (name key : string) (w : world) : world :=
  let active :=
    match w_state w !! "activetabs" with
    | Some (STabs active) => active
    | _ => ∅
    end in
  with_state w (setState {[ "activetabs" := STabs (<[name := key]> active) ]} (w_state w)).

End QtDesignerForm.

(** ** plugins/MapInfoTooltip.jsx *)
Module MapInfoTooltip.
Import JS.

(** A JavaScript number: [NaN], an infinity, or a finite number, which is a
    rational. What the engine computes from such numbers is not reproduced
    here: [*], [/], [Math.round] and [Math.pow] are fields of [externals]. *)
Inductive jsnum :=
| NaN
| Num (q : Q)
| Infinity (negative : bool).

(** [state.map.click] *)
Record click := {
  button : Z;
  pixel : Q * Q;
  coordinate : list Q
}.

Record mapstate := {
  map_click : option click;
  projection : string;
  displayCrs : string
}.

Record props := {
  elevationPrecision : Z;
  enabled : bool;
  includeWGS84 : bool;
  map : mapstate
}.

(** [ConfigUtils.getConfigProp] for the two keys the component reads. *)
Record config := {
  elevationServiceUrl : option string;
  mapInfoService : option string
}.

(** Functions of other modules. *)
Record externals := {
  tr : string → string;                        (* LocaleUtils.tr *)
  numToString : jsnum → string;                (* Number.prototype.toString *)
  (* the label and the formatted, reprojected coordinate for one CRS *)
  coordinateRow : list Q → string → string → string * string;
  (* binary64 arithmetic, as the engine computes it *)
  times : jsnum → jsnum → jsnum;               (* a * b *)
  divide : jsnum → jsnum → jsnum;              (* a / b *)
  Math_round : jsnum → jsnum;
  Math_pow : jsnum → jsnum → jsnum
}.

Inductive tval :=
| TNull
| TPoint (c : click)
| TNum (n : jsnum)
| TRows (rows : list (string * string)).

Abbreviation state := (gmap string tval).

Definition setState (patch st : state) : state := patch ∪ st.

Definition initial_state : state :=
  {[ "point" := TNull; "elevation" := TNull; "extraInfo" := TNull ]}.

Definition truthy (v : option tval) : bool :=
  match v with
  | None | Some TNull | Some (TNum NaN) => false
  | Some (TNum (Num q)) => negb (Qeq_bool q 0)
  | Some (TNum (Infinity _)) => true
  | Some (TPoint _) | Some (TRows _) => true
  end.

Definition clear (st : state) : state :=
  setState {[ "point" := TNull; "height" := TNull; "extraInfo" := TNull ]} st.

(** [s.replace(/\/$/, '')] *)
Fixpoint strip_trailing_slash (s : string) : string :=
  match s with
  | EmptyString => ""
  | String c EmptyString => if Ascii.eqb c (ascii_of_nat 47) then "" else s
  | String c s' => String c (strip_trailing_slash s')
  end.

(** A request sent with [axios.get]; the elevation request remembers the
    precision its [then] handler closes over. *)
Inductive fetch :=
| GetElevation (url pos crs : string) (precision : Z)
| GetMapInfo (url pos crs : string).

(** [a !== b] on the two components of a pixel *)
Definition pixel_differs (a b : Q * Q) : bool :=
  negb (Qeq_bool (fst a) (fst b)) || negb (Qeq_bool (snd a) (snd b)).

Definition componentDidUpdate (E : externals) (cfg : config) (prevProps pr : props)
    (st : state) : state * list fetch :=
  if negb (enabled pr) && truthy (st !! "point") then (clear st, [])
  else
    match map_click (map pr) with
    | Some newPoint =>
        if negb (button newPoint =? 2)%Z then
          (if truthy (st !! "point") then clear st else st, [])
        else
          let changed :=
            match map_click (map prevProps) with
            | None => true
            | Some oldPoint => pixel_differs (pixel oldPoint) (pixel newPoint)
            end in
          if changed then
            let st := setState {[ "point" := TPoint newPoint; "elevation" := TNull ]} st in
            let pos := join "," (List.map (fun x => numToString E (Num x))
                                          (coordinate newPoint)) in
            let crs := projection (map pr) in
            let elevationService :=
              strip_trailing_slash (default "" (elevationServiceUrl cfg)) in
            let elevationPrecision := elevationPrecision prevProps in
            let f1 :=
              if truthy_str elevationService then
                [GetElevation (elevationService +:+ "/getelevation") pos crs
                              elevationPrecision]
              else [] in
            let f2 :=
              match mapInfoService cfg with
              | Some url => if truthy_str url then [GetMapInfo url pos crs] else []
              | None => []
              end in
            (st, (f1 ++ f2)%list)
          else (st, [])
    | None => (if truthy (st !! "point") then clear st else st, [])
    end.

(** [Math.round(elevation * Math.pow(10, precision)) / Math.pow(10, precision)] *)
Definition rounded_elevation (E : externals) (precision : Z) (elevation : jsnum)
    : jsnum :=
  let scale := Math_pow E (Num (inject_Z 10)) (Num (inject_Z precision)) in
  divide E (Math_round E (times E elevation scale)) scale.

(** The [then] handler of the elevation request: [elevation] is
    [response.data.elevation]. *)
Definition onElevation (E : externals) (precision : Z) (elevation : jsnum)
    (st : state) : state :=
  setState {[ "elevation" := TNum (rounded_elevation E precision elevation) ]} st.

(** The [then] handler of the map-info request. *)
Definition onMapInfo (results : list (string * string)) (st : state) : state :=
  setState {[ "extraInfo" := TRows results ]} st.

(** The rows of the popup and the text offered for copying; [None] when
    nothing is rendered. Position, routing shortcuts and plugins are left
    out. *)
Record popup := {
  title : string;
  info : list (string * string);
  text : string
}.

Definition projections (pr : props) : list string :=
  let ps := [displayCrs (map pr)] in
  let ps := if bool_decide (projection (map pr) ∈ ps) then ps
            else (ps ++ [projection (map pr)])%list in
  if includeWGS84 pr && negb (bool_decide ("EPSG:4326" ∈ ps))
  then (ps ++ ["EPSG:4326"])%list else ps.

Definition coordinate_rows (E : externals) (pr : props) (c : click)
    : list (string * string) :=
  List.map (coordinateRow E (coordinate c) (projection (map pr))) (projections pr).

(** [this.state.elevation + " m"]; the [elevation] key only ever holds [null]
    or a number. *)
Definition elevation_text (E : externals) (v : option tval) : string :=
  match v with
  | Some (TNum n) => numToString E n
  | _ => ""
  end.

Definition elevation_row (E : externals) (st : state) : string * string :=
  (tr E "mapinfotooltip.elevation", elevation_text E (st !! "elevation") +:+ " m").

Definition elevation_rows (E : externals) (st : state) : list (string * string) :=
  if truthy (st !! "elevation") then [elevation_row E st] else [].

Definition extra_rows (st : state) : list (string * string) :=
  match st !! "extraInfo" with
  | Some (TRows rows) => rows
  | _ => []
  end.

Definition render (E : externals) (pr : props) (st : state) : option popup :=
  match st !! "point" with
  | Some (TPoint c) =>
      let info :=
        (coordinate_rows E pr c ++ elevation_rows E st ++ extra_rows st)%list in
      Some {| title := tr E "mapinfotooltip.title";
              info := info;
              text := join nl (List.map (fun entry => fst entry +:+ ": " +:+ snd entry)
                                        info) |}
  | _ => None
  end.

End MapInfoTooltip.

(** ** components/QtDesignerForm.jsx, continued *)
Module QtDesignerFormMore.
Import JS QtDesignerForm.

(** *** Layout sizing: [computeLayoutRows] *)

(** [item.spacer?.property?.orientation === "Qt::Vertical"] *)
Definition is_vspacer (it : item norm_props) : bool :=
  pval_is (i_spacer_property it ≫= (.!! "orientation")) "Qt::Vertical".

(** [item.widget?.name?.startsWith?.("nrel_")] *)
Definition is_nrel_item (it : item norm_props) : bool :=
  match i_widget it ≫= w_name with
  | Some n => startsWith n "nrel_"
  | None => false
  end.

(** [item.widget?.layout ?? item.layout] *)
Definition item_layout (it : item norm_props) : option (layout norm_props) :=
  match i_widget it ≫= w_layout with
  | Some l => Some l
  | None => match i_content it with ILayout l => Some l | _ => None end
  end.

(** [item.widget?.layout?.verticalFill || item.layout?.verticalFill] *)
Definition item_verticalFill (it : item norm_props) : bool :=
  bool_decide ((i_widget it ≫= w_layout) ≫= l_verticalFill = Some true)
  || bool_decide (match i_content it with
                  | ILayout l => l_verticalFill l
                  | _ => None
                  end = Some true).

(** [useIndex ? index : (parseInt(item.row, 10) || 0)] *)
Definition item_row (useIndex : bool) (index : nat) (it : item norm_props) : Z :=
  if useIndex then Z.of_nat index else num_or (parseInt10 (i_row it)) 0%Z.

(** What an item writes to its row: ['auto'], [null], or the row as it is
    (with [null] for a hole). *)
Inductive row_write :=
| WriteAuto
| WriteNull
| Keep.

Definition row_write_of (useIndex hasSpacer : bool) (it : item norm_props) : row_write :=
  let rowSpan := if useIndex then 1%Z else num_or (parseInt10 (i_rowspan it)) 1%Z in
  if is_vspacer it || is_nrel_item it then WriteAuto
  else if bool_decide (is_Some (item_layout it)) then
    if item_verticalFill it then WriteAuto else WriteNull
  else if negb hasSpacer && negb (includes vFitWidgets (i_widget it ≫= w_class))
          && (rowSpan =? 1)%Z then WriteAuto
  else Keep.

(** The [forEach] of [computeLayoutRows]. *)
Definition rows_step (useIndex hasSpacer : bool) (rows : list cell)
    (index : nat) (it : item norm_props) : list cell :=
  let row := item_row useIndex index it in
  match row_write_of useIndex hasSpacer it with
  | WriteAuto => arr_set rows row (CStr "auto")
  | WriteNull => arr_set rows row CNull
  | Keep => arr_set rows row (or_null (arr_get rows row))
  end.

Definition computeLayoutRows (items : list (item norm_props)) (useIndex : bool)
    : list string :=
  let hasSpacer := existsb is_vspacer items in
  let rows := forEach_index (rows_step useIndex hasSpacer) 0 items [] in
  let fit := "fit-content(" +:+ round_percent (length rows) +:+ "%)" in
  map (fun c => cell_or c fit) rows.

(** The write that decides row [r]: the last one, in source order, of the
    items of that row that write at all. *)
Fixpoint row_verdict (useIndex hasSpacer : bool) (r : Z) (index : nat)
    (items : list (item norm_props)) (sofar : bool) : bool :=
  match items with
  | [] => sofar
  | it :: rest =>
      row_verdict useIndex hasSpacer r (S index) rest
        (if (item_row useIndex index it =? r)%Z then
           match row_write_of useIndex hasSpacer it with
           | WriteAuto => true
           | WriteNull => false
           | Keep => sofar
           end
         else sofar)
  end.

(** *** Layout sizing: which items make their column ['auto'] *)

(** The condition of the first two branches of the [forEach] of
    [computeLayoutColumns]. *)
Definition auto_item (useIndex hasSpacer : bool) (it : item norm_props) : bool :=
  let colSpan := if useIndex then 1%Z else num_or (parseInt10 (i_colspan it)) 1%Z in
  is_hspacer it
  || (negb hasSpacer && negb (includes hFitWidgets (i_widget it ≫= w_class))
      && (colSpan =? 1)%Z).

Fixpoint auto_columns (useIndex hasSpacer : bool) (index : nat)
    (items : list (item norm_props)) : list Z :=
  match items with
  | [] => []
  | it :: rest =>
      ((if auto_item useIndex hasSpacer it then [item_column useIndex index it] else [])
         ++ auto_columns useIndex hasSpacer (S index) rest)%list
  end.

(** The cell an item of a box layout leaves in its own column. *)
Definition box_cell (hasSpacer : bool) (it : item norm_props) : cell :=
  if auto_item true hasSpacer it then CStr "auto" else CNull.

(** What the rows look like while the items are processed, [V] telling for
    each row whether the write that decides it so far was ['auto']. *)
Definition rows_inv (V : Z → bool) (rows : list cell) : Prop :=
  (Z.of_nat (length rows) ≤ 2 ^ 32 - 1)%Z
  ∧ (∀ c, (length rows ≤ c)%nat → is_array_index (Z.of_nat c) = true →
          V (Z.of_nat c) = false)
  ∧ ∀ c x, rows !! c = Some x →
      if V (Z.of_nat c) then x = CStr "auto" else x = CNull ∨ x = CUndefined.

(** *** The layouts of a tree and the [verticalFill] flag *)

(** All layout nodes of a tree. *)
Fixpoint widget_layouts {P} (w : widget P) : list (layout P) :=
  match w with
  | Widget _ _ _ _ _ item layout children =>
      (flat_map widget_layouts item
         ++ match layout with Some l => layout_layouts l | None => [] end
         ++ flat_map widget_layouts children)%list
  end
with layout_layouts {P} (l : layout P) : list (layout P) :=
  match l with
  | Layout _ _ item _ =>
      l :: flat_map (fun it =>
                       match it with
                       | Item _ _ _ _ (IWidget w) => widget_layouts w
                       | Item _ _ _ _ (ILayout l') => layout_layouts l'
                       | Item _ _ _ _ _ => []
                       end) item
  end.

Definition item_layouts {P} (it : item P) : list (layout P) :=
  match it with
  | Item _ _ _ _ (IWidget w) => widget_layouts w
  | Item _ _ _ _ (ILayout l') => layout_layouts l'
  | Item _ _ _ _ _ => []
  end.

(** Whether a node of the normalised tree asks for the remaining vertical
    space: a relation widget, a widget without layout whose class is not
    one of [vFitWidgets], a vertical spacer, or a node with such a node
    below it. *)
Fixpoint widget_fills (w : widget norm_props) : bool :=
  match w with
  | Widget class name _ _ _ item layout children =>
      existsb widget_fills item
      || match layout with Some l => layout_fills l | None => false end
      || existsb widget_fills children
      || startsWith (default "" name) "nrel__"
      || (negb (bool_decide (is_Some layout)) && negb (includes vFitWidgets class))
  end
with layout_fills (l : layout norm_props) : bool :=
  match l with
  | Layout _ _ item _ =>
      existsb (fun it =>
                 match it with
                 | Item _ _ _ _ (IWidget w) => widget_fills w
                 | Item _ _ _ _ (ISpacer _ p) =>
                     pval_is (p ≫= (.!! "orientation")) "Qt::Vertical"
                 | Item _ _ _ _ (ILayout l') => layout_fills l'
                 | Item _ _ _ _ INone => false
                 end) item
  end.

Definition item_fills (it : item norm_props) : bool :=
  match it with
  | Item _ _ _ _ (IWidget w) => widget_fills w
  | Item _ _ _ _ (ISpacer _ p) => pval_is (p ≫= (.!! "orientation")) "Qt::Vertical"
  | Item _ _ _ _ (ILayout l') => layout_fills l'
  | Item _ _ _ _ INone => false
  end.

(** The normalisation invariant of a layout node: a non-empty name, the
    [verticalFill] flag of the nodes below it, and a property map on every
    spacer it holds. *)
Definition layout_normalised (l : layout norm_props) : Prop :=
  (∃ n, l_name l = Some n ∧ n ≠ "")
  ∧ l_verticalFill l = Some (layout_fills l)
  ∧ Forall (fun it => match i_content it with
                      | ISpacer _ p => is_Some p
                      | _ => True
                      end) (l_item l).

(** *** What the registries hold after a parse *)

(** The registries only grow: no key is ever removed and the counters do
    not decrease. *)
Definition registries_le (st st' : registries) : Prop :=
  dom (relationTables st) ⊆ dom (relationTables st')
  ∧ dom (fields st) ⊆ dom (fields st')
  ∧ dom (buttons st) ⊆ dom (buttons st')
  ∧ dom (nrels st) ⊆ dom (nrels st')
  ∧ dom (externalFields st) ⊆ dom (externalFields st')
  ∧ dom (widgets st) ⊆ dom (widgets st')
  ∧ (counters_widget st ≤ counters_widget st')%nat
  ∧ (counters_layout st ≤ counters_layout st')%nat.

(** A widget node is accounted for in the registries [st]. *)
Definition registered (pr : props) (st : registries) (w : widget norm_props) : Prop :=
  ∃ name, w_name w = Some name
  ∧ name ∈ dom (widgets st)
  ∧ (js_in name (p_fields pr) = true → name ∈ dom (fields st))
  ∧ (startsWith name "ext__" = true →
     slice_from 5 name ∈ dom (externalFields st))
  ∧ (js_in name (p_fields pr) = false → startsWith name "btn__" = true →
     part_key (split_dunder name) 1 ∈ dom (buttons st))
  ∧ (js_in name (p_fields pr) = false → startsWith name "nrel__" = true →
     part_key (split_dunder name) 1 ∈ dom (nrels st))
  ∧ ((3 ≤ length (split_dunder name))%nat → split_dunder name !! 0%nat = Some "nrel" →
     mapPrefix pr +:+ part_key (split_dunder name) 1 ∈ dom (relationTables st)).

(** Every external field is the empty string. *)
Definition externalFields_blank (st : registries) : Prop :=
  ∀ k v, externalFields st !! k = Some v → v = "".

Definition registries_grow (st st' : registries) : Prop :=
  registries_le st st' ∧ (externalFields_blank st → externalFields_blank st').

(** *** The component's [render] and its loading state *)

Definition truthy_sval (v : option sval) : bool :=
  match v with
  | None | Some SUndefined | Some SNull | Some (SBool false) => false
  | Some _ => true
  end.

(** What [render] shows: the spinner, the form of [this.state.formData], or
    nothing. *)
Inductive view :=
| ViewLoading
| ViewForm (fd : formdata)
| ViewNothing.

Definition render (w : world) : view :=
  if truthy_sval (w_state w !! "loading") then ViewLoading
  else
    match w_state w !! "formData" with
    | Some (SForm fd) => ViewForm fd
    | _ => ViewNothing
    end.

(** The component is loading exactly while a request identifier is
    recorded, and both keys are always there. *)
Definition loading_consistent (w : world) : Prop :=
  (w_state w !! "loading" = Some (SBool true)
   ∧ ∃ i, w_state w !! "loadingReqId" = Some (SReqId i))
  ∨ (w_state w !! "loading" = Some (SBool false)
     ∧ w_state w !! "loadingReqId" = Some SNull).

(** The number of [axios.get] calls among the effects. *)
Definition count_gets (effs : list effect) : nat :=
  length (List.filter (fun e => match e with EGet _ => true | _ => false end) effs).

(** *** Property lists *)

(** The key an entry is stored under, and the value stored. *)
Definition entry_key (e : prop_entry) : string :=
  default "undefined" (entry_name e).

Definition entry_value (e : prop_entry) : pval :=
  match entry_rest e with
  | (_, v) :: _ => v
  | [] => PUndefined
  end.

(** The last entry of the list that has the key [k]. *)
Definition last_entry (k : string) (entries : raw_props) : option prop_entry :=
  List.find (fun e => String.eqb (entry_key e) k) (rev entries).

(** *** dateConstraint *)

(** [s.slice(-2)] *)
Definition slice_last2 (s : string) : string :=
  slice_from (String.length s - 2) s.

(** A date as the property holds it; the three fields are decimal numbers,
    seen through their conversion to a string. *)
Record date_constraint := { year : string; month : string; day : string }.

Definition dateConstraint (constr : date_constraint) : string :=
  year constr +:+ "-" +:+ slice_last2 ("0" +:+ month constr)
              +:+ "-" +:+ slice_last2 ("0" +:+ day constr).

(** A number below 100 written with two digits. *)
Definition two_digits (n : nat) : string :=
  (if (n <? 10)%nat then "0" else "") +:+ pretty n.

(** *** Helpers of the statements *)

(** The widget name [kvrel__<reltable>__<field>__<table>__<key>__<value>]. *)
Definition kvrel_rel_name (rt a b c d : string) : string :=
  join "__" ["kvrel"; rt; a; b; c; d].

(** The classification block of [reformatWidget]: the registries after the
    widget called [name], at position [here], has been entered. *)
Definition classify (pr : props) (here : path) (name : string) (st : registries)
    : registries :=
  let st :=
    if js_in name (p_fields pr) then set_fields <[name := here]> st
    else if startsWith name "kvrel__" || startsWith name "img__" then
      let parts := split_dunder name in
      if js_in (part_key parts 1) (p_fields pr) then
        set_fields <[part_key parts 1 := here]> st
      else st
    else if startsWith name "btn__" then
      set_buttons <[part_key (split_dunder name) 1 := here]> st
    else if startsWith name "nrel__" then
      set_nrels <[part_key (split_dunder name) 1 := here]> st
    else st in
  let st :=
    if startsWith name "ext__" then
      set_externalFields <[slice_from 5 name := ""]> st
    else st in
  set_widgets <[name := here]> st.

(** *** The tree by positions *)

(** [flat_map] with the index of the element. *)
Definition flat_mapi {A B} (f : nat → A → list B) : nat → list A → list B :=
  fix go i l :=
    match l with
    | [] => []
    | x :: xs => (f i x ++ go (Datatypes.S i) xs)%list
    end.

(** The widget at a position, relative to the widget [w]. *)
Fixpoint node_at {P} (p : path) (w : widget P) : option (widget P) :=
  match p with
  | [] => Some w
  | AtItem i :: p' => w_item w !! i ≫= node_at p'
  | AtChild i :: p' => w_widget w !! i ≫= node_at p'
  | AtLayout :: p' => w_layout w ≫= layout_node_at p'
  | AtLayoutItem _ :: _ => None
  end
with layout_node_at {P} (p : path) (l : layout P) : option (widget P) :=
  match p with
  | AtLayoutItem i :: p' =>
      l_item l !! i ≫= fun it =>
        match i_content it with
        | IWidget w => node_at p' w
        | ILayout l' => layout_node_at p' l'
        | _ => None
        end
  | _ => None
  end.

(** The widgets of a normalised tree, by name and position, in the order in
    which [reformatWidget] enters them in the registries: the items of a
    widget, the widget itself, its layout, its child widgets. [here] is the
    position of the node. *)
Fixpoint entered (here : path) (w : widget norm_props) : list (string * path) :=
  match w with
  | Widget _ name _ _ _ item layout children =>
      (flat_mapi (fun i it => entered (here ++ [AtItem i])%list it) 0 item
       ++ [(default "" name, here)]
       ++ match layout with
          | Some l => layout_entered (here ++ [AtLayout])%list l
          | None => []
          end
       ++ flat_mapi (fun i child => entered (here ++ [AtChild i])%list child) 0 children)%list
  end
with layout_entered (here : path) (l : layout norm_props) : list (string * path) :=
  match l with
  | Layout _ _ item _ =>
      flat_mapi (fun i it =>
                   match it with
                   | Item _ _ _ _ (IWidget w) => entered (here ++ [AtLayoutItem i])%list w
                   | Item _ _ _ _ (ILayout l') =>
                       layout_entered (here ++ [AtLayoutItem i])%list l'
                   | Item _ _ _ _ _ => []
                   end) 0 item
  end.

(** The names of the widgets in the order in which the calls of
    [reformatWidget] return, which is when the relation table of a widget
    is written: a widget comes after everything below it. *)
Fixpoint completed (w : widget norm_props) : list string :=
  match w with
  | Widget _ name _ _ _ item layout children =>
      (flat_map completed item
       ++ match layout with Some l => layout_completed l | None => [] end
       ++ flat_map completed children
       ++ [default "" name])%list
  end
with layout_completed (l : layout norm_props) : list string :=
  match l with
  | Layout _ _ item _ =>
      flat_map (fun it =>
                  match it with
                  | Item _ _ _ _ (IWidget w) => completed w
                  | Item _ _ _ _ (ILayout l') => layout_completed l'
                  | Item _ _ _ _ _ => []
                  end) item
  end.

(** What entering one widget writes to each registry. *)
Definition field_entry (pr : props) (e : string * path) : option (string * path) :=
  let '(name, here) := e in
  if js_in name (p_fields pr) then Some (name, here)
  else if (startsWith name "kvrel__" || startsWith name "img__")
          && js_in (part_key (split_dunder name) 1) (p_fields pr)
  then Some (part_key (split_dunder name) 1, here)
  else None.

Definition button_entry (pr : props) (e : string * path) : option (string * path) :=
  let '(name, here) := e in
  if negb (js_in name (p_fields pr))
     && negb (startsWith name "kvrel__" || startsWith name "img__")
     && startsWith name "btn__"
  then Some (part_key (split_dunder name) 1, here)
  else None.

Definition nrel_entry (pr : props) (e : string * path) : option (string * path) :=
  let '(name, here) := e in
  if negb (js_in name (p_fields pr))
     && negb (startsWith name "kvrel__" || startsWith name "img__")
     && negb (startsWith name "btn__")
     && startsWith name "nrel__"
  then Some (part_key (split_dunder name) 1, here)
  else None.

Definition external_entry (e : string * path) : option (string * string) :=
  if startsWith e.1 "ext__" then Some (slice_from 5 e.1, "") else None.

(** The relation table a widget name stands for. *)
Definition relation_entry (pr : props) (name : string)
    : option (string * relation_table) :=
  let parts := split_dunder name in
  if (3 <=? length parts)%nat && bool_decide (parts !! 0%nat = Some "nrel") then
    Some (mapPrefix pr +:+ part_key parts 1,
          {| fk := part_key parts 2;
             sortcol := part_or_null parts 3;
             noreorder := part_or_null parts 4 |})
  else None.

(** A map written key by key, in the order of the list: a later entry
    replaces an earlier one with the same key. *)
Definition written {V} (entries : list (string * V)) : gmap string V :=
  list_to_map (reverse entries).

(** The normalised tree [w'] has the shape of the parsed tree [w]: the same
    classes and nesting, the property lists reduced to maps, and on every
    widget a non-empty name, which is the one of the document wherever the
    document has a non-empty one; the children of a tab or stacked widget
    ([forced]) are renamed. *)
Definition all2 {A B} (R : A → B → Prop) : list A → list B → Prop :=
  fix go l l' :=
    match l, l' with
    | [], [] => True
    | x :: xs, y :: ys => R x y ∧ go xs ys
    | _, _ => False
    end.

Fixpoint same_shape (forced : bool) (w : widget raw_props) (w' : widget norm_props)
    : Prop :=
  match w, w' with
  | Widget class name property attribute allowMulti item layout children,
    Widget class' name' property' attribute' allowMulti' item' layout' children' =>
      class' = class ∧ allowMulti' = allowMulti
      ∧ property' = Some (reduce_props (default [] property))
      ∧ attribute' = Some (reduce_props (default [] attribute))
      ∧ (∃ n, name' = Some n ∧ n ≠ ""
              ∧ (forced = false → ∀ s, name = Some s → s ≠ "" → n = s))
      ∧ all2 (same_shape false) item item'
      ∧ match layout, layout' with
        | Some l, Some l' => layout_same_shape l l'
        | None, None => True
        | _, _ => False
        end
      ∧ all2 (same_shape true) children children'
  end
with layout_same_shape (l : layout raw_props) (l' : layout norm_props) : Prop :=
  match l, l' with
  | Layout class name item _, Layout class' name' item' _ =>
      class' = class
      ∧ (∃ n, name' = Some n ∧ n ≠ "" ∧ ∀ s, name = Some s → s ≠ "" → n = s)
      ∧ all2 (fun it it' =>
                match it, it' with
                | Item row column rowspan colspan content,
                  Item row' column' rowspan' colspan' content' =>
                    row' = row ∧ column' = column
                    ∧ rowspan' = rowspan ∧ colspan' = colspan
                    ∧ match content, content' with
                      | IWidget w, IWidget w' => same_shape false w w'
                      | ISpacer sname sprop, ISpacer sname' sprop' =>
                          sname' = sname
                          ∧ sprop' = Some (reduce_props (default [] sprop))
                      | ILayout l0, ILayout l0' => layout_same_shape l0 l0'
                      | INone, INone => True
                      | _, _ => False
                      end
                end) item item'
  end.

(** The positions, relative to a widget of the parsed tree, of the widgets
    that draw a name from the counter, in the order in which they draw it:
    a widget without a non-empty name draws after its items have been
    processed, a child of a tab or stacked widget gets a drawn name before
    it is processed. *)
Fixpoint draws (forced : bool) (w : widget raw_props) : list path :=
  match w with
  | Widget _ name _ _ _ item layout children =>
      (flat_mapi (fun i it => map (cons (AtItem i)) (draws false it)) 0 item
       ++ (if forced || truthy_str (default "" name) then [] else [[]])
       ++ match layout with
          | Some l => map (cons AtLayout) (layout_draws l)
          | None => []
          end
       ++ flat_mapi (fun i child =>
                       [AtChild i] :: map (cons (AtChild i)) (draws true child))
                    0 children)%list
  end
with layout_draws (l : layout raw_props) : list path :=
  match l with
  | Layout _ _ item _ =>
      flat_mapi (fun i it =>
                   match it with
                   | Item _ _ _ _ (IWidget w) =>
                       map (cons (AtLayoutItem i)) (draws false w)
                   | Item _ _ _ _ (ILayout l') =>
                       map (cons (AtLayoutItem i)) (layout_draws l')
                   | Item _ _ _ _ _ => []
                   end) 0 item
  end.

(** A map after the entries of a list have been written to it in order. *)
Definition write_all {V} (m : gmap string V) (entries : list (string * V))
    : gmap string V :=
  foldl (fun m e => <[e.1 := e.2]> m) m entries.

(** The registries [st'] are the registries [st] after the widgets [ent]
    have been entered and the relation tables of the names [comp] have been
    written. *)
Definition replayed (pr : props) (st st' : registries)
    (ent : list (string * path)) (comp : list string) : Prop :=
  widgets st' = write_all (widgets st) ent
  ∧ fields st' = write_all (fields st) (omap (field_entry pr) ent)
  ∧ buttons st' = write_all (buttons st) (omap (button_entry pr) ent)
  ∧ nrels st' = write_all (nrels st) (omap (nrel_entry pr) ent)
  ∧ externalFields st' = write_all (externalFields st) (omap external_entry ent)
  ∧ relationTables st' = write_all (relationTables st) (omap (relation_entry pr) comp).

(** The name drawn when the counter is [k]. *)
Definition drawn_name (k : nat) : string := ":widget_" +:+ pretty k.

(** The names found by [look] at the positions [ds] are the names drawn
    from the counter, one after the other, starting at [c]. *)
Definition drawn (c : nat) (look : path → option string) (ds : list path) : Prop :=
  map look ds = map (fun k => Some (drawn_name k)) (seq c (length ds)).

(** The index of a step made with [mk]. *)
Definition item_index (s : step) : option nat :=
  match s with AtItem i => Some i | _ => None end.
Definition child_index (s : step) : option nat :=
  match s with AtChild i => Some i | _ => None end.
Definition layout_item_index (s : step) : option nat :=
  match s with AtLayoutItem i => Some i | _ => None end.

(** [look] in the element of [ys] that a position names, [ys] being the
    elements from index [i0] on. *)
Definition look_list {B} (index : step → option nat) (look : B → path → option string)
    (ys : list B) (i0 : nat) (p : path) : option string :=
  match p with
  | s :: p' =>
      match index s with
      | Some j => if (i0 <=? j)%nat then ys !! (j - i0)%nat ≫= fun y => look y p' else None
      | None => None
      end
  | [] => None
  end.

(** The name at a position below a layout item. *)
Definition item_look (it : item norm_props) (p : path) : option string :=
  match i_content it with
  | IWidget w => node_at p w ≫= w_name
  | ILayout l => layout_node_at p l ≫= w_name
  | _ => None
  end.

Definition item_draws (it : item raw_props) : list path :=
  match i_content it with
  | IWidget w => draws false w
  | ILayout l => layout_draws l
  | _ => []
  end.

(** *** The length of an array that is written by index *)

(** The length of an array after the elements at the given indices have
    been written, starting from length [n]. *)
Definition extent (n : nat) (indices : list Z) : nat :=
  foldl (fun n i => if is_array_index i then max n (Datatypes.S (Z.to_nat i)) else n)
        n indices.

(** The column, and the row, each item writes. *)
Definition item_columns (useIndex : bool) (items : list (item norm_props)) : list Z :=
  imap (item_column useIndex) items.

Definition item_rows (useIndex : bool) (items : list (item norm_props)) : list Z :=
  imap (item_row useIndex) items.

(** The condition under which [componentDidUpdate] reloads the form: the
    form or the version of the feature differs from the previous props'. *)
Definition triggers (prev : option props) (cur : props) : Prop :=
  form <$> prev ≠ Some (form cur)
  ∨ prev ≫= (version ∘ p_feature) ≠ version (p_feature cur).

(** The URLs requested by a list of effects, and that each of them has a
    query string. *)
Definition gets_of (effs : list effect) : list string :=
  omap (fun e => match e with EGet u => Some u | _ => None end) effs.

Definition gets_have_query (effs : list effect) : Prop :=
  Forall (fun e => match e with EGet u => includes_qmark u = true | _ => True end) effs.

End QtDesignerFormMore.

(** ** plugins/MapInfoTooltip.jsx, continued *)
Module MapInfoTooltipMore.
Import JS MapInfoTooltip.

(** What can happen to a mounted tooltip. *)
Inductive event :=
| Update (prevProps pr : props)                  (* componentDidUpdate *)
| ElevationResponse (precision : Z) (elevation : jsnum)
| MapInfoResponse (results : list (string * string))
| Close.                                         (* the remove icon, a plugin *)

Definition handle (E : externals) (cfg : config) (st : state) (ev : event) : state :=
  match ev with
  | Update prevProps pr => (componentDidUpdate E cfg prevProps pr st).1
  | ElevationResponse precision elevation => onElevation E precision elevation st
  | MapInfoResponse results => onMapInfo results st
  | Close => clear st
  end.

Definition run (E : externals) (cfg : config) (st : state) (evs : list event) : state :=
  foldl (handle E cfg) st evs.

(** Each key of the state holds a value of its own kind, and a stored point
    is a right-click. *)
Definition well_formed (st : state) : Prop :=
  (st !! "point" = Some TNull
   ∨ ∃ c, st !! "point" = Some (TPoint c) ∧ button c = 2%Z)
  ∧ (st !! "elevation" = Some TNull ∨ ∃ n, st !! "elevation" = Some (TNum n))
  ∧ (st !! "extraInfo" = Some TNull ∨ ∃ rows, st !! "extraInfo" = Some (TRows rows)).

Definition fetch_pos (f : fetch) : string :=
  match f with GetElevation _ pos _ _ | GetMapInfo _ pos _ => pos end.

Definition fetch_url (f : fetch) : string :=
  match f with GetElevation url _ _ _ | GetMapInfo url _ _ => url end.

(** Whether the last character of a string is a slash. *)
Definition ends_with_slash (s : string) : bool :=
  match last (list_ascii_of_string s) with
  | Some c => Ascii.eqb c (ascii_of_nat 47)
  | None => false
  end.

End MapInfoTooltipMore.

(** ** Sample inputs *)
Module Samples.
Import JS QtDesignerForm.

Definition combo_widget (name : string) : widget norm_props :=
  Widget (Some "QComboBox") (Some name) (Some ∅) (Some ∅) None [] None [].

Definition sample_props (prefix : string) : props :=
  {| editLayerId := "map.layer";
     p_feature := {| properties := Some ∅; relationValues := None; version := Some 0 |};
     p_fields := ∅; form := "form.ui"; locale := "en";
     mapPrefix := prefix; readOnly := false |}.

Definition frame_widget (name : string) : widget raw_props :=
  Widget (Some "QFrame") (Some name) None None None [] None [].

(** A grid with a label in column 0 and a horizontal spacer in column 1. *)
Definition label_item : item norm_props :=
  Item (Some "0") (Some "0") None None
       (IWidget (Widget (Some "QLabel") (Some "label") (Some ∅) (Some ∅) None [] None [])).

Definition hspacer_item : item norm_props :=
  Item (Some "0") (Some "1") None None
       (ISpacer (Some "spacer") (Some {[ "orientation" := PStr "Qt::Horizontal" ]})).

(** An XML parser that knows two documents. *)
Definition sample_externals : externals :=
  {| xmlParse := fun data =>
       if String.eqb data "A" then Some (frame_widget "a")
       else if String.eqb data "B" then Some (frame_widget "b")
       else None;
     resolveAssetsPath := fun path => path;
     batchedUpdates := true;
     earlyCallback := fun _ _ _ => None |}.

Definition sample_form_props (f : string) : props :=
  {| editLayerId := "map.layer";
     p_feature := {| properties := Some ∅; relationValues := None; version := Some 0 |};
     p_fields := ∅; form := f; locale := "en";
     mapPrefix := "map."; readOnly := false |}.

(** The name of the root widget of the committed form, if any. *)
Definition committed_root_name (w : world) : option string :=
  match w_state w !! "formData" with
  | Some (SForm fd) => w_name (ui_widget fd)
  | _ => None
  end.

(** The component after two triggers: mounted with form [f1.ui], then
    re-rendered with form [f2.ui]; two requests are in flight. Without and
    with a preprocessor registered for the edit layer. *)
Definition two_requests : world :=
  run sample_externals
      (mount sample_externals (sample_form_props "f1.ui") ∅).1
      [SetProps (sample_form_props "f2.ui")].

Definition two_requests_preprocessed : world :=
  run sample_externals
      (mount sample_externals (sample_form_props "f1.ui") {["map.layer"]}).1
      [SetProps (sample_form_props "f2.ui")].

(** A vertical spacer in row 1 of a grid. *)
Definition vspacer_item : item norm_props :=
  Item (Some "1") (Some "0") None None
       (ISpacer (Some "filler") (Some {[ "orientation" := PStr "Qt::Vertical" ]})).

Definition leaf (class name : string) : widget raw_props :=
  Widget (Some class) (Some name) None None None [] None [].

(** A form with a field, an external field, a button, a relation widget
    and a vertical spacer in an unnamed grid. *)
Definition sample_document : widget raw_props :=
  Widget (Some "QWidget") (Some "Form") None None None []
    (Some (Layout (Some "QGridLayout") None
       [ Item (Some "0") (Some "0") None None (IWidget (leaf "QLineEdit" "name"));
         Item (Some "1") (Some "0") None None (IWidget (leaf "QLineEdit" "ext__owner"));
         Item (Some "2") (Some "0") None None (IWidget (leaf "QPushButton" "btn__open"));
         Item (Some "3") (Some "0") None None (IWidget (leaf "QWidget" "nrel__parcels__fk"));
         Item (Some "4") (Some "0") None None
           (ISpacer (Some "filler")
              (Some [ {| entry_name := Some "orientation";
                         entry_rest := [("enum", PStr "Qt::Vertical")] |} ])) ]
       None))
    [].

(** An XML parser that knows that document only. *)
Definition document_externals : externals :=
  {| xmlParse := fun data =>
       if String.eqb data "form" then Some sample_document else None;
     resolveAssetsPath := fun path => path;
     batchedUpdates := true;
     earlyCallback := fun _ _ _ => None |}.

Definition document_props : props :=
  {| editLayerId := "map.layer";
     p_feature := {| properties := Some ∅; relationValues := None; version := Some 0 |};
     p_fields := {[ "name" := {| constraints_readOnly := false;
                                 constraints_required := true |} ]};
     form := "form.ui"; locale := "en";
     mapPrefix := "map."; readOnly := false |}.

(** The component mounted with these props, its request in flight. *)
Definition document_world (pre : gset string) : world :=
  (mount document_externals document_props pre).1.



(** The component after a form was committed and the add button of a
    relation (DOM node 7) was pressed. *)
Definition add_pressed : world :=
  let w := (parseForm document_externals "form" (document_world ∅)).1 in
  with_state w (setState {[ "relationAddPressed" := SElement 7 ]} (w_state w)).

(** The same props with a new [relationValues] object. *)
Definition document_props_added : props :=
  {| editLayerId := editLayerId document_props;
     p_feature := {| properties := Some ∅;
                     relationValues := Some 1%nat;
                     version := Some 0 |};
     p_fields := p_fields document_props; form := form document_props;
     locale := locale document_props; mapPrefix := mapPrefix document_props;
     readOnly := readOnly document_props |}.

(** A relation widget as a form has it: a layout with a header and a field
    of the related table. *)
Definition relation_widget (name : string) : widget raw_props :=
  Widget (Some "QWidget") (Some name) None None None []
    (Some (Layout (Some "QGridLayout") None
       [ Item (Some "0") (Some "0") None None (IWidget (leaf "QLabel" "header__area"));
         Item (Some "0") (Some "1") None None
           (IWidget (leaf "QLineEdit" "parcels__area")) ]
       None))
    [].

(** A form without a name, holding in an unnamed grid: a label without a
    name, a field, a key-value combo, an external field, a button, a label
    called [constructor], a tab widget with two pages, two relation widgets
    for the same table, a relation widget with a sort column that is not to
    be reordered, and a vertical spacer. *)
Definition full_document : widget raw_props :=
  Widget (Some "QWidget") None None None None []
    (Some (Layout (Some "QGridLayout") None
       [ Item (Some "0") (Some "0") None None
           (IWidget (Widget (Some "QLabel") None None None None [] None []));
         Item (Some "1") (Some "0") None None (IWidget (leaf "QLineEdit" "name"));
         Item (Some "2") (Some "0") None None
           (IWidget (leaf "QComboBox" "kvrel__type__types__id__label"));
         Item (Some "3") (Some "0") None None (IWidget (leaf "QLineEdit" "ext__owner"));
         Item (Some "4") (Some "0") None None (IWidget (leaf "QPushButton" "btn__open"));
         Item (Some "5") (Some "0") None None (IWidget (leaf "QLabel" "constructor"));
         Item (Some "6") (Some "0") None None
           (IWidget (Widget (Some "QTabWidget") (Some "tabs") None None None [] None
                            [leaf "QWidget" "first"; leaf "QWidget" "second"]));
         Item (Some "7") (Some "0") None None
           (IWidget (relation_widget "nrel__parcels__fk__pos"));
         Item (Some "8") (Some "0") None None
           (IWidget (relation_widget "nrel__parcels__owner_id"));
         Item (Some "9") (Some "0") None None
           (IWidget (relation_widget "nrel__houses__pid__rank__1"));
         Item (Some "10") (Some "0") None None
           (ISpacer (Some "filler")
              (Some [ {| entry_name := Some "orientation";
                         entry_rest := [("enum", PStr "Qt::Vertical")] |} ])) ]
       None))
    [].

Definition full_externals : externals :=
  {| xmlParse := fun data =>
       if String.eqb data "full" then Some full_document else None;
     resolveAssetsPath := fun path => path;
     batchedUpdates := true;
     earlyCallback := fun _ _ _ => None |}.

Definition full_props : props :=
  {| editLayerId := "map.layer";
     p_feature := {| properties := Some ∅; relationValues := None; version := Some 0 |};
     p_fields := {[ "name" := {| constraints_readOnly := false;
                                 constraints_required := true |};
                    "type" := {| constraints_readOnly := false;
                                 constraints_required := false |} ]};
     form := "full.ui"; locale := "en";
     mapPrefix := "map."; readOnly := false |}.

Definition full_world : world := (mount full_externals full_props ∅).1.

(** The component of [two_requests] after a click on the tab [page2] of
    the tab widget [tabs]. *)
Definition tab_selected : world := selectTab "tabs" "page2" two_requests.

End Samples.

Module TooltipSamples.
Import JS MapInfoTooltip.

(** Arithmetic for the samples: exact on finite numbers, [NaN] for what
    the samples do not use. *)
Definition exact_times (a b : jsnum) : jsnum :=
  match a, b with
  | Num x, Num y => Num (x * y)%Q
  | _, _ => NaN
  end.

Definition exact_divide (a b : jsnum) : jsnum :=
  match a, b with
  | Num x, Num y => if Qeq_bool y 0 then NaN else Num (x / y)%Q
  | _, _ => NaN
  end.

(** The nearest integer, halves rounded up. *)
Definition exact_round (x : jsnum) : jsnum :=
  match x with
  | Num q => Num (inject_Z (Qfloor (q + (1 # 2))%Q))
  | _ => x
  end.

(** A power with an integer exponent. *)
Definition exact_pow (a b : jsnum) : jsnum :=
  match a, b with
  | Num x, Num y => if (Z.pos (Qden y) =? 1)%Z then Num (Qpower x (Qnum y)) else NaN
  | _, _ => NaN
  end.

Definition sample_externals : externals :=
  {| tr := fun key => key;
     numToString := fun n =>
       match n with
       | NaN => "NaN"
       | Num q => pretty (Qfloor q)
       | Infinity negative => if negative then "-Infinity" else "Infinity"
       end;
     coordinateRow := fun coo from crs => (crs, "");
     times := exact_times;
     divide := exact_divide;
     Math_round := exact_round;
     Math_pow := exact_pow |}.

Definition sample_config : config :=
  {| elevationServiceUrl := Some "https://example.org/elevation/";
     mapInfoService := Some "https://example.org/mapinfo" |}.

Definition click_at (x y : Z) : click :=
  {| button := 2; pixel := (inject_Z x, inject_Z y);
     coordinate := [inject_Z (1000 * x); inject_Z (1000 * y)] |}.

Definition sample_props (on : bool) (c : option click) : props :=
  {| elevationPrecision := 0; enabled := on; includeWGS84 := true;
     map := {| map_click := c; projection := "EPSG:3857"; displayCrs := "EPSG:2056" |} |}.

(** A popup open at pixel (10, 20), with an elevation of 412 and one row of
    map info. *)
Definition open_popup : state :=
  {[ "point" := TPoint (click_at 10 20);
     "elevation" := TNum (Num (inject_Z 412));
     "extraInfo" := TRows [("Parcel", "1234")] ]}.

End TooltipSamples.

(** * Theorems *)

(** ** Facts about the string primitives *)
Module JSFacts.
Import JS.

Lemma split_dunder_cons c s :
  split_dunder (String c s) =
    let keep :=
      match split_dunder s with
      | t :: ts => String c t :: ts
      | [] => [String c ""]
      end in
    if Ascii.eqb c underscore then
      match s with
      | String c' rest =>
          if Ascii.eqb c' underscore then "" :: split_dunder rest else keep
      | EmptyString => keep
      end
    else keep.
Proof. reflexivity. Qed.

Lemma split_dunder_sep rest :
  split_dunder ("__" +:+ rest) = "" :: split_dunder rest.
Proof. reflexivity. Qed.

(** A token followed by the separator is split off whole. *)
Lemma split_dunder_token a rest :
  token a = true →
  split_dunder (a +:+ "__" +:+ rest) = a :: split_dunder rest.
Proof.
  induction a as [|c a IH]; intros Hok.
  - apply split_dunder_sep.
  - assert (Ha : token a = true ∧
                 (Ascii.eqb c underscore = true →
                  ∃ c' a', a = String c' a' ∧ Ascii.eqb c' underscore = false)).
    { unfold token in *. simpl in Hok.
      apply andb_prop in Hok as [Hnd Hlast].
      apply andb_prop in Hnd as [Hhere Hnd].
      destruct a as [|c' a'].
      - simpl in *. split; [reflexivity|]. intros Hc. rewrite Hc in Hlast. discriminate.
      - split.
        + rewrite Hnd. exact Hlast.
        + intros Hc. rewrite Hc in Hhere. simpl in Hhere.
          exists c', a'. split; [reflexivity|].
          destruct (Ascii.eqb c' underscore); [discriminate|reflexivity]. }
    destruct Ha as [Ha Hc].
    change (String c a +:+ "__" +:+ rest) with (String c (a +:+ "__" +:+ rest)).
    rewrite split_dunder_cons, (IH Ha). cbv zeta.
    destruct (Ascii.eqb c underscore) eqn:Ec; [|reflexivity].
    destruct (Hc eq_refl) as (c' & a' & -> & Ec').
    change (String c' a' +:+ "__" +:+ rest) with (String c' (a' +:+ "__" +:+ rest)).
    cbv beta iota. rewrite Ec'. reflexivity.
Qed.

(** A string without the separator is a single part. *)
Lemma split_dunder_last d :
  no_dunder d = true → split_dunder d = [d].
Proof.
  induction d as [|c d IH]; intros Hok; [reflexivity|].
  simpl in Hok. apply andb_prop in Hok as [Hhere Hnd].
  rewrite split_dunder_cons, (IH Hnd). cbv zeta.
  destruct (Ascii.eqb c underscore) eqn:Ec; [|reflexivity].
  destruct d as [|c' d']; [reflexivity|].
  simpl in Hhere. destruct (Ascii.eqb c' underscore); [discriminate|reflexivity].
Qed.

End JSFacts.

(** ** components/QtDesignerForm.jsx *)
Module QtDesignerFormFacts.
Import JS JSFacts QtDesignerForm QtDesignerFormMore Samples.

(** *** The widget-name grammar *)

Lemma join_cons sep a b l :
  join sep (a :: b :: l) = a +:+ sep +:+ join sep (b :: l).
Proof. reflexivity. Qed.

(** Splitting a name built from tokens gives the tokens back. *)
Lemma split_join toks :
  tokens_ok toks = true → split_dunder (join "__" toks) = toks.
Proof.
  induction toks as [|a toks IH]; [discriminate|].
  destruct toks as [|b toks].
  - simpl. intros H. apply split_dunder_last, H.
  - intros H.
    change (tokens_ok (a :: b :: toks)) with (token a && tokens_ok (b :: toks)) in H.
    apply andb_prop in H as [Ha Hl].
    rewrite join_cons, split_dunder_token by exact Ha.
    f_equal. apply IH, Hl.
Qed.

Lemma truthy_str_ne s : s ≠ "" → truthy_str s = true.
Proof. destruct s; [congruence|reflexivity]. Qed.

Lemma part_or_null_truthy parts i s :
  parts !! i = Some s → s ≠ "" → part_or_null parts i = Some s.
Proof.
  intros H Hs. unfold part_or_null. rewrite H, (truthy_str_ne _ Hs). reflexivity.
Qed.

(** C5, as amended: for a combo box named [kvrel__a__b__c__d] the element
    is bound to field [a] (field id, key, value read from the feature and
    element name all derive from [a]) and its key/value relation is the map
    prefix followed by [b:c:d]; nothing is rendered when the widget's
    [visible] property is ["false"]. *)
Theorem kvrel_field_and_relation pr ext feat nt w a b c d :
  w_name w = Some (kvrel_name a b c d) →
  tokens_ok [a; b; c; d] = true →
  renderWidget_QComboBox pr ext feat nt w =
    if String.eqb (String_of (props_of w !! "visible")) "false" then None
    else Some (KeyValCombo a a (mapPrefix pr +:+ b +:+ ":" +:+ c +:+ ":" +:+ d)
                 (nt a) (bool_decide (w_allowMulti w = Some "true"))
                 (or_empty (default ∅ (properties feat) !! a))).
Proof.
  intros Hname Htok.
  assert (Hsplit : split_dunder (kvrel_name a b c d) = ["kvrel"; a; b; c; d]).
  { apply split_join. exact Htok. }
  unfold renderWidget_QComboBox, name_of. rewrite Hname. simpl default.
  destruct (String.eqb _ "false"); [reflexivity|].
  change (startsWith (kvrel_name a b c d) "ext__") with false.
  cbv iota. rewrite Hsplit. reflexivity.
Qed.

Lemma kvrel_field_and_relation_witness :
  renderWidget_QComboBox (sample_props "map.") ∅ (p_feature (sample_props "map."))
      id (combo_widget "kvrel__a__b__c__d")
  = Some (KeyValCombo "a" "a" "map.b:c:d" "a" false (FStr "")).
Proof.
  exact (kvrel_field_and_relation (sample_props "map.") ∅
           (p_feature (sample_props "map.")) id
           (combo_widget "kvrel__a__b__c__d") "a" "b" "c" "d" eq_refl eq_refl).
Defined.

(** C5 as stated does not hold: with the map prefix ["map."] the relation
    key of [kvrel__a__b__c__d] is ["map.b:c:d"], not ["b:c:d"]. *)
Lemma kvrel_relation_key_is_prefixed :
  renderWidget_QComboBox (sample_props "map.") ∅ (p_feature (sample_props "map."))
      id (combo_widget "kvrel__a__b__c__d") ≫= combo_keyvalrel
  ≠ Some "b:c:d".
Proof. vm_compute. discriminate. Qed.

(** *** computeLayoutColumns *)

Lemma is_array_index_spec i :
  is_array_index i = true ↔ (0 ≤ i < 2 ^ 32 - 1)%Z.
Proof. unfold is_array_index. rewrite andb_true_iff, Z.leb_le, Z.ltb_lt. tauto. Qed.

Lemma lookup_arr_set a i v c :
  arr_set a i v !! c =
    if is_array_index i then
      if decide (c = Z.to_nat i) then Some v
      else if decide (c < length a)%nat then a !! c
      else if decide (c < Z.to_nat i)%nat then Some CUndefined
      else None
    else a !! c.
Proof.
  unfold arr_set. destruct (is_array_index i); [|reflexivity].
  destruct (Nat.ltb_spec (Z.to_nat i) (length a)) as [Hlt|Hge].
  - destruct (decide (c = Z.to_nat i)) as [->|Hne].
    + apply list_lookup_insert_eq. exact Hlt.
    + rewrite list_lookup_insert_ne by congruence.
      destruct (decide (c < length a)%nat) as [|Hc]; [reflexivity|].
      rewrite lookup_ge_None_2 by lia.
      destruct (decide (c < Z.to_nat i)%nat); [lia|reflexivity].
  - destruct (decide (c < length a)%nat) as [Hc|Hc].
    + rewrite lookup_app_l by exact Hc.
      destruct (decide (c = Z.to_nat i)); [lia|reflexivity].
    + rewrite lookup_app_r by lia.
      destruct (decide (c = Z.to_nat i)) as [->|Hne].
      * rewrite lookup_app_r by (rewrite length_replicate; lia).
        rewrite length_replicate, Nat.sub_diag. reflexivity.
      * destruct (decide (c < Z.to_nat i)%nat) as [Hci|Hci].
        -- rewrite lookup_app_l by (rewrite length_replicate; lia).
           apply lookup_replicate_2. lia.
        -- apply lookup_ge_None_2.
           rewrite length_app, length_replicate. simpl. lia.
Qed.

Lemma length_arr_set a i v :
  (Z.of_nat (length a) ≤ 2 ^ 32 - 1)%Z →
  (Z.of_nat (length (arr_set a i v)) ≤ 2 ^ 32 - 1)%Z.
Proof.
  intros Hb. unfold arr_set.
  destruct (is_array_index i) eqn:Hi; [|exact Hb].
  apply is_array_index_spec in Hi.
  destruct (Nat.ltb_spec (Z.to_nat i) (length a)).
  - rewrite length_insert. exact Hb.
  - rewrite !length_app, length_replicate. simpl. lia.
Qed.


Lemma length_arr_set_ge a i v : (length a ≤ length (arr_set a i v))%nat.
Proof.
  unfold arr_set. destruct (is_array_index i); [|lia].
  destruct (Nat.ltb_spec (Z.to_nat i) (length a)).
  - rewrite length_insert. lia.
  - rewrite length_app. lia.
Qed.

Lemma length_arr_set_index a i v :
  is_array_index i = true → (Z.to_nat i < length (arr_set a i v))%nat.
Proof.
  intros Hi. unfold arr_set. rewrite Hi.
  destruct (Nat.ltb_spec (Z.to_nat i) (length a)).
  - rewrite length_insert. lia.
  - rewrite !length_app, length_replicate. simpl. lia.
Qed.

Lemma columns_inv_nil : columns_inv [] [].
Proof.
  split; [simpl; lia|]. split; [intros z Hz; inversion Hz|].
  intros c x Hx. rewrite lookup_nil in Hx. discriminate.
Qed.

Lemma columns_inv_untouched (S S' : list Z) cols col v c x :
  columns_inv S cols →
  (∀ z, z ≠ col → (z ∈ S' ↔ z ∈ S)) →
  c ≠ Z.to_nat col ∨ is_array_index col = false →
  arr_set cols col v !! c = Some x →
  (Z.of_nat c ∈ S' → x = CStr "auto") ∧
  (Z.of_nat c ∉ S' → x = CUndefined ∨ x = CNull).
Proof.
  intros (Hb & Hr & Hc) HS Hne. rewrite lookup_arr_set.
  destruct (is_array_index col) eqn:Hi.
  - destruct Hne as [Hne|]; [|discriminate].
    apply is_array_index_spec in Hi.
    assert (Hz : Z.of_nat c ≠ col) by lia.
    destruct (decide (c = Z.to_nat col)); [contradiction|].
    destruct (decide (c < length cols)%nat).
    + intros Hx. destruct (Hc c x Hx) as [H1 H2].
      split; intros H; [apply H1|apply H2]; rewrite <- (HS _ Hz); exact H.
    + destruct (decide (c < Z.to_nat col)%nat); [|discriminate].
      intros [= <-]. split; [|auto].
      intros Hin. apply (HS _ Hz) in Hin.
      assert (is_array_index (Z.of_nat c) = true) by (apply is_array_index_spec; lia).
      specialize (Hr _ Hin H). lia.
  - intros Hx.
    assert (c < length cols)%nat by (eapply lookup_lt_Some; eauto).
    assert (Hz : Z.of_nat c ≠ col).
    { intros <-. assert (is_array_index (Z.of_nat c) = true)
        by (apply is_array_index_spec; lia). congruence. }
    destruct (Hc c x Hx) as [H1 H2].
    split; intros H'; [apply H1|apply H2]; rewrite <- (HS _ Hz); exact H'.
Qed.

Lemma columns_inv_auto S cols col :
  columns_inv S cols →
  columns_inv (S ++ [col]) (arr_set cols col (CStr "auto")).
Proof.
  intros Hinv. pose proof Hinv as (Hb & Hr & Hc).
  split; [apply length_arr_set, Hb|]. split.
  - intros z Hz Hi. apply elem_of_app in Hz as [Hz|Hz].
    + pose proof (Hr z Hz Hi). pose proof (length_arr_set_ge cols col (CStr "auto")). lia.
    + apply list_elem_of_singleton in Hz as ->. apply length_arr_set_index, Hi.
  - intros c x Hx.
    destruct (is_array_index col) eqn:Hi;
      [destruct (decide (c = Z.to_nat col)) as [->|Hne]|].
    + rewrite lookup_arr_set, Hi, decide_True in Hx by reflexivity.
      injection Hx as <-. split; [reflexivity|].
      intros Hn. exfalso. apply Hn. apply is_array_index_spec in Hi.
      rewrite Z2Nat.id by lia. apply elem_of_app. right.
      apply list_elem_of_singleton. reflexivity.
    + eapply columns_inv_untouched; eauto. intros z Hz.
      rewrite elem_of_app, list_elem_of_singleton. tauto.
    + eapply columns_inv_untouched; eauto. intros z Hz.
      rewrite elem_of_app, list_elem_of_singleton. tauto.
Qed.

Lemma columns_inv_keep S cols col :
  columns_inv S cols →
  columns_inv S (arr_set cols col (or_null (arr_get cols col))).
Proof.
  intros Hinv. pose proof Hinv as (Hb & Hr & Hc).
  split; [apply length_arr_set, Hb|]. split.
  - intros z Hz Hi. pose proof (Hr z Hz Hi).
    pose proof (length_arr_set_ge cols col (or_null (arr_get cols col))). lia.
  - intros c x Hx.
    destruct (is_array_index col) eqn:Hi;
      [destruct (decide (c = Z.to_nat col)) as [->|Hne]|].
    + rewrite lookup_arr_set, Hi, decide_True in Hx by reflexivity.
      injection Hx as <-. unfold arr_get. rewrite Hi.
      pose proof Hi as Hi'. apply is_array_index_spec in Hi'.
      destruct (cols !! Z.to_nat col) as [y|] eqn:Hy; cbn [default].
      * destruct (Hc _ _ Hy) as [H1 H2]. split.
        -- intros Hin. rewrite (H1 Hin). reflexivity.
        -- intros Hn. right. destruct (H2 Hn) as [Hy'|Hy']; rewrite Hy'; reflexivity.
      * split; [|auto]. intros Hin. rewrite Z2Nat.id in Hin by lia.
        pose proof (Hr _ Hin Hi). apply lookup_ge_None_1 in Hy. lia.
    + eapply columns_inv_untouched; eauto; tauto.
    + eapply columns_inv_untouched; eauto; tauto.
Qed.

Lemma columns_step_has_spacer useIndex cols hasAuto index it :
  columns_step useIndex true (cols, hasAuto) index it =
    let col := item_column useIndex index it in
    if is_hspacer it then (arr_set cols col (CStr "auto"), true)
    else (arr_set cols col (or_null (arr_get cols col)), hasAuto).
Proof. unfold columns_step. destruct (is_hspacer it); reflexivity. Qed.

Lemma columns_fold useIndex items : ∀ index cols hasAuto S,
  columns_inv S cols →
  let r := forEach_index (columns_step useIndex true) index items (cols, hasAuto) in
  columns_inv (S ++ hspacer_columns useIndex index items) r.1
  ∧ r.2 = hasAuto || existsb is_hspacer items.
Proof.
  induction items as [|it items IH]; intros index cols hasAuto S Hinv.
  - cbn. rewrite app_nil_r, orb_false_r. auto.
  - cbn [forEach_index hspacer_columns existsb].
    rewrite columns_step_has_spacer. cbv zeta.
    destruct (is_hspacer it) eqn:Hsp.
    + specialize (IH (Datatypes.S index) _ true _
                     (columns_inv_auto _ _ (item_column useIndex index it) Hinv)).
      cbv zeta in IH. rewrite <- app_assoc in IH. destruct IH as [IH1 IH2].
      split; [exact IH1|]. rewrite IH2, orb_true_r. reflexivity.
    + specialize (IH (Datatypes.S index) _ hasAuto _
                     (columns_inv_keep _ _ (item_column useIndex index it) Hinv)).
      cbv zeta in IH. destruct IH as [IH1 IH2].
      split; [exact IH1|]. rewrite IH2. reflexivity.
Qed.

(** The entries of the result when some item holds a horizontal spacer. *)
Lemma columns_spacer_entry items useIndex c v :
  existsb is_hspacer items = true →
  computeLayoutColumns items useIndex !! c = Some v →
  v = if bool_decide (Z.of_nat c ∈ hspacer_columns useIndex 0 items) then "auto"
      else "fit-content("
           +:+ round_percent (length (computeLayoutColumns items useIndex)) +:+ "%)".
Proof.
  intros Hsp. unfold computeLayoutColumns. rewrite Hsp.
  pose proof (columns_fold useIndex items 0 [] false [] columns_inv_nil) as H.
  cbv zeta in H. destruct (forEach_index _ 0 items ([], false)) as [cols hasAuto].
  cbn [fst snd] in H. destruct H as [(_ & _ & Hc) ->]. rewrite Hsp. cbn [orb].
  rewrite length_map, list_lookup_fmap.
  destruct (cols !! c) as [x|] eqn:Hx; [|discriminate].
  intros [= <-]. destruct (Hc c x Hx) as [H1 H2]. cbn [app] in *.
  case_bool_decide as Hin.
  - rewrite (H1 Hin). reflexivity.
  - destruct (H2 Hin) as [-> | ->]; reflexivity.
Qed.

Lemma length_arr_set_eq a i v :
  length (arr_set a i v) =
    if is_array_index i then max (length a) (Datatypes.S (Z.to_nat i)) else length a.
Proof.
  unfold arr_set. destruct (is_array_index i); [|reflexivity].
  destruct (Nat.ltb_spec (Z.to_nat i) (length a)).
  - rewrite length_insert. lia.
  - rewrite !length_app, length_replicate. simpl. lia.
Qed.

Lemma extent_cons n i l :
  extent n (i :: l)
  = extent (if is_array_index i then max n (Datatypes.S (Z.to_nat i)) else n) l.
Proof. reflexivity. Qed.

Lemma extent_le n l : (n ≤ extent n l)%nat.
Proof.
  revert n. induction l as [|i l IH]; intros n; [cbn; lia|].
  rewrite extent_cons. destruct (is_array_index i); etransitivity; [|apply IH| |apply IH]; lia.
Qed.

Lemma extent_index n l i :
  i ∈ l → is_array_index i = true → (Z.to_nat i < extent n l)%nat.
Proof.
  revert n. induction l as [|j l IH]; intros n Hin Hi; [inversion Hin|].
  rewrite extent_cons. apply elem_of_cons in Hin as [->|Hin].
  - rewrite Hi. pose proof (extent_le (max n (Datatypes.S (Z.to_nat j))) l). lia.
  - apply IH; assumption.
Qed.

(** A list that has [n] elements, the one at [c] being [f c]. *)
Lemma list_eq_map_seq {A} (l : list A) (f : nat → A) n :
  length l = n → (∀ c v, l !! c = Some v → v = f c) → l = map f (seq 0 n).
Proof.
  intros Hlen Hf. apply list_eq. intros c.
  rewrite list_lookup_fmap.
  destruct (decide (c < n)%nat) as [Hc|Hc].
  - rewrite lookup_seq_lt by exact Hc. cbn.
    destruct (l !! c) as [v|] eqn:Hv.
    + rewrite (Hf c v Hv). reflexivity.
    + apply lookup_ge_None in Hv. lia.
  - rewrite lookup_seq_ge by lia. cbn. apply lookup_ge_None. lia.
Qed.

Lemma forEach_index_length {A} (step : list cell → nat → A → list cell)
    (idx : nat → A → Z) (items : list A) :
  (∀ cells i x, length (step cells i x)
                = if is_array_index (idx i x) then
                    max (length cells) (Datatypes.S (Z.to_nat (idx i x)))
                  else length cells) →
  ∀ index cells,
    length (forEach_index step index items cells)
    = extent (length cells) (imap (fun i => idx (index + i)%nat) items).
Proof.
  intros Hstep. induction items as [|x items IH]; intros index cells; [reflexivity|].
  cbn [forEach_index imap]. rewrite extent_cons, IH, Hstep, Nat.add_0_r.
  f_equal. apply imap_ext. intros i y _. cbn. f_equal. lia.
Qed.

Lemma columns_step_fst useIndex hasSpacer cols hasAuto index it :
  ∃ v, (columns_step useIndex hasSpacer (cols, hasAuto) index it).1
       = arr_set cols (item_column useIndex index it) v.
Proof.
  unfold columns_step. destruct (is_hspacer it); [eexists; reflexivity|].
  destruct (_ && _ && _); eexists; reflexivity.
Qed.

Lemma columns_length useIndex hasSpacer items : ∀ index cols hasAuto,
  length (forEach_index (columns_step useIndex hasSpacer) index items (cols, hasAuto)).1
  = extent (length cols) (imap (fun i => item_column useIndex (index + i)%nat) items).
Proof.
  induction items as [|x items IH]; intros index cols hasAuto; [reflexivity|].
  cbn [forEach_index imap]. rewrite extent_cons, Nat.add_0_r.
  destruct (columns_step_fst useIndex hasSpacer cols hasAuto index x) as [v Hv].
  destruct (columns_step useIndex hasSpacer (cols, hasAuto) index x) as [cols' hasAuto'].
  cbn [fst] in Hv. subst cols'. rewrite IH, length_arr_set_eq.
  f_equal. apply imap_ext. intros i y _. cbn. f_equal. lia.
Qed.

Lemma computeLayoutColumns_length items useIndex :
  length (computeLayoutColumns items useIndex) = extent 0 (item_columns useIndex items).
Proof.
  unfold computeLayoutColumns, item_columns.
  pose proof (columns_length useIndex (existsb is_hspacer items) items 0 [] false) as H.
  destruct (forEach_index _ 0 items ([], false)) as [cols hasAuto].
  cbn [fst] in H. rewrite length_map, H. reflexivity.
Qed.

Lemma hspacer_columns_item_columns useIndex items : ∀ index z,
  z ∈ hspacer_columns useIndex index items →
  z ∈ imap (fun i => item_column useIndex (index + i)%nat) items.
Proof.
  induction items as [|x items IH]; intros index z Hz; [inversion Hz|].
  cbn [hspacer_columns imap] in *. rewrite Nat.add_0_r.
  apply elem_of_app in Hz as [Hz|Hz].
  - destruct (is_hspacer x); [|inversion Hz].
    apply list_elem_of_singleton in Hz as ->. left.
  - right. specialize (IH _ _ Hz).
    erewrite imap_ext; [exact IH|]. intros i y _. cbn. f_equal. lia.
Qed.

(** C2, as amended: when some item holds a horizontal spacer, the result has
    one entry for every column up to the last one an item sits in; the
    entry is ['auto'] exactly for the columns in which an item holding a
    horizontal spacer sits, and the [fit-content] share of
    [100% / columnCount] for every other column; and the column of every
    such spacer is among them. *)
Theorem columns_with_horizontal_spacer items useIndex :
  existsb is_hspacer items = true →
  let n := extent 0 (item_columns useIndex items) in
  computeLayoutColumns items useIndex
  = map (fun c =>
           if bool_decide (Z.of_nat c ∈ hspacer_columns useIndex 0 items) then "auto"
           else "fit-content(" +:+ round_percent n +:+ "%)")
        (seq 0 n)
  ∧ ∀ z, z ∈ hspacer_columns useIndex 0 items → is_array_index z = true →
      computeLayoutColumns items useIndex !! Z.to_nat z = Some "auto".
Proof.
  intros Hsp n.
  assert (Heq : computeLayoutColumns items useIndex
    = map (fun c =>
             if bool_decide (Z.of_nat c ∈ hspacer_columns useIndex 0 items) then "auto"
             else "fit-content(" +:+ round_percent n +:+ "%)")
          (seq 0 n)).
  { apply list_eq_map_seq; [apply computeLayoutColumns_length|].
    intros c v Hv. subst n. rewrite <- computeLayoutColumns_length.
    exact (columns_spacer_entry items useIndex c v Hsp Hv). }
  split; [exact Heq|].
  intros z Hz Hi. rewrite Heq, list_lookup_fmap.
  assert (Hlt : (Z.to_nat z < n)%nat).
  { apply extent_index; [|exact Hi].
    apply (hspacer_columns_item_columns useIndex items 0 z Hz). }
  rewrite lookup_seq_lt by exact Hlt. cbn.
  apply is_array_index_spec in Hi.
  rewrite Z2Nat.id by lia. rewrite bool_decide_eq_true_2 by exact Hz. reflexivity.
Qed.

Lemma columns_with_horizontal_spacer_witness :
  let items := [label_item; hspacer_item] in
  let n := extent 0 (item_columns false items) in
  n = 2%nat
  ∧ computeLayoutColumns items false
    = map (fun c =>
             if bool_decide (Z.of_nat c ∈ hspacer_columns false 0 items) then "auto"
             else "fit-content(" +:+ round_percent n +:+ "%)")
          (seq 0 n)
  ∧ ∀ z, z ∈ hspacer_columns false 0 items → is_array_index z = true →
      computeLayoutColumns items false !! Z.to_nat z = Some "auto".
Proof.
  split; [reflexivity|].
  apply (columns_with_horizontal_spacer [label_item; hspacer_item] false).
  reflexivity.
Defined.

(** C2 as stated does not hold: in a grid with a label in column 0 and a
    horizontal spacer in column 1, column 0 is not ['auto']. *)
Lemma columns_not_all_auto :
  existsb is_hspacer [label_item; hspacer_item] = true
  ∧ computeLayoutColumns [label_item; hspacer_item] false
    = ["fit-content(50%)"; "auto"]
  ∧ ¬ Forall (eq "auto") (computeLayoutColumns [label_item; hspacer_item] false).
Proof.
  split; [reflexivity|]. split; [vm_compute; reflexivity|].
  intros H. apply Forall_inv in H. vm_compute in H. discriminate.
Qed.

(** *** reformatWidget: the name and the relation-table descriptor *)

(** The shape of a [reformatWidget] result: the node gets the name drawn
    after its items have been processed, and the last write to the
    registries is the relation-table descriptor of that name. *)
Lemma reformatWidget_result pr here forced w st :
  ∃ name st1 st2 w' vf,
    name_or (match forced with Some f => Some f | None => w_name w end)
            fresh_widget_name
            (forEachS (fun i it s =>
                         reformatWidget pr (here ++ [AtItem i])%list None it s)
                      0 (w_item w) st).2 = (name, st1) ∧
    reformatWidget pr here forced w st = (w', vf, register_relation pr name st2) ∧
    w_name w' = Some name ∧
    is_Some (w_property w') ∧ is_Some (w_attribute w').
Proof.
  destruct w as [class name property attribute allowMulti item layout children].
  cbn [reformatWidget w_item w_name].
  destruct (forEachS _ 0 item st) as [[item' vf1] st1].
  cbn [snd].
  destruct (name_or _ fresh_widget_name st1) as [name' st2].
  match goal with |- context [set_widgets ?f ?x] => set (st3 := set_widgets f x) end.
  destruct (match layout with Some l => _ | None => _ end) as [[layout' vf2] st4].
  destruct (forEachS _ 0 children st4) as [[children' vf3] st5].
  eexists name', st2, st5, _, _.
  split; [reflexivity|]. split; [reflexivity|].
  cbn. eauto.
Qed.

Lemma register_relation_nrel pr t fk optional st :
  tokens_ok (t :: fk :: optional) = true →
  relationTables (register_relation pr (nrel_name t fk optional) st)
    !! (mapPrefix pr +:+ t)
  = Some {| fk := fk;
            sortcol := part_or_null optional 0;
            noreorder := part_or_null optional 1 |}.
Proof.
  intros Htok. unfold register_relation, nrel_name.
  rewrite split_join by exact Htok.
  cbn -[String.append]. apply lookup_insert_eq.
Qed.

(** *** The normalisation invariant *)

Lemma list_all_Forall {A} (P : A → Prop) l : list_all A P l → Forall P l.
Proof. induction 1; constructor; assumption. Qed.

Lemma forEachS_nodes {A B S W} (f : nat → A → S → B * bool * S)
    (nodes : B → list W) (Q : W → Prop) (l : list A) :
  Forall (fun x => ∀ i st, Forall Q (nodes (f i x st).1.1)) l →
  ∀ i st, Forall Q (flat_map nodes (forEachS f i l st).1.1).
Proof.
  induction 1 as [|x l Hx _ IH]; intros i st; [constructor|].
  cbn [forEachS]. specialize (Hx i st).
  destruct (f i x st) as [[y b] st1]. specialize (IH (Datatypes.S i) st1).
  destruct (forEachS f (Datatypes.S i) l st1) as [[ys b'] st2].
  cbn [fst flat_map] in *. apply Forall_app. split; assumption.
Qed.

Lemma name_or_fresh_widget_nonempty n st name st' :
  name_or n fresh_widget_name st = (name, st') → name ≠ "".
Proof.
  unfold name_or, fresh_widget_name.
  destruct n as [s|]; [destruct (truthy_str s) eqn:Hs|].
  - intros [= <- _]. destruct s; [discriminate|congruence].
  - intros [= <- _]. discriminate.
  - intros [= <- _]. discriminate.
Qed.

Lemma layout_nodes_eq {P} c n (item : list (item P)) v :
  layout_nodes (Layout c n item v) = flat_map item_nodes item.
Proof. reflexivity. Qed.

Lemma reformat_nodes_normalised :
  (∀ w pr here forced st,
     Forall widget_normalised (widget_nodes (reformatWidget pr here forced w st).1.1))
  ∧ (∀ l pr here st,
     Forall widget_normalised (layout_nodes (reformatLayout pr here l st).1.1)).
Proof.
  pose (P0 := fun w : widget raw_props => ∀ pr here forced st,
     Forall widget_normalised (widget_nodes (reformatWidget pr here forced w st).1.1)).
  pose (P1 := fun l : layout raw_props => ∀ pr here st,
     Forall widget_normalised (layout_nodes (reformatLayout pr here l st).1.1)).
  pose (P3 := fun c : item_content raw_props =>
     match c with IWidget w => P0 w | ILayout l => P1 l | _ => True end).
  pose (P2 := fun it : item raw_props => P3 (i_content it)).
  assert (HW : (∀ w, P0 w) ∧ (∀ l, P1 l) ∧ (∀ i, P2 i) ∧ (∀ c, P3 c)).
  { apply (tree_mutind raw_props P0 P1 P2 P3); subst P0 P1 P2 P3; cbv beta.
    - (* widget *)
      intros class name property attribute allowMulti item Hitem layout Hlayout
             children Hchildren pr here forced st.
      apply list_all_Forall in Hitem, Hchildren.
      cbn [reformatWidget].
      pose proof (forEachS_nodes
        (fun i it s => reformatWidget pr (here ++ [AtItem i])%list None it s)
        widget_nodes widget_normalised item) as Hi.
      specialize (Hi ltac:(eapply Forall_impl; [exact Hitem|]; cbv beta; intros; auto) 0%nat st).
      destruct (forEachS _ 0 item st) as [[item' vf1] st1]. cbn [fst] in Hi.
      destruct (name_or _ fresh_widget_name st1) as [name' st2] eqn:Hname.
      apply name_or_fresh_widget_nonempty in Hname.
      match goal with |- context [set_widgets ?f ?x] => set (st3 := set_widgets f x) end.
      assert (Hl : Forall widget_normalised
                (match (match layout with
                        | Some l =>
                            let '(l', vf, st') := reformatLayout pr (here ++ [AtLayout])%list l st3 in
                            (Some l', vf, st')
                        | None => (None, false, st3)
                        end).1.1 with Some l' => layout_nodes l' | None => [] end)).
      { destruct layout as [l|]; [|constructor].
        inversion Hlayout as [l0 Hl0|]; subst.
        specialize (Hl0 pr (here ++ [AtLayout])%list st3).
        destruct (reformatLayout pr (here ++ [AtLayout])%list l st3) as [[l' vf] st'].
        exact Hl0. }
      destruct (match layout with Some l => _ | None => _ end) as [[layout' vf2] st4].
      cbn [fst] in Hl.
      pose proof (forEachS_nodes
        (fun i child s =>
           let '(n, s') := fresh_widget_name s in
           reformatWidget pr (here ++ [AtChild i])%list (Some n) child s')
        widget_nodes widget_normalised children) as Hc.
      specialize (Hc ltac:(eapply Forall_impl; [exact Hchildren|]; cbv beta;
                           intros x Hx i s; destruct (fresh_widget_name s); apply Hx)
                     0%nat st4).
      destruct (forEachS _ 0 children st4) as [[children' vf3] st5]. cbn [fst] in Hc.
      cbn [fst widget_nodes].
      constructor.
      + unfold widget_normalised. cbn. eauto 6.
      + rewrite !Forall_app. auto.
    - (* layout *)
      intros class name item Hitem vf pr here st.
      apply list_all_Forall in Hitem.
      cbn [reformatLayout].
      destruct (name_or name fresh_layout_name st) as [name' st1].
      match goal with |- context [forEachS ?f 0 item st1] =>
        pose proof (forEachS_nodes f item_nodes widget_normalised item) as Hi end.
      specialize (Hi ltac:(eapply Forall_impl; [exact Hitem|]; cbv beta;
        intros [r c rs cs [w| |l|]] Hx i s; cbn in Hx;
        [ specialize (Hx pr (here ++ [AtLayoutItem i])%list None s);
          destruct (reformatWidget pr (here ++ [AtLayoutItem i])%list None w s) as [[w' b] s'];
          exact Hx
        | constructor
        | specialize (Hx pr (here ++ [AtLayoutItem i])%list s);
          destruct (reformatLayout pr (here ++ [AtLayoutItem i])%list l s) as [[l' b] s'];
          exact Hx
        | constructor ]) 0%nat st1).
      destruct (forEachS _ 0 item st1) as [[item' vf'] st2].
      cbn [fst] in *. rewrite layout_nodes_eq. exact Hi.
    - intros r c rs cs content H. exact H.
    - intros w H. exact H.
    - intros; exact I.
    - intros l H. exact H.
    - exact I. }
  destruct HW as (H0 & H1 & _). split; assumption.
Qed.

(** *** The tree that is left, by positions *)

Lemma write_all_app {V} (m : gmap string V) l1 l2 :
  write_all m (l1 ++ l2) = write_all (write_all m l1) l2.
Proof. apply foldl_app. Qed.

Lemma written_write_all {V} (entries : list (string * V)) :
  written entries = write_all ∅ entries.
Proof.
  unfold written, write_all.
  induction entries as [|e l IH] using rev_ind; [reflexivity|].
  rewrite reverse_app, foldl_app. cbn. rewrite IH. destruct e; reflexivity.
Qed.

Lemma replayed_refl pr st : replayed pr st st [] [].
Proof. repeat split. Qed.

Lemma replayed_trans pr a b c e1 c1 e2 c2 :
  replayed pr a b e1 c1 → replayed pr b c e2 c2 →
  replayed pr a c (e1 ++ e2) (c1 ++ c2).
Proof.
  intros (H1 & H2 & H3 & H4 & H5 & H6) (K1 & K2 & K3 & K4 & K5 & K6).
  unfold replayed. rewrite !omap_app, !write_all_app.
  rewrite <- H1, <- H2, <- H3, <- H4, <- H5, <- H6. repeat split; assumption.
Qed.

Lemma replayed_fresh_widget pr st : replayed pr st (fresh_widget_name st).2 [] [].
Proof. repeat split. Qed.

Lemma replayed_fresh_layout pr st : replayed pr st (fresh_layout_name st).2 [] [].
Proof. repeat split. Qed.

Lemma replayed_name_or_widget pr n st :
  replayed pr st (name_or n fresh_widget_name st).2 [] [].
Proof.
  unfold name_or. destruct n as [s|]; [destruct (truthy_str s)|];
    first [apply replayed_refl | apply replayed_fresh_widget].
Qed.

Lemma replayed_name_or_layout pr n st :
  replayed pr st (name_or n fresh_layout_name st).2 [] [].
Proof.
  unfold name_or. destruct n as [s|]; [destruct (truthy_str s)|];
    first [apply replayed_refl | apply replayed_fresh_layout].
Qed.

Lemma replayed_classify pr here name st :
  replayed pr st (classify pr here name st) [(name, here)] [].
Proof.
  unfold replayed, classify, field_entry, button_entry, nrel_entry, external_entry.
  cbn [omap list_omap fst snd write_all foldl].
  destruct (js_in name (p_fields pr));
    destruct (startsWith name "kvrel__" || startsWith name "img__");
    destruct (js_in (part_key (split_dunder name) 1) (p_fields pr));
    destruct (startsWith name "btn__");
    destruct (startsWith name "nrel__");
    destruct (startsWith name "ext__");
    cbn; repeat split.
Qed.

Lemma replayed_register pr name st :
  replayed pr st (register_relation pr name st) [] [name].
Proof.
  unfold replayed, register_relation, relation_entry.
  cbn [omap list_omap write_all foldl].
  destruct ((3 <=? length (split_dunder name))%nat
            && bool_decide (split_dunder name !! 0%nat = Some "nrel"));
    cbn; repeat split.
Qed.

Lemma forEachS_replayed {A B} pr (f : nat → A → registries → B * bool * registries)
    (ent : nat → B → list (string * path)) (comp : B → list string) (l : list A) :
  Forall (fun x => ∀ i st,
            replayed pr st (f i x st).2 (ent i (f i x st).1.1) (comp (f i x st).1.1)) l →
  ∀ i st,
    replayed pr st (forEachS f i l st).2
             (flat_mapi ent i (forEachS f i l st).1.1)
             (flat_map comp (forEachS f i l st).1.1).
Proof.
  induction 1 as [|x l Hx _ IH]; intros i st; [apply replayed_refl|].
  cbn [forEachS]. specialize (Hx i st).
  destruct (f i x st) as [[y b] st1]. specialize (IH (Datatypes.S i) st1).
  destruct (forEachS f (Datatypes.S i) l st1) as [[ys b'] st2].
  cbn [fst snd flat_mapi flat_map] in *.
  exact (replayed_trans _ _ _ _ _ _ _ _ Hx IH).
Qed.

(** [reformatWidget] and [reformatLayout] change the registries by entering
    the widgets of the tree they leave, in the order of [entered], and by
    writing their relation tables, in the order of [completed]. *)
Lemma reformat_replayed :
  (∀ w pr here forced st,
     replayed pr st (reformatWidget pr here forced w st).2
              (entered here (reformatWidget pr here forced w st).1.1)
              (completed (reformatWidget pr here forced w st).1.1))
  ∧ (∀ l pr here st,
     replayed pr st (reformatLayout pr here l st).2
              (layout_entered here (reformatLayout pr here l st).1.1)
              (layout_completed (reformatLayout pr here l st).1.1)).
Proof.
  pose (P0 := fun w : widget raw_props => ∀ pr here forced st,
     replayed pr st (reformatWidget pr here forced w st).2
              (entered here (reformatWidget pr here forced w st).1.1)
              (completed (reformatWidget pr here forced w st).1.1)).
  pose (P1 := fun l : layout raw_props => ∀ pr here st,
     replayed pr st (reformatLayout pr here l st).2
              (layout_entered here (reformatLayout pr here l st).1.1)
              (layout_completed (reformatLayout pr here l st).1.1)).
  pose (P3 := fun c : item_content raw_props =>
     match c with IWidget w => P0 w | ILayout l => P1 l | _ => True end).
  pose (P2 := fun it : item raw_props => P3 (i_content it)).
  assert (HW : (∀ w, P0 w) ∧ (∀ l, P1 l) ∧ (∀ i, P2 i) ∧ (∀ c, P3 c)).
  { apply (tree_mutind raw_props P0 P1 P2 P3); subst P0 P1 P2 P3; cbv beta.
    - (* widget *)
      intros class name property attribute allowMulti item Hitem layout Hlayout
             children Hchildren pr here forced st.
      apply list_all_Forall in Hitem, Hchildren.
      cbn [reformatWidget].
      pose proof (forEachS_replayed pr
        (fun i it s => reformatWidget pr (here ++ [AtItem i])%list None it s)
        (fun i it' => entered (here ++ [AtItem i])%list it') completed item) as Hi.
      specialize (Hi ltac:(eapply Forall_impl; [exact Hitem|]; cbv beta; intros; auto) 0%nat st).
      destruct (forEachS _ 0 item st) as [[item' vf1] st1]. cbn [fst snd] in Hi.
      pose proof (replayed_name_or_widget pr
                    (match forced with Some f => Some f | None => name end) st1) as Hn.
      destruct (name_or _ fresh_widget_name st1) as [name' st2]. cbn [snd] in Hn.
      match goal with |- context [set_widgets ?f ?x] =>
        change (set_widgets f x) with (classify pr here name' st2) end.
      pose proof (replayed_classify pr here name' st2) as Hc.
      set (st3 := classify pr here name' st2) in *.
      assert (Hl : replayed pr st3
                (match layout with
                 | Some l =>
                     let '(l', vf, st') := reformatLayout pr (here ++ [AtLayout])%list l st3 in
                     (Some l', vf, st')
                 | None => (None, false, st3)
                 end).2
                (match (match layout with
                        | Some l =>
                            let '(l', vf, st') := reformatLayout pr (here ++ [AtLayout])%list l st3 in
                            (Some l', vf, st')
                        | None => (None, false, st3)
                        end).1.1 with
                 | Some l' => layout_entered (here ++ [AtLayout])%list l'
                 | None => []
                 end)
                (match (match layout with
                        | Some l =>
                            let '(l', vf, st') := reformatLayout pr (here ++ [AtLayout])%list l st3 in
                            (Some l', vf, st')
                        | None => (None, false, st3)
                        end).1.1 with
                 | Some l' => layout_completed l'
                 | None => []
                 end)).
      { destruct layout as [l|]; [|apply replayed_refl].
        inversion Hlayout as [l0 Hl0|]; subst.
        specialize (Hl0 pr (here ++ [AtLayout])%list st3).
        destruct (reformatLayout pr (here ++ [AtLayout])%list l st3) as [[l' vf] st'].
        exact Hl0. }
      destruct (match layout with Some l => _ | None => _ end) as [[layout' vf2] st4].
      cbn [fst snd] in Hl.
      pose proof (forEachS_replayed pr
        (fun i child s =>
           let '(n, s') := fresh_widget_name s in
           reformatWidget pr (here ++ [AtChild i])%list (Some n) child s')
        (fun i c' => entered (here ++ [AtChild i])%list c') completed children) as Hch.
      specialize (Hch ltac:(eapply Forall_impl; [exact Hchildren|]; cbv beta;
                            intros x Hx i s;
                            pose proof (replayed_fresh_widget pr s) as Hf;
                            destruct (fresh_widget_name s) as [n s'];
                            exact (replayed_trans _ _ _ _ [] [] _ _ Hf
                                     (Hx pr (here ++ [AtChild i])%list (Some n) s')))
                      0%nat st4).
      destruct (forEachS _ 0 children st4) as [[children' vf3] st5].
      cbn [fst snd] in Hch.
      pose proof (replayed_register pr name' st5) as Hr.
      cbn [fst snd entered completed default].
      pose proof (replayed_trans _ _ _ _ _ _ _ _ Hi
                   (replayed_trans _ _ _ _ _ _ _ _ Hn
                      (replayed_trans _ _ _ _ _ _ _ _ Hc
                         (replayed_trans _ _ _ _ _ _ _ _ Hl
                            (replayed_trans _ _ _ _ _ _ _ _ Hch Hr))))) as H.
      cbn [app] in H. rewrite app_nil_r in H.
      change (default "" (Some name')) with name'.
      exact H.
    - (* layout *)
      intros class name item Hitem vf pr here st.
      apply list_all_Forall in Hitem.
      cbn [reformatLayout].
      pose proof (replayed_name_or_layout pr name st) as Hn.
      destruct (name_or name fresh_layout_name st) as [name' st1]. cbn [snd] in Hn.
      match goal with |- context [forEachS ?f 0 item st1] =>
        pose proof (forEachS_replayed pr f
          (fun i it =>
             match it with
             | Item _ _ _ _ (IWidget w) => entered (here ++ [AtLayoutItem i])%list w
             | Item _ _ _ _ (ILayout l') => layout_entered (here ++ [AtLayoutItem i])%list l'
             | Item _ _ _ _ _ => []
             end)
          (fun it =>
             match it with
             | Item _ _ _ _ (IWidget w) => completed w
             | Item _ _ _ _ (ILayout l') => layout_completed l'
             | Item _ _ _ _ _ => []
             end) item) as Hi end.
      specialize (Hi ltac:(eapply Forall_impl; [exact Hitem|]; cbv beta;
        intros [r c rs cs [w| |l|]] Hx i s; cbn in Hx;
        [ specialize (Hx pr (here ++ [AtLayoutItem i])%list None s);
          destruct (reformatWidget pr (here ++ [AtLayoutItem i])%list None w s) as [[w' b] s'];
          exact Hx
        | apply replayed_refl
        | specialize (Hx pr (here ++ [AtLayoutItem i])%list s);
          destruct (reformatLayout pr (here ++ [AtLayoutItem i])%list l s) as [[l' b] s'];
          exact Hx
        | apply replayed_refl ]) 0%nat st1).
      destruct (forEachS _ 0 item st1) as [[item' vf'] st2].
      cbn [fst snd] in *. cbn [layout_entered layout_completed].
      exact (replayed_trans _ _ _ _ [] [] _ _ Hn Hi).
    - intros r c rs cs content H. exact H.
    - intros w H. exact H.
    - intros; exact I.
    - intros l H. exact H.
    - exact I. }
  destruct HW as (H0 & H1 & _). split; assumption.
Qed.

Lemma forEachS_all2 {A B S} (f : nat → A → S → B * bool * S) (R : A → B → Prop)
    (l : list A) :
  Forall (fun x => ∀ i st, R x (f i x st).1.1) l →
  ∀ i st, all2 R l (forEachS f i l st).1.1.
Proof.
  induction 1 as [|x l Hx _ IH]; intros i st; [exact I|].
  cbn [forEachS]. specialize (Hx i st).
  destruct (f i x st) as [[y b] st1]. specialize (IH (Datatypes.S i) st1).
  destruct (forEachS f (Datatypes.S i) l st1) as [[ys b'] st2].
  cbn [fst all2] in *. split; assumption.
Qed.

Lemma name_or_kept {S} (n : option string) (fallback : S → string * S) st s :
  n = Some s → s ≠ "" → (name_or n fallback st).1 = s.
Proof.
  intros -> Hs. unfold name_or. rewrite (truthy_str_ne s Hs). reflexivity.
Qed.

Lemma name_or_fresh_layout_ne n st : (name_or n fresh_layout_name st).1 ≠ "".
Proof.
  unfold name_or, fresh_layout_name.
  destruct n as [s|]; [destruct (truthy_str s) eqn:Hs|]; cbn; try discriminate.
  destruct s; [discriminate|congruence].
Qed.

(** [reformatWidget] and [reformatLayout] keep the shape of the tree. *)
Lemma reformat_same_shape :
  (∀ w pr here forced st,
     same_shape (match forced with Some _ => true | None => false end) w
                (reformatWidget pr here forced w st).1.1)
  ∧ (∀ l pr here st, layout_same_shape l (reformatLayout pr here l st).1.1).
Proof.
  pose (P0 := fun w : widget raw_props => ∀ pr here forced st,
     same_shape (match forced with Some _ => true | None => false end) w
                (reformatWidget pr here forced w st).1.1).
  pose (P1 := fun l : layout raw_props => ∀ pr here st,
     layout_same_shape l (reformatLayout pr here l st).1.1).
  pose (P3 := fun c : item_content raw_props =>
     match c with IWidget w => P0 w | ILayout l => P1 l | _ => True end).
  pose (P2 := fun it : item raw_props => P3 (i_content it)).
  assert (HW : (∀ w, P0 w) ∧ (∀ l, P1 l) ∧ (∀ i, P2 i) ∧ (∀ c, P3 c)).
  { apply (tree_mutind raw_props P0 P1 P2 P3); subst P0 P1 P2 P3; cbv beta.
    - (* widget *)
      intros class name property attribute allowMulti item Hitem layout Hlayout
             children Hchildren pr here forced st.
      apply list_all_Forall in Hitem, Hchildren.
      cbn [reformatWidget].
      pose proof (forEachS_all2
        (fun i it s => reformatWidget pr (here ++ [AtItem i])%list None it s)
        (same_shape false) item) as Hi.
      specialize (Hi ltac:(eapply Forall_impl; [exact Hitem|]; cbv beta;
                           intros x Hx i s; exact (Hx pr _ None s)) 0%nat st).
      destruct (forEachS _ 0 item st) as [[item' vf1] st1]. cbn [fst] in Hi.
      pose proof (name_or_kept (match forced with Some f => Some f | None => name end)
                    fresh_widget_name st1) as Hkept.
      destruct (name_or _ fresh_widget_name st1) as [name' st2] eqn:Hname.
      pose proof (name_or_fresh_widget_nonempty _ _ _ _ Hname) as Hne.
      cbn [fst] in Hkept.
      match goal with |- context [set_widgets ?f ?x] => set (st3 := set_widgets f x) end.
      assert (Hl : match layout,
                     (match layout with
                      | Some l =>
                          let '(l', vf, st') := reformatLayout pr (here ++ [AtLayout])%list l st3 in
                          (Some l', vf, st')
                      | None => (None, false, st3)
                      end).1.1 with
                   | Some l, Some l' => layout_same_shape l l'
                   | None, None => True
                   | _, _ => False
                   end).
      { destruct layout as [l|]; [|exact I].
        inversion Hlayout as [l0 Hl0|]; subst.
        specialize (Hl0 pr (here ++ [AtLayout])%list st3).
        destruct (reformatLayout pr (here ++ [AtLayout])%list l st3) as [[l' vf] st'].
        exact Hl0. }
      destruct (match layout with Some l => _ | None => _ end) as [[layout' vf2] st4].
      cbn [fst] in Hl.
      pose proof (forEachS_all2
        (fun i child s =>
           let '(n, s') := fresh_widget_name s in
           reformatWidget pr (here ++ [AtChild i])%list (Some n) child s')
        (same_shape true) children) as Hc.
      specialize (Hc ltac:(eapply Forall_impl; [exact Hchildren|]; cbv beta;
                           intros x Hx i s; destruct (fresh_widget_name s) as [n s'];
                           exact (Hx pr _ (Some n) s')) 0%nat st4).
      destruct (forEachS _ 0 children st4) as [[children' vf3] st5]. cbn [fst] in Hc.
      cbn [fst same_shape].
      split; [reflexivity|]. split; [reflexivity|].
      split; [destruct property; reflexivity|].
      split; [destruct attribute; reflexivity|].
      split.
      { exists name'. split; [reflexivity|]. split; [exact Hne|].
        intros Hf s Hs Hsne. destruct forced; [discriminate|].
        exact (Hkept s Hs Hsne). }
      split; [exact Hi|]. split; [exact Hl|exact Hc].
    - (* layout *)
      intros class name item Hitem vf pr here st.
      apply list_all_Forall in Hitem.
      cbn [reformatLayout].
      pose proof (name_or_kept name fresh_layout_name st) as Hkept.
      pose proof (name_or_fresh_layout_ne name st) as Hne.
      destruct (name_or name fresh_layout_name st) as [name' st1].
      cbn [fst] in Hkept, Hne.
      match goal with |- context [forEachS ?f 0 item st1] =>
        pose proof (forEachS_all2 f
          (fun it it' =>
             match it, it' with
             | Item row column rowspan colspan content,
               Item row' column' rowspan' colspan' content' =>
                 row' = row ∧ column' = column
                 ∧ rowspan' = rowspan ∧ colspan' = colspan
                 ∧ match content, content' with
                   | IWidget w, IWidget w' => same_shape false w w'
                   | ISpacer sname sprop, ISpacer sname' sprop' =>
                       sname' = sname
                       ∧ sprop' = Some (reduce_props (default [] sprop))
                   | ILayout l0, ILayout l0' => layout_same_shape l0 l0'
                   | INone, INone => True
                   | _, _ => False
                   end
             end) item) as Hi end.
      specialize (Hi ltac:(eapply Forall_impl; [exact Hitem|]; cbv beta;
        intros [r c rs cs [w| |l|]] Hx i s; cbn in Hx;
        [ specialize (Hx pr (here ++ [AtLayoutItem i])%list None s);
          destruct (reformatWidget pr (here ++ [AtLayoutItem i])%list None w s) as [[w' b] s'];
          cbn [fst]; repeat split; exact Hx
        | cbn [fst]; repeat split
        | specialize (Hx pr (here ++ [AtLayoutItem i])%list s);
          destruct (reformatLayout pr (here ++ [AtLayoutItem i])%list l s) as [[l' b] s'];
          cbn [fst]; repeat split; exact Hx
        | cbn [fst]; repeat split ]) 0%nat st1).
      destruct (forEachS _ 0 item st1) as [[item' vf'] st2].
      cbn [fst layout_same_shape] in *.
      split; [reflexivity|]. split; [|exact Hi].
      exists name'. split; [reflexivity|]. split; [exact Hne|].
      intros s Hs Hsne. exact (Hkept s Hs Hsne).
    - intros r c rs cs content H. exact H.
    - intros w H. exact H.
    - intros; exact I.
    - intros l H. exact H.
    - exact I. }
  destruct HW as (H0 & H1 & _). split; assumption.
Qed.

Lemma drawn_nil c look : drawn c look [].
Proof. reflexivity. Qed.

Lemma drawn_app c look d1 d2 :
  drawn c look d1 → drawn (c + length d1) look d2 → drawn c look (d1 ++ d2).
Proof.
  unfold drawn. intros H1 H2.
  rewrite map_app, length_app, seq_app, map_app, H1, H2. reflexivity.
Qed.

Lemma drawn_map_cons c look s ds :
  drawn c (fun p => look (s :: p)) ds → drawn c look (map (cons s) ds).
Proof. unfold drawn. rewrite map_map, length_map. auto. Qed.

Lemma drawn_ext c look look' ds :
  (∀ p, p ∈ ds → look p = look' p) → drawn c look ds → drawn c look' ds.
Proof.
  unfold drawn. intros Hext <-. apply map_ext_in. intros p Hp.
  symmetry. apply Hext. apply list_elem_of_In. exact Hp.
Qed.

Lemma drawn_one c look p : look p = Some (drawn_name c) → drawn c look [p].
Proof. unfold drawn. cbn. intros ->. reflexivity. Qed.

Lemma elem_of_flat_mapi {A B} (f : nat → A → list B) l : ∀ i y,
  y ∈ flat_mapi f i l ↔ ∃ j x, l !! j = Some x ∧ y ∈ f (i + j)%nat x.
Proof.
  induction l as [|x l IH]; intros i y; cbn [flat_mapi].
  - split; [intros H; inversion H|intros (j & x & H & _); discriminate].
  - rewrite elem_of_app, IH. split.
    + intros [H|(j & x' & Hl & Hy)].
      * exists 0%nat, x. rewrite Nat.add_0_r. auto.
      * exists (Datatypes.S j), x'. rewrite Nat.add_succ_r. auto.
    + intros ([|j] & x' & Hl & Hy).
      * injection Hl as <-. rewrite Nat.add_0_r in Hy. auto.
      * right. exists j, x'. rewrite Nat.add_succ_r in Hy. auto.
Qed.

Lemma flat_mapi_ext {A B} (f g : nat → A → list B) l :
  (∀ i x, f i x = g i x) → ∀ i, flat_mapi f i l = flat_mapi g i l.
Proof.
  intros H. induction l as [|x l IH]; intros i; [reflexivity|].
  cbn [flat_mapi]. rewrite H, IH. reflexivity.
Qed.

Lemma forEachS_drawn {A B} (mk : nat → step) (index : step → option nat)
    (f : nat → A → registries → B * bool * registries)
    (dr : A → list path) (look : B → path → option string) (l : list A) :
  (∀ j, index (mk j) = Some j) →
  Forall (fun x => ∀ i st,
            counters_widget (f i x st).2 = (counters_widget st + length (dr x))%nat
            ∧ drawn (counters_widget st) (look (f i x st).1.1) (dr x)) l →
  ∀ i st,
    counters_widget (forEachS f i l st).2
    = (counters_widget st
       + length (flat_mapi (fun j x => map (cons (mk j)) (dr x)) i l))%nat
    ∧ drawn (counters_widget st)
            (look_list index look (forEachS f i l st).1.1 i)
            (flat_mapi (fun j x => map (cons (mk j)) (dr x)) i l).
Proof.
  intros Hmk. induction 1 as [|x l Hx _ IH]; intros i st.
  - cbn. split; [lia|apply drawn_nil].
  - cbn [forEachS flat_mapi]. specialize (Hx i st).
    destruct (f i x st) as [[y b] st1]. specialize (IH (Datatypes.S i) st1).
    destruct (forEachS f (Datatypes.S i) l st1) as [[ys b'] st2].
    cbn [fst snd] in *. unfold path in *. destruct Hx as [Hx1 Hx2]. destruct IH as [IH1 IH2].
    rewrite length_app, length_map. split; [lia|].
    apply drawn_app.
    + apply drawn_map_cons. eapply drawn_ext; [|exact Hx2].
      intros p _. cbn [look_list]. rewrite Hmk, Nat.leb_refl, Nat.sub_diag.
      reflexivity.
    + rewrite length_map, <- Hx1. eapply drawn_ext; [|exact IH2].
      intros p Hp. apply elem_of_flat_mapi in Hp as (j & x' & _ & Hp).
      apply list_elem_of_fmap in Hp as (p' & -> & _).
      cbn [look_list]. rewrite Hmk.
      destruct (Nat.leb_spec (Datatypes.S i) (Datatypes.S i + j)) as [_|]; [|lia].
      destruct (Nat.leb_spec i (Datatypes.S i + j)) as [_|]; [|lia].
      replace (Datatypes.S i + j - i)%nat with (Datatypes.S (Datatypes.S i + j - Datatypes.S i)) by lia.
      reflexivity.
Qed.

Lemma counters_name_or_truthy n st :
  truthy_str (default "" n) = true →
  name_or n fresh_widget_name st = (default "" n, st).
Proof.
  unfold name_or. destruct n as [s|]; cbn; [|discriminate]. intros ->. reflexivity.
Qed.

Lemma counters_name_or_fresh n st :
  truthy_str (default "" n) = false →
  name_or n fresh_widget_name st
  = (drawn_name (counters_widget st), (fresh_widget_name st).2).
Proof.
  unfold name_or. destruct n as [s|]; cbn; [intros ->|]; reflexivity.
Qed.

Lemma counters_name_or_layout n st :
  counters_widget (name_or n fresh_layout_name st).2 = counters_widget st.
Proof.
  unfold name_or. destruct n as [s|]; [destruct (truthy_str s)|]; reflexivity.
Qed.

Lemma counters_register_relation pr name st :
  counters_widget (register_relation pr name st) = counters_widget st.
Proof. unfold register_relation. destruct (_ && _); reflexivity. Qed.

Lemma counters_classify pr here name st :
  counters_widget (classify pr here name st) = counters_widget st.
Proof.
  unfold classify.
  destruct (js_in name (p_fields pr));
    destruct (startsWith name "kvrel__" || startsWith name "img__");
    destruct (js_in (part_key (split_dunder name) 1) (p_fields pr));
    destruct (startsWith name "btn__");
    destruct (startsWith name "nrel__");
    destruct (startsWith name "ext__"); reflexivity.
Qed.

(** The names drawn during one call are the values of the counter, in the
    order of [draws]. *)
Lemma reformat_drawn :
  (∀ w pr here forced st,
     (∀ f, forced = Some f → truthy_str f = true) →
     let r := reformatWidget pr here forced w st in
     let ds := draws (match forced with Some _ => true | None => false end) w in
     counters_widget r.2 = (counters_widget st + length ds)%nat
     ∧ drawn (counters_widget st) (fun p => node_at p r.1.1 ≫= w_name) ds)
  ∧ (∀ l pr here st,
     let r := reformatLayout pr here l st in
     counters_widget r.2 = (counters_widget st + length (layout_draws l))%nat
     ∧ drawn (counters_widget st) (fun p => layout_node_at p r.1.1 ≫= w_name)
             (layout_draws l)).
Proof.
  pose (P0 := fun w : widget raw_props => ∀ pr here forced st,
     (∀ f, forced = Some f → truthy_str f = true) →
     let r := reformatWidget pr here forced w st in
     let ds := draws (match forced with Some _ => true | None => false end) w in
     counters_widget r.2 = (counters_widget st + length ds)%nat
     ∧ drawn (counters_widget st) (fun p => node_at p r.1.1 ≫= w_name) ds).
  pose (P1 := fun l : layout raw_props => ∀ pr here st,
     let r := reformatLayout pr here l st in
     counters_widget r.2 = (counters_widget st + length (layout_draws l))%nat
     ∧ drawn (counters_widget st) (fun p => layout_node_at p r.1.1 ≫= w_name)
             (layout_draws l)).
  pose (P3 := fun c : item_content raw_props =>
     match c with IWidget w => P0 w | ILayout l => P1 l | _ => True end).
  pose (P2 := fun it : item raw_props => P3 (i_content it)).
  assert (HW : (∀ w, P0 w) ∧ (∀ l, P1 l) ∧ (∀ i, P2 i) ∧ (∀ c, P3 c)).
  { apply (tree_mutind raw_props P0 P1 P2 P3); subst P0 P1 P2 P3; cbv beta.
    - (* widget *)
      intros class name property attribute allowMulti item Hitem layout Hlayout
             children Hchildren pr here forced st Hforced.
      apply list_all_Forall in Hitem, Hchildren.
      cbn [reformatWidget draws]. cbv zeta.
      (* items *)
      pose proof (forEachS_drawn AtItem item_index
        (fun i it s => reformatWidget pr (here ++ [AtItem i])%list None it s)
        (draws false) (fun y p => node_at p y ≫= w_name) item
        (fun j => eq_refl)) as Hi.
      specialize (Hi ltac:(eapply Forall_impl; [exact Hitem|]; cbv beta;
                           intros x Hx i s;
                           exact (Hx pr _ None s ltac:(discriminate))) 0%nat st).
      destruct (forEachS _ 0 item st) as [[item' vf1] st1]. cbn [fst snd] in Hi.
      destruct Hi as [Hi1 Hi2].
      set (dsi := flat_mapi (fun j x => map (cons (AtItem j)) (draws false x)) 0 item) in *.
      (* the name *)
      set (given := match forced with Some f => Some f | None => name end).
      assert (Hown : ∃ name' st2 own,
                 name_or given fresh_widget_name st1 = (name', st2)
                 ∧ (if match forced with Some _ => true | None => false end
                       || truthy_str (default "" name) then [] else [[]]) = own
                 ∧ counters_widget st2 = (counters_widget st1 + length own)%nat
                 ∧ ∀ W : widget norm_props, w_name W = Some name' →
                     drawn (counters_widget st1) (fun p => node_at p W ≫= w_name) own).
      { destruct forced as [f|]; subst given.
        - exists f, st1, []. cbn [orb].
          rewrite (counters_name_or_truthy (Some f)) by (exact (Hforced f eq_refl)).
          split; [reflexivity|]. split; [reflexivity|]. split; [cbn; lia|].
          intros; apply drawn_nil.
        - cbn [orb]. destruct (truthy_str (default "" name)) eqn:Ht.
          + exists (default "" name), st1, [].
            rewrite counters_name_or_truthy by exact Ht.
            split; [reflexivity|]. split; [reflexivity|]. split; [cbn; lia|].
          intros; apply drawn_nil.
          + exists (drawn_name (counters_widget st1)), (fresh_widget_name st1).2, [[]].
            rewrite counters_name_or_fresh by exact Ht.
            split; [reflexivity|]. split; [reflexivity|]. split; [cbn; lia|].
            intros W HW. apply drawn_one. cbn. exact HW. }
      destruct Hown as (name' & st2 & own & Hname & Hown & Hc2 & Hd2).
      rewrite Hname, Hown.
      match goal with |- context [set_widgets ?f ?x] =>
        change (set_widgets f x) with (classify pr here name' st2) end.
      pose proof (counters_classify pr here name' st2) as Hc3.
      set (st3 := classify pr here name' st2) in *.
      (* the layout *)
      set (dsl := match layout with
                  | Some l => map (cons AtLayout) (layout_draws l)
                  | None => []
                  end).
      assert (Hl : ∃ layout' vf2 st4,
                 (match layout with
                  | Some l =>
                      let '(l', vf, st') := reformatLayout pr (here ++ [AtLayout])%list l st3 in
                      (Some l', vf, st')
                  | None => (None, false, st3)
                  end) = (layout', vf2, st4)
                 ∧ counters_widget st4 = (counters_widget st3 + length dsl)%nat
                 ∧ ∀ W : widget norm_props, w_layout W = layout' →
                     drawn (counters_widget st3) (fun p => node_at p W ≫= w_name) dsl).
      { subst dsl. destruct layout as [l|].
        - inversion Hlayout as [l0 Hl0|]; subst.
          specialize (Hl0 pr (here ++ [AtLayout])%list st3). cbv zeta in Hl0.
          destruct (reformatLayout pr (here ++ [AtLayout])%list l st3) as [[l' vf] st'].
          cbn [fst snd] in Hl0. destruct Hl0 as [Hl1 Hl2].
          exists (Some l'), vf, st'. split; [reflexivity|].
          rewrite length_map. split; [exact Hl1|].
          intros W HW. apply drawn_map_cons. eapply drawn_ext; [|exact Hl2].
          intros p _. cbn [node_at]. rewrite HW. reflexivity.
        - exists None, false, st3. split; [reflexivity|]. split; [cbn; lia|].
          intros; apply drawn_nil. }
      destruct Hl as (layout' & vf2 & st4 & Hleq & Hc4 & Hd4). rewrite Hleq.
      (* the children *)
      pose proof (forEachS_drawn AtChild child_index
        (fun i child s =>
           let '(n, s') := fresh_widget_name s in
           reformatWidget pr (here ++ [AtChild i])%list (Some n) child s')
        (fun c => [] :: draws true c) (fun y p => node_at p y ≫= w_name) children
        (fun j => eq_refl)) as Hch.
      specialize (Hch ltac:(eapply Forall_impl; [exact Hchildren|]; cbv beta;
        intros x Hx i s;
        specialize (Hx pr (here ++ [AtChild i])%list
                       (Some (drawn_name (counters_widget s))) (fresh_widget_name s).2
                       ltac:(intros f [= <-]; reflexivity));
        cbv zeta in Hx;
        pose proof (reformatWidget_result pr (here ++ [AtChild i])%list
                      (Some (drawn_name (counters_widget s))) x (fresh_widget_name s).2)
          as (nm & s1 & s2 & w' & vf & Hnm & Hres & Hw' & _);
        rewrite (counters_name_or_truthy (Some (drawn_name (counters_widget s))))
          in Hnm by reflexivity;
        injection Hnm as <- _;
        change (fresh_widget_name s) with
          (drawn_name (counters_widget s), (fresh_widget_name s).2);
        cbv iota beta; rewrite Hres in Hx |- *; cbn [fst snd] in Hx |- *;
        destruct Hx as [Hx1 Hx2];
        split; [cbn [length]; rewrite Hx1; cbn; lia|];
        change ([] :: draws true x) with ([[]] ++ draws true x)%list;
        apply drawn_app; [apply drawn_one; cbn; exact Hw'|];
        cbn [length]; replace (counters_widget s + 1)%nat
          with (counters_widget (fresh_widget_name s).2) by (cbn; lia);
        exact Hx2) 0%nat st4).
      destruct (forEachS _ 0 children st4) as [[children' vf3] st5].
      cbn [fst snd] in Hch. destruct Hch as [Hch1 Hch2].
      set (dsc := flat_mapi (fun j x => map (cons (AtChild j)) ([] :: draws true x))
                            0 children) in *.
      assert (Hdsc : flat_mapi
                       (fun i child =>
                          [AtChild i] :: map (cons (AtChild i)) (draws true child))
                       0 children = dsc) by reflexivity.
      rewrite Hdsc.
      cbn [fst snd]. rewrite counters_register_relation.
      unfold path in *. rewrite !length_app.
      split; [lia|].
      set (W := Widget class (Some name') _ _ allowMulti item' layout' children').
      apply drawn_app; [|apply drawn_app; [|apply drawn_app]]; unfold path in *;
        rewrite ?length_app.
      + eapply drawn_ext; [|exact Hi2].
        intros p Hp. subst dsi. apply elem_of_flat_mapi in Hp as (j & x & _ & Hp).
        apply list_elem_of_fmap in Hp as (p' & -> & _).
        cbn [look_list item_index node_at w_item W Nat.leb]. cbn [Nat.add].
        rewrite Nat.sub_0_r. destruct (item' !! j); reflexivity.
      + replace (counters_widget st + length dsi)%nat
          with (counters_widget st1) by lia.
        apply Hd2. reflexivity.
      + replace (counters_widget st + length dsi + length own)%nat
          with (counters_widget st3) by lia.
        apply Hd4. reflexivity.
      + replace (counters_widget st + length dsi + length own + length dsl)%nat
          with (counters_widget st4) by lia.
        eapply drawn_ext; [|exact Hch2].
        intros p Hp. subst dsc. apply elem_of_flat_mapi in Hp as (j & x & _ & Hp).
        apply list_elem_of_fmap in Hp as (p' & -> & _).
        cbn [look_list child_index node_at w_widget W Nat.leb]. cbn [Nat.add].
        rewrite Nat.sub_0_r. destruct (children' !! j); reflexivity.
    - (* layout *)
      intros class name item Hitem vf pr here st.
      apply list_all_Forall in Hitem.
      cbn [reformatLayout layout_draws]. cbv zeta.
      pose proof (counters_name_or_layout name st) as Hn.
      destruct (name_or name fresh_layout_name st) as [name' st1]. cbn [snd] in Hn.
      match goal with |- context [forEachS ?f 0 item st1] =>
        pose proof (forEachS_drawn AtLayoutItem layout_item_index f
                      item_draws item_look item (fun j => eq_refl)) as Hi end.
      specialize (Hi ltac:(eapply Forall_impl; [exact Hitem|]; cbv beta;
        intros [r c rs cs [w| |l|]] Hx i s; cbn in Hx; unfold item_draws, item_look;
        cbn [i_content];
        [ specialize (Hx pr (here ++ [AtLayoutItem i])%list None s ltac:(discriminate));
          cbv zeta in Hx;
          destruct (reformatWidget pr (here ++ [AtLayoutItem i])%list None w s) as [[w' b] s'];
          exact Hx
        | cbn; split; [lia|apply drawn_nil]
        | specialize (Hx pr (here ++ [AtLayoutItem i])%list s); cbv zeta in Hx;
          destruct (reformatLayout pr (here ++ [AtLayoutItem i])%list l s) as [[l' b] s'];
          exact Hx
        | cbn; split; [lia|apply drawn_nil] ]) 0%nat st1).
      destruct (forEachS _ 0 item st1) as [[item' vf'] st2].
      cbn [fst snd] in *. destruct Hi as [Hi1 Hi2].
      assert (Hds : flat_mapi
                (fun i it =>
                   match it with
                   | Item _ _ _ _ (IWidget w) => map (cons (AtLayoutItem i)) (draws false w)
                   | Item _ _ _ _ (ILayout l') =>
                       map (cons (AtLayoutItem i)) (layout_draws l')
                   | Item _ _ _ _ _ => []
                   end) 0 item
              = flat_mapi (fun j x => map (cons (AtLayoutItem j)) (item_draws x)) 0 item).
      { apply flat_mapi_ext. intros i [r c rs cs [w| |l|]]; reflexivity. }
      rewrite Hds, <- Hn. split; [exact Hi1|].
      eapply drawn_ext; [|exact Hi2].
      intros p Hp. apply elem_of_flat_mapi in Hp as (j & x & _ & Hp).
      apply list_elem_of_fmap in Hp as (p' & -> & _).
      cbn [look_list layout_item_index layout_node_at l_item Nat.leb]. cbn [Nat.add].
      rewrite Nat.sub_0_r. destruct (item' !! j) as [it'|]; [|reflexivity].
      cbn. unfold item_look. destruct (i_content it'); reflexivity.
    - intros r c rs cs content H. exact H.
    - intros w H. exact H.
    - intros; exact I.
    - intros l H. exact H.
    - exact I. }
  destruct HW as (H0 & H1 & _). split; assumption.
Qed.

(** Every entry of [entered] names a position of the tree, and the widget
    there has the name of the entry. *)
Lemma entered_node_at :
  (∀ (w : widget norm_props) here n p,
     (n, p) ∈ entered here w →
     ∃ q node, p = (here ++ q)%list ∧ node_at q w = Some node
               ∧ default "" (w_name node) = n)
  ∧ (∀ (l : layout norm_props) here n p,
     (n, p) ∈ layout_entered here l →
     ∃ q node, p = (here ++ q)%list ∧ layout_node_at q l = Some node
               ∧ default "" (w_name node) = n).
Proof.
  pose (P0 := fun w : widget norm_props => ∀ here n p,
     (n, p) ∈ entered here w →
     ∃ q node, p = (here ++ q)%list ∧ node_at q w = Some node
               ∧ default "" (w_name node) = n).
  pose (P1 := fun l : layout norm_props => ∀ here n p,
     (n, p) ∈ layout_entered here l →
     ∃ q node, p = (here ++ q)%list ∧ layout_node_at q l = Some node
               ∧ default "" (w_name node) = n).
  pose (P3 := fun c : item_content norm_props =>
     match c with IWidget w => P0 w | ILayout l => P1 l | _ => True end).
  pose (P2 := fun it : item norm_props => P3 (i_content it)).
  assert (HW : (∀ w, P0 w) ∧ (∀ l, P1 l) ∧ (∀ i, P2 i) ∧ (∀ c, P3 c)).
  { apply (tree_mutind norm_props P0 P1 P2 P3); subst P0 P1 P2 P3; cbv beta.
    - intros class name property attribute allowMulti item Hitem layout Hlayout
             children Hchildren here n p Hin.
      apply list_all_Forall in Hitem, Hchildren.
      rewrite Forall_lookup in Hitem, Hchildren.
      cbn [entered] in Hin. rewrite !elem_of_app in Hin.
      destruct Hin as [Hin|[Hin|[Hin|Hin]]].
      + apply elem_of_flat_mapi in Hin as (j & x & Hx & Hin). cbn [Nat.add] in Hin.
        destruct (Hitem j x Hx _ _ _ Hin) as (q & node & -> & Hq & Hn).
        exists (AtItem j :: q), node. rewrite <- app_assoc. split; [reflexivity|].
        cbn [node_at w_item]. rewrite Hx. auto.
      + apply list_elem_of_singleton in Hin. injection Hin as -> ->.
        exists [], (Widget class name property attribute allowMulti item layout children).
        rewrite app_nil_r. auto.
      + destruct layout as [l|]; [|inversion Hin].
        inversion Hlayout as [l0 Hl0|]; subst.
        destruct (Hl0 _ _ _ Hin) as (q & node & -> & Hq & Hn).
        exists (AtLayout :: q), node. rewrite <- app_assoc. auto.
      + apply elem_of_flat_mapi in Hin as (j & x & Hx & Hin). cbn [Nat.add] in Hin.
        destruct (Hchildren j x Hx _ _ _ Hin) as (q & node & -> & Hq & Hn).
        exists (AtChild j :: q), node. rewrite <- app_assoc. split; [reflexivity|].
        cbn [node_at w_widget]. rewrite Hx. auto.
    - intros class name item Hitem vf here n p Hin.
      apply list_all_Forall in Hitem. rewrite Forall_lookup in Hitem.
      cbn [layout_entered] in Hin.
      apply elem_of_flat_mapi in Hin as (j & it & Hit & Hin). cbn [Nat.add] in Hin.
      specialize (Hitem j it Hit). destruct it as [r c rs cs [w| |l|]]; cbn in Hitem.
      + destruct (Hitem _ _ _ Hin) as (q & node & -> & Hq & Hn).
        exists (AtLayoutItem j :: q), node. rewrite <- app_assoc. split; [reflexivity|].
        cbn [layout_node_at l_item]. rewrite Hit. auto.
      + inversion Hin.
      + destruct (Hitem _ _ _ Hin) as (q & node & -> & Hq & Hn).
        exists (AtLayoutItem j :: q), node. rewrite <- app_assoc. split; [reflexivity|].
        cbn [layout_node_at l_item]. rewrite Hit. auto.
      + inversion Hin.
    - intros r c rs cs content H. exact H.
    - intros w H. exact H.
    - intros; exact I.
    - intros l H. exact H.
    - exact I. }
  destruct HW as (H0 & H1 & _). split; assumption.
Qed.

(** Every widget of the tree is entered. *)
Lemma nodes_entered :
  (∀ (w : widget norm_props) here node,
     node ∈ widget_nodes w → ∃ p, (default "" (w_name node), p) ∈ entered here w)
  ∧ (∀ (l : layout norm_props) here node,
     node ∈ layout_nodes l → ∃ p, (default "" (w_name node), p) ∈ layout_entered here l).
Proof.
  pose (P0 := fun w : widget norm_props => ∀ here node,
     node ∈ widget_nodes w → ∃ p, (default "" (w_name node), p) ∈ entered here w).
  pose (P1 := fun l : layout norm_props => ∀ here node,
     node ∈ layout_nodes l → ∃ p, (default "" (w_name node), p) ∈ layout_entered here l).
  pose (P3 := fun c : item_content norm_props =>
     match c with IWidget w => P0 w | ILayout l => P1 l | _ => True end).
  pose (P2 := fun it : item norm_props => P3 (i_content it)).
  assert (HW : (∀ w, P0 w) ∧ (∀ l, P1 l) ∧ (∀ i, P2 i) ∧ (∀ c, P3 c)).
  { apply (tree_mutind norm_props P0 P1 P2 P3); subst P0 P1 P2 P3; cbv beta.
    - intros class name property attribute allowMulti item Hitem layout Hlayout
             children Hchildren here node Hin.
      apply list_all_Forall in Hitem, Hchildren.
      rewrite Forall_forall in Hitem, Hchildren.
      cbn [widget_nodes] in Hin. apply elem_of_cons in Hin.
      cbn [entered]. 
      destruct Hin as [->|Hin].
      + exists here. rewrite !elem_of_app. right. left.
        apply list_elem_of_singleton. reflexivity.
      + rewrite !elem_of_app in Hin. destruct Hin as [Hin|[Hin|Hin]].
        * apply list_elem_of_In, in_flat_map in Hin as (x & Hx & Hin).
          apply list_elem_of_In in Hx, Hin.
          pose proof Hx as Hx'. apply list_elem_of_lookup in Hx' as [j Hj].
          destruct (Hitem x Hx (here ++ [AtItem j])%list node Hin) as [p Hp].
          exists p. rewrite !elem_of_app. left.
          apply elem_of_flat_mapi. exists j, x. auto.
        * destruct layout as [l|]; [|inversion Hin].
          inversion Hlayout as [l0 Hl0|]; subst.
          destruct (Hl0 (here ++ [AtLayout])%list node Hin) as [p Hp].
          exists p. rewrite !elem_of_app. auto.
        * apply list_elem_of_In, in_flat_map in Hin as (x & Hx & Hin).
          apply list_elem_of_In in Hx, Hin.
          pose proof Hx as Hx'. apply list_elem_of_lookup in Hx' as [j Hj].
          destruct (Hchildren x Hx (here ++ [AtChild j])%list node Hin) as [p Hp].
          exists p. rewrite !elem_of_app. right. right. right.
          apply elem_of_flat_mapi. exists j, x. auto.
    - intros class name item Hitem vf here node Hin.
      apply list_all_Forall in Hitem. rewrite Forall_forall in Hitem.
      rewrite layout_nodes_eq in Hin.
      apply list_elem_of_In, in_flat_map in Hin as (it & Hit & Hin).
      apply list_elem_of_In in Hit, Hin.
      pose proof Hit as Hit'. apply list_elem_of_lookup in Hit' as [j Hj].
      specialize (Hitem it Hit). cbn [layout_entered].
      destruct it as [r c rs cs [w| |l|]]; cbn in Hitem, Hin; try (inversion Hin; fail).
      + destruct (Hitem (here ++ [AtLayoutItem j])%list node Hin) as [p Hp].
        exists p. apply elem_of_flat_mapi. eexists j, _. split; [exact Hj|exact Hp].
      + destruct (Hitem (here ++ [AtLayoutItem j])%list node Hin) as [p Hp].
        exists p. apply elem_of_flat_mapi. eexists j, _. split; [exact Hj|exact Hp].
    - intros r c rs cs content H. exact H.
    - intros w H. exact H.
    - intros; exact I.
    - intros l H. exact H.
    - exact I. }
  destruct HW as (H0 & H1 & _). split; assumption.
Qed.

(** C8: after [reformatWidget] (and [reformatLayout]), every widget node of
    the tree that is left has a property map, an attribute map and a
    non-empty name. The tree has the shape of the tree that was parsed; a
    widget keeps the non-empty name the document gives it; and the widgets
    that have none, and the children of tab and stacked widgets, are named
    [":widget_"] followed by the values of the counter, one after the other
    in the order in which they are reached. *)
Theorem reformat_invariant pr here st :
  (∀ w,
     let r := reformatWidget pr here None w st in
     Forall widget_normalised (widget_nodes r.1.1)
     ∧ same_shape false w r.1.1
     ∧ drawn (counters_widget st) (fun p => node_at p r.1.1 ≫= w_name) (draws false w)
     ∧ counters_widget r.2 = (counters_widget st + length (draws false w))%nat)
  ∧ (∀ l,
     let r := reformatLayout pr here l st in
     Forall widget_normalised (layout_nodes r.1.1)
     ∧ layout_same_shape l r.1.1
     ∧ drawn (counters_widget st) (fun p => layout_node_at p r.1.1 ≫= w_name)
             (layout_draws l)
     ∧ counters_widget r.2 = (counters_widget st + length (layout_draws l))%nat).
Proof.
  split.
  - intros w r. subst r.
    destruct (proj1 reformat_drawn w pr here None st ltac:(discriminate)) as [Hc Hd].
    split; [apply reformat_nodes_normalised|].
    split; [exact (proj1 reformat_same_shape w pr here None st)|].
    split; [exact Hd|exact Hc].
  - intros l r. subst r.
    destruct (proj2 reformat_drawn l pr here st) as [Hc Hd].
    split; [apply reformat_nodes_normalised|].
    split; [exact (proj2 reformat_same_shape l pr here st)|].
    split; [exact Hd|exact Hc].
Qed.

(** *** Form loading *)

Lemma lookup_setState (patch st : state) k :
  setState patch st !! k =
    match patch !! k with Some v => Some v | None => st !! k end.
Proof.
  unfold setState. rewrite lookup_union.
  destruct (patch !! k), (st !! k); reflexivity.
Qed.

Ltac lookup_lit :=
  rewrite ?lookup_setState;
  repeat first
    [ rewrite lookup_insert_eq
    | rewrite lookup_insert_ne by discriminate
    | rewrite lookup_singleton_eq
    | rewrite lookup_singleton_ne by discriminate
    | rewrite lookup_empty ].

(** An early callback leaves the world alone or commits its form. *)
Lemma earlyPreprocessorCallback_cases seen id fd w :
  earlyPreprocessorCallback seen id fd w = w
  ∨ earlyPreprocessorCallback seen id fd w
    = with_state w (setState {[ "formData" := SForm fd;
                                "loading" := SBool false;
                                "loadingReqId" := SNull ]} (w_state w)).
Proof.
  unfold earlyPreprocessorCallback.
  destruct (seen !! "loadingReqId") as [[| | |current| | |]|]; auto.
  destruct (Nat.eqb current id); auto.
Qed.










(** Without a preprocessor, [parseForm] commits its own parse whatever the
    state is. *)
Lemma parseForm_commits_unguarded E data root w :
  xmlParse E data = Some root →
  editLayerId (w_props w) ∉ FormPreprocessors w →
  ∃ json, w_state (parseForm E data w).1 !! "formData" = Some (SForm json)
          ∧ w_state (parseForm E data w).1 !! "loadingReqId" = Some SNull.
Proof.
  intros Hparse Hno. unfold parseForm. rewrite Hparse.
  destruct (reformatWidget _ [] None root empty_registries) as [[root' vf] reg].
  cbn [w_props FormPreprocessors]. rewrite bool_decide_eq_false_2 by exact Hno.
  cbn [fst w_state with_state]. eexists. split; lookup_lit; reflexivity.
Qed.


(** The same with a preprocessor registered, each callback being invoked
    before the next response arrives. *)
Lemma preprocessed_late_response_commits :
  let E := sample_externals in
  ∃ fdA fdB,
    produced_form (parseForm E "B" two_requests_preprocessed) = Some fdB ∧
    let w2 := run E two_requests_preprocessed
                  [HttpResponse 1 "B"; PreprocessorCallback 0 fdB] in
    produced_form (parseForm E "A" w2) = Some fdA ∧
    let w3 := run E w2 [HttpResponse 0 "A"; PreprocessorCallback 1 fdA] in
    committed_root_name w2 = Some "b" ∧ committed_root_name w3 = Some "a".
Proof.
  vm_compute. eexists _, _. split; [reflexivity|]. split; [reflexivity|]. auto.
Qed.

(** The tree that [parseForm] commits or hands to the preprocessor satisfies
    the normalisation invariant. *)
Lemma parseForm_tree_normalised E data w json :
  produced_form (parseForm E data w) = Some json →
  Forall widget_normalised (widget_nodes (ui_widget json)).
Proof.
  unfold parseForm. destruct (xmlParse E data) as [root|]; [|discriminate].
  pose proof (proj1 reformat_nodes_normalised root (w_props w) [] None
                empty_registries) as Hn.
  cbn [w_props].
  destruct (reformatWidget (w_props w) [] None root empty_registries)
    as [[root' vf] reg].
  cbn [FormPreprocessors fst] in *.
  case_bool_decide; unfold produced_form; cbn [fst snd app w_state with_state].
  - intros [= <-]. exact Hn.
  - lookup_lit. intros [= <-]. exact Hn.
Qed.

(** What a successful parse produces. *)
Lemma parseForm_produces E data root w :
  xmlParse E data = Some root →
  let r := reformatWidget (w_props w) [] None root empty_registries in
  produced_form (parseForm E data w)
  = Some {| ui_widget := r.1.1;
            fd_externalFields := externalFields r.2;
            fd_widgets := widgets r.2;
            fd_fields := fields r.2;
            fd_buttons := buttons r.2;
            fd_nrels := nrels r.2 |}
  ∧ pushed_tables (parseForm E data w).2 = Some (relationTables r.2).
Proof.
  intros Hparse r. subst r. unfold parseForm. rewrite Hparse. cbn [w_props].
  destruct (reformatWidget (w_props w) [] None root empty_registries)
    as [[root' vf] reg].
  cbn [FormPreprocessors fst snd].
  case_bool_decide; unfold produced_form;
    cbn [fst snd app pushed_tables w_state with_state]; lookup_lit;
    split; reflexivity.
Qed.

Lemma produced_form_parsed E data w json :
  produced_form (parseForm E data w) = Some json → is_Some (xmlParse E data).
Proof.
  unfold parseForm. destruct (xmlParse E data); [eauto|discriminate].
Qed.

Lemma write_all_empty_written {V} (entries : list (string * V)) :
  write_all ∅ entries = written entries.
Proof. symmetry. apply written_write_all. Qed.

(** The registries of a parse, by the tree it leaves. *)
Lemma parse_registries pr root :
  let r := reformatWidget pr [] None root empty_registries in
  let ent := entered [] r.1.1 in
  widgets r.2 = written ent
  ∧ fields r.2 = written (omap (field_entry pr) ent)
  ∧ buttons r.2 = written (omap (button_entry pr) ent)
  ∧ nrels r.2 = written (omap (nrel_entry pr) ent)
  ∧ externalFields r.2 = written (omap external_entry ent)
  ∧ relationTables r.2 = written (omap (relation_entry pr) (completed r.1.1)).
Proof.
  cbv zeta.
  destruct (proj1 reformat_replayed root pr [] None empty_registries)
    as (H1 & H2 & H3 & H4 & H5 & H6).
  cbn [empty_registries widgets fields buttons nrels externalFields relationTables]
    in H1, H2, H3, H4, H5, H6.
  rewrite write_all_empty_written in H1. rewrite write_all_empty_written in H2.
  rewrite write_all_empty_written in H3. rewrite write_all_empty_written in H4.
  rewrite write_all_empty_written in H5. rewrite write_all_empty_written in H6.
  repeat split; assumption.
Qed.

Lemma written_lookup_elem {V} (entries : list (string * V)) k v :
  written entries !! k = Some v → (k, v) ∈ entries.
Proof.
  unfold written. intros H. apply elem_of_list_to_map_2 in H.
  apply elem_of_reverse. exact H.
Qed.

Lemma written_snoc {V} (entries : list (string * V)) k v :
  written (entries ++ [(k, v)]) = <[k := v]> (written entries).
Proof. unfold written. rewrite reverse_app. reflexivity. Qed.

(** The entry of a key that no later entry writes again. *)
Lemma written_last {V} (before after : list (string * V)) k v :
  (∀ e, e ∈ after → e.1 ≠ k) →
  written (before ++ (k, v) :: after) !! k = Some v.
Proof.
  induction after as [|e after IH] using rev_ind; intros Hafter.
  - rewrite written_snoc. apply lookup_insert_eq.
  - change (before ++ (k, v) :: after ++ [e])%list
      with (before ++ ((k, v) :: after) ++ [e])%list.
    rewrite app_assoc. destruct e as [k' v'].
    rewrite written_snoc, lookup_insert_ne.
    + apply IH. intros e He. apply Hafter, elem_of_app. left. exact He.
    + apply (Hafter (k', v')), elem_of_app. right. apply list_elem_of_singleton.
      reflexivity.
Qed.

Lemma node_at_nodes {P} :
  ∀ (q : path),
    (∀ (w node : widget P), node_at q w = Some node → node ∈ widget_nodes w)
    ∧ (∀ (l : layout P) (node : widget P),
         layout_node_at q l = Some node → node ∈ layout_nodes l).
Proof.
  induction q as [|s q [IHw IHl]].
  - split; [|discriminate].
    intros w node [= <-]. destruct w. cbn [widget_nodes]. left.
  - split.
    + intros w node. destruct w as [class name property attribute allowMulti item
                                     layout children].
      destruct s as [i| |i|i]; cbn [node_at w_item w_layout w_widget widget_nodes].
      * destruct (item !! i) as [x|] eqn:Hx; [|discriminate]. cbn.
        intros Hn. right. rewrite !elem_of_app. left.
        apply list_elem_of_In, in_flat_map. exists x. split.
        -- apply list_elem_of_In, list_elem_of_lookup. eauto.
        -- apply list_elem_of_In, IHw, Hn.
      * destruct layout as [l|]; [|discriminate]. cbn.
        intros Hn. right. rewrite !elem_of_app. right. left. apply IHl, Hn.
      * discriminate.
      * destruct (children !! i) as [x|] eqn:Hx; [|discriminate]. cbn.
        intros Hn. right. rewrite !elem_of_app. right. right.
        apply list_elem_of_In, in_flat_map. exists x. split.
        -- apply list_elem_of_In, list_elem_of_lookup. eauto.
        -- apply list_elem_of_In, IHw, Hn.
    + intros l node. destruct l as [class name item vf].
      destruct s as [i| |i|i]; cbn [layout_node_at l_item]; try discriminate.
      destruct (item !! i) as [it|] eqn:Hit; [|discriminate]. cbn.
      intros Hn.
      apply list_elem_of_In, in_flat_map. exists it. split.
      * apply list_elem_of_In, list_elem_of_lookup. eauto.
      * apply list_elem_of_In. destruct it as [r c rs cs [w| |l'|]];
          cbn [i_content item_nodes] in *; try discriminate.
        -- apply IHw, Hn.
        -- apply IHl, Hn.
Qed.

(** C7: a document with a [ui.widget], parsed twice under the same props,
    in whatever states of the component, gives the same form and the same
    relation tables both times. The tree has the shape of the document; the
    registries and the relation tables are what entering its widgets one by
    one writes. The synthetic names are part of the tree and are the same
    too, the counters starting from zero in every call. *)
Theorem parseForm_twice_same_result E data root w1 w2 :
  xmlParse E data = Some root →
  w_props w1 = w_props w2 →
  ∃ json tables,
    produced_form (parseForm E data w1) = Some json
    ∧ produced_form (parseForm E data w2) = Some json
    ∧ pushed_tables (parseForm E data w1).2 = Some tables
    ∧ pushed_tables (parseForm E data w2).2 = Some tables
    ∧ same_shape false root (ui_widget json)
    ∧ fd_fields json
      = written (omap (field_entry (w_props w1)) (entered [] (ui_widget json)))
    ∧ fd_buttons json
      = written (omap (button_entry (w_props w1)) (entered [] (ui_widget json)))
    ∧ fd_nrels json
      = written (omap (nrel_entry (w_props w1)) (entered [] (ui_widget json)))
    ∧ fd_externalFields json
      = written (omap external_entry (entered [] (ui_widget json)))
    ∧ tables
      = written (omap (relation_entry (w_props w1)) (completed (ui_widget json))).
Proof.
  intros Hparse Hprops.
  destruct (parseForm_produces E data root w1 Hparse) as [Hf1 Ht1].
  destruct (parseForm_produces E data root w2 Hparse) as [Hf2 Ht2].
  rewrite <- Hprops in Hf2, Ht2.
  destruct (parse_registries (w_props w1) root) as (_ & H2 & H3 & H4 & H5 & H6).
  eexists _, _. split; [exact Hf1|]. split; [exact Hf2|].
  split; [exact Ht1|]. split; [exact Ht2|].
  cbn [ui_widget fd_fields fd_buttons fd_nrels fd_externalFields].
  split; [exact (proj1 reformat_same_shape root (w_props w1) [] None empty_registries)|].
  repeat split; assumption.
Qed.

Lemma parseForm_twice_same_result_witness :
  let w1 := full_world in
  let w2 := (parseForm full_externals "full" w1).1 in
  ∃ json tables,
    produced_form (parseForm full_externals "full" w1) = Some json
    ∧ produced_form (parseForm full_externals "full" w2) = Some json
    ∧ pushed_tables (parseForm full_externals "full" w1).2 = Some tables
    ∧ pushed_tables (parseForm full_externals "full" w2).2 = Some tables
    ∧ same_shape false full_document (ui_widget json)
    ∧ fd_fields json
      = written (omap (field_entry (w_props w1)) (entered [] (ui_widget json)))
    ∧ fd_buttons json
      = written (omap (button_entry (w_props w1)) (entered [] (ui_widget json)))
    ∧ fd_nrels json
      = written (omap (nrel_entry (w_props w1)) (entered [] (ui_widget json)))
    ∧ fd_externalFields json
      = written (omap external_entry (entered [] (ui_widget json)))
    ∧ tables
      = written (omap (relation_entry (w_props w1)) (completed (ui_widget json))).
Proof.
  apply (parseForm_twice_same_result full_externals "full" full_document full_world
           (parseForm full_externals "full" full_world).1);
    reflexivity.
Defined.

Lemma relation_entry_nrel pr t fk optional :
  tokens_ok (t :: fk :: optional) = true →
  relation_entry pr (nrel_name t fk optional)
  = Some (mapPrefix pr +:+ t,
          {| fk := fk;
             sortcol := part_or_null optional 0;
             noreorder := part_or_null optional 1 |}).
Proof.
  intros Htok. unfold relation_entry, nrel_name.
  rewrite split_join by exact Htok. reflexivity.
Qed.

Lemma elem_of_omap_fst {A K V} (f : A → option (K * V)) (l : list A) e :
  e ∈ omap f l → ∃ x, x ∈ l ∧ f x = Some e.
Proof. intros H. apply list_elem_of_omap in H. exact H. Qed.

(** C6, as amended: the relation tables [parseForm] pushes are what the
    names of the widgets write one after the other, in the order in which
    the calls of [reformatWidget] return, a later widget replacing the
    descriptor an earlier one wrote for the same table. A widget named
    [nrel__t__fk] followed by optional tokens writes, under the map prefix
    followed by [t], the descriptor with foreign key [fk], with the first
    optional token as sort column ([null] when it is missing or empty) and
    the second as [noreorder] ([false] when it is missing or empty); that
    descriptor is the one pushed when no widget after it names the same
    table. [renderNRelation] on such a widget throws when the widget has no
    layout; otherwise it shows the reorder buttons only when the form is
    not read-only, the widget is enabled, there is a sort column and
    [noreorder] is not set. *)
Theorem nrel_relation_descriptor E data w json tables t fk optional :
  produced_form (parseForm E data w) = Some json →
  pushed_tables (parseForm E data w).2 = Some tables →
  tokens_ok (t :: fk :: optional) = true →
  let pr := w_props w in
  let descriptor :=
    {| fk := fk;
       sortcol := part_or_null optional 0;
       noreorder := part_or_null optional 1 |} in
  tables = written (omap (relation_entry pr) (completed (ui_widget json)))
  ∧ relation_entry pr (nrel_name t fk optional) = Some (mapPrefix pr +:+ t, descriptor)
  ∧ (∀ before after,
       completed (ui_widget json) = (before ++ nrel_name t fk optional :: after)%list →
       (∀ name e, name ∈ after → relation_entry pr name = Some e →
                  e.1 ≠ mapPrefix pr +:+ t) →
       tables !! (mapPrefix pr +:+ t) = Some descriptor)
  ∧ ∀ node : widget norm_props,
      w_name node = Some (nrel_name t fk optional) →
      renderNRelation pr node =
        match w_layout node with
        | None => TypeError
        | Some _ =>
            let disabled :=
              String.eqb (String_of (props_of node !! "enabled")) "false" in
            Element {| nr_disabled := disabled;
                       nr_tablename := t;
                       nr_sortcol := sortcol descriptor;
                       nr_noreorder := noreorder descriptor;
                       nr_datasetname := mapPrefix pr +:+ t;
                       nr_reorder_buttons :=
                         negb (readOnly pr) && negb disabled
                         && bool_decide (is_Some (sortcol descriptor))
                         && negb (bool_decide (is_Some (noreorder descriptor)));
                       nr_remove_button := negb (readOnly pr) && negb disabled |}
        end.
Proof.
  intros Hform Htables Htok pr descriptor.
  destruct (produced_form_parsed _ _ _ _ Hform) as [root Hparse].
  destruct (parseForm_produces E data root w Hparse) as [Hf Ht].
  rewrite Hform in Hf. injection Hf as ->.
  rewrite Htables in Ht. injection Ht as ->.
  cbn [ui_widget].
  destruct (parse_registries (w_props w) root) as (_ & _ & _ & _ & _ & H6).
  pose proof (relation_entry_nrel pr t fk optional Htok) as Hentry.
  split; [exact H6|]. split; [exact Hentry|]. split.
  - intros before after Hsplit Hafter. rewrite H6, Hsplit.
    rewrite omap_app. cbn [omap list_omap]. fold pr. rewrite Hentry.
    apply written_last. intros e He.
    apply elem_of_omap_fst in He as (name & Hname & He).
    exact (Hafter name e Hname He).
  - intros node Hname.
    assert (Hsplit : split_dunder (nrel_name t fk optional)
                     = "nrel" :: t :: fk :: optional).
    { apply split_join. exact Htok. }
    unfold renderNRelation, name_of. rewrite Hname.
    change (default "" (Some ?x)) with x. rewrite Hsplit.
    cbn [length Nat.ltb Nat.leb].
    destruct (w_layout node); reflexivity.
Qed.

Lemma nrel_relation_descriptor_witness :
  ∃ json tables,
    produced_form (parseForm full_externals "full" full_world) = Some json
    ∧ tables = written (omap (relation_entry full_props) (completed (ui_widget json)))
    ∧ relation_entry full_props (nrel_name "houses" "pid" ["rank"; "1"])
      = Some ("map." +:+ "houses",
              {| fk := "pid"; sortcol := Some "rank"; noreorder := Some "1" |})
    ∧ tables !! ("map." +:+ "houses")
      = Some {| fk := "pid"; sortcol := Some "rank"; noreorder := Some "1" |}.
Proof.
  destruct (produced_form (parseForm full_externals "full" full_world))
    as [json|] eqn:Hf; [|vm_compute in Hf; discriminate Hf].
  destruct (pushed_tables (parseForm full_externals "full" full_world).2)
    as [tables|] eqn:Ht; [|vm_compute in Ht; discriminate Ht].
  destruct (nrel_relation_descriptor full_externals "full" full_world json tables
              "houses" "pid" ["rank"; "1"] Hf Ht eq_refl) as (H1 & H2 & H3 & _).
  exists json, tables. split; [reflexivity|]. split; [exact H1|].
  split; [exact H2|].
  assert (Hc : completed (ui_widget json)
               = ([":widget_1"; "name"; "kvrel__type__types__id__label";
                   "ext__owner"; "btn__open"; "constructor"; ":widget_2";
                   ":widget_3"; "tabs"; "header__area"; "parcels__area";
                   "nrel__parcels__fk__pos"; "header__area"; "parcels__area";
                   "nrel__parcels__owner_id"; "header__area"; "parcels__area"]
                  ++ nrel_name "houses" "pid" ["rank"; "1"] :: [":widget_0"])%list).
  { transitivity
      (completed (ui_widget
         (default json (produced_form (parseForm full_externals "full" full_world))))).
    - rewrite Hf. reflexivity.
    - vm_compute. reflexivity. }
  apply (H3 _ _ Hc).
  intros name e Hname He. apply list_elem_of_singleton in Hname. subst name.
  vm_compute in He. discriminate He.
Defined.

(** C6 as stated does not hold for every such widget: of two relation
    widgets for the table [parcels] the descriptor that is pushed is the
    one of the second, so the foreign key and the sort column of
    [nrel__parcels__fk__pos] are not recorded; and for
    [nrel__parcels__owner_id], which has no optional tokens, in a form that
    is not read-only, no reorder buttons are rendered. *)
Lemma nrel_descriptor_overwritten_and_no_reorder :
  (∃ json, produced_form (parseForm full_externals "full" full_world) = Some json
           ∧ "nrel__parcels__fk__pos" ∈ completed (ui_widget json))
  ∧ pushed_tables (parseForm full_externals "full" full_world).2
    = Some {[ "map.parcels" :=
                {| fk := "owner_id"; sortcol := None; noreorder := None |};
              "map.houses" :=
                {| fk := "pid"; sortcol := Some "rank"; noreorder := Some "1" |} ]}
  ∧ readOnly full_props = false
  ∧ (∃ node v,
       (produced_form (parseForm full_externals "full" full_world)
          ≫= fun json => node_at [AtLayout; AtLayoutItem 8] (ui_widget json))
       = Some node
       ∧ w_name node = Some "nrel__parcels__owner_id"
       ∧ renderNRelation full_props node = Element v
       ∧ nr_disabled v = false
       ∧ nr_reorder_buttons v = false).
Proof.
  split; [|split; [|split]].
  - eexists. split; [vm_compute; reflexivity|].
    vm_compute. repeat first [left | right].
  - vm_compute. reflexivity.
  - reflexivity.
  - eexists _, _. split; [vm_compute; reflexivity|].
    split; [reflexivity|]. split; [vm_compute; reflexivity|].
    split; reflexivity.
Qed.

(** *** buildErrMsg *)

(** The example of the specification: a base error and two data errors. *)
Lemma buildErrMsg_data_errors_example :
  buildErrMsg {| error := "bad";
                 record_error_details :=
                   Some {| geometry_errors := None;
                           data_errors := Some ["x"; "y"];
                           validation_errors := None |} |}
  = "bad:" +:+ nl +:+ " - x" +:+ nl +:+ " - y".
Proof. reflexivity. Qed.

(** The data and validation lists are joined with a newline and the item
    prefix. *)
Lemma buildErrMsg_data_errors base d ds :
  buildErrMsg {| error := base;
                 record_error_details :=
                   Some {| geometry_errors := None;
                           data_errors := Some (d :: ds);
                           validation_errors := None |} |}
  = base +:+ (":" +:+ nl +:+ " - ") +:+ join (nl +:+ " - ") (d :: ds).
Proof. reflexivity. Qed.

(** C4 at two geometry errors: the mapped array is appended to the message
    as it is, so its elements are separated by a comma, where the data and
    validation lists are separated by a newline. *)
Lemma buildErrMsg_geometry_errors_comma_joined :
  let rec :=
    {| error := "bad";
       record_error_details :=
         Some {| geometry_errors :=
                   Some [ {| reason := "r1"; location := "l1" |};
                          {| reason := "r2"; location := "l2" |} ];
                 data_errors := None;
                 validation_errors := None |} |} in
  buildErrMsg rec = "bad:" +:+ nl +:+ " - r1 at l1, - r2 at l2"
  ∧ buildErrMsg rec ≠ "bad:" +:+ nl +:+ " - r1 at l1" +:+ nl +:+ " - r2 at l2".
Proof. split; [reflexivity|]. vm_compute. discriminate. Qed.

End QtDesignerFormFacts.

(** ** plugins/MapInfoTooltip.jsx *)
Module MapInfoTooltipFacts.
Import JS MapInfoTooltip TooltipSamples.

Lemma tooltip_lookup_setState (patch st : state) k :
  setState patch st !! k =
    match patch !! k with Some v => Some v | None => st !! k end.
Proof.
  unfold setState. rewrite lookup_union.
  destruct (patch !! k), (st !! k); reflexivity.
Qed.

Ltac tooltip_lookup :=
  rewrite ?tooltip_lookup_setState;
  repeat first
    [ rewrite lookup_insert_eq
    | rewrite lookup_insert_ne by discriminate
    | rewrite lookup_singleton_eq
    | rewrite lookup_singleton_ne by discriminate
    | rewrite lookup_empty ].

Lemma clear_lookup st :
  clear st !! "point" = Some TNull
  ∧ clear st !! "extraInfo" = Some TNull
  ∧ clear st !! "height" = Some TNull
  ∧ clear st !! "elevation" = st !! "elevation".
Proof. unfold clear. repeat split; tooltip_lookup; reflexivity. Qed.

Lemma truthy_clear_point st : truthy (clear st !! "point") = false.
Proof. destruct (clear_lookup st) as [-> _]. reflexivity. Qed.

(** When an update opens the popup, the elevation is [null]. *)
Lemma popup_opens_without_elevation E cfg prev pr st :
  truthy (st !! "point") = false →
  let st' := (componentDidUpdate E cfg prev pr st).1 in
  truthy (st' !! "point") = false ∨ st' !! "elevation" = Some TNull.
Proof.
  intros Hp. unfold componentDidUpdate. rewrite Hp, andb_false_r.
  destruct (map_click (map pr)) as [newPoint|]; [|left; exact Hp].
  destruct (button newPoint =? 2)%Z; cbn [negb]; [|left; exact Hp].
  match goal with |- context [if ?c then _ else _] => destruct c end.
  - right. cbn [fst]. tooltip_lookup. reflexivity.
  - left. exact Hp.
Qed.

(** Where [clear] is invoked by an update: when the tool is disabled, and
    when the click is gone or is not a right-click, a popup being open. *)
Lemma componentDidUpdate_clears E cfg prev pr st :
  truthy (st !! "point") = true →
  enabled pr = false
  ∨ map_click (map pr) = None
  ∨ (∃ c, map_click (map pr) = Some c ∧ button c ≠ 2%Z) →
  componentDidUpdate E cfg prev pr st = (clear st, []).
Proof.
  intros Hp Hcase. unfold componentDidUpdate. rewrite Hp.
  destruct (enabled pr); [|reflexivity]. cbn [negb andb].
  destruct Hcase as [?|[Hnone|(c & Hc & Hb)]]; [discriminate| |].
  - rewrite Hnone. reflexivity.
  - rewrite Hc. apply Z.eqb_neq in Hb. rewrite Hb. reflexivity.
Qed.

(** C9, as amended: [clear] sets [point] and [extraInfo] to [null], writes
    [null] to a key [height] and leaves [elevation] as it was, so a fetched
    elevation stays in the state after the popup is dismissed; whenever a
    later update opens the popup again, it resets the elevation to [null]. *)
Theorem clear_keeps_elevation E cfg prev pr st :
  clear st !! "point" = Some TNull
  ∧ clear st !! "extraInfo" = Some TNull
  ∧ clear st !! "height" = Some TNull
  ∧ clear st !! "elevation" = st !! "elevation"
  ∧ let st' := (componentDidUpdate E cfg prev pr (clear st)).1 in
    truthy (st' !! "point") = false ∨ st' !! "elevation" = Some TNull.
Proof.
  destruct (clear_lookup st) as (H1 & H2 & H3 & H4).
  repeat split; try assumption.
  apply popup_opens_without_elevation, truthy_clear_point.
Qed.

(** C9 as stated does not hold: the elevation 412 is still in the state after
    [clear], but the right-click that opens the next popup sets it to
    [null]; the next popup does not show it. *)
Lemma elevation_reset_by_next_popup :
  let st1 := clear open_popup in
  let st2 := (componentDidUpdate sample_externals sample_config
                (sample_props true (Some (click_at 10 20)))
                (sample_props true (Some (click_at 30 40))) st1).1 in
  st1 !! "elevation" = Some (TNum (Num (inject_Z 412)))
  ∧ st2 !! "point" = Some (TPoint (click_at 30 40))
  ∧ st2 !! "elevation" = Some TNull.
Proof. vm_compute. auto. Qed.

Lemma pixel_differs_false a b :
  pixel_differs a b = false ↔ (fst a == fst b)%Q ∧ (snd a == snd b)%Q.
Proof.
  unfold pixel_differs. rewrite orb_false_iff, !negb_false_iff, !Qeq_bool_iff.
  tauto.
Qed.

(** C3, as amended: on a right-click whose pixel differs from the previous
    click's (or with no previous click), and with the tool enabled or no
    point stored, the update stores the clicked point and sets the elevation
    to [null]; the requests it issues are returned with that state, their
    handlers run later. On a click whose pixel equals the previous click's
    no request is issued. *)
Theorem right_click_update E cfg prev pr st newPoint :
  map_click (map pr) = Some newPoint →
  let r := componentDidUpdate E cfg prev pr st in
  (button newPoint = 2%Z →
   enabled pr = true ∨ truthy (st !! "point") = false →
   match map_click (map prev) with
   | Some oldPoint => pixel_differs (pixel oldPoint) (pixel newPoint) = true
   | None => True
   end →
   r.1 !! "point" = Some (TPoint newPoint) ∧ r.1 !! "elevation" = Some TNull)
  ∧ (∀ oldPoint, map_click (map prev) = Some oldPoint →
     (fst (pixel oldPoint) == fst (pixel newPoint))%Q →
     (snd (pixel oldPoint) == snd (pixel newPoint))%Q →
     r.2 = []).
Proof.
  intros Hclick r. subst r. unfold componentDidUpdate. rewrite Hclick. split.
  - intros Hb Hen Hpx.
    assert (Hguard : negb (enabled pr) && truthy (st !! "point") = false).
    { destruct Hen as [-> | ->]; [reflexivity|apply andb_false_r]. }
    rewrite Hguard, Hb. cbn [Z.eqb Pos.eqb negb].
    assert (Hch : match map_click (map prev) with
                  | Some oldPoint => pixel_differs (pixel oldPoint) (pixel newPoint)
                  | None => true end = true).
    { destruct (map_click (map prev)); [exact Hpx|reflexivity]. }
    rewrite Hch. cbn [fst]. split; tooltip_lookup; reflexivity.
  - intros oldPoint Hold Hx Hy.
    destruct (negb (enabled pr) && truthy (st !! "point")); [reflexivity|].
    destruct (negb (button newPoint =? 2)%Z); [reflexivity|].
    rewrite Hold. rewrite (proj2 (pixel_differs_false _ _) (conj Hx Hy)).
    reflexivity.
Qed.

Lemma right_click_update_witness :
  let r := componentDidUpdate sample_externals sample_config
             (sample_props true (Some (click_at 10 20)))
             (sample_props true (Some (click_at 30 40))) open_popup in
  r.1 !! "point" = Some (TPoint (click_at 30 40)) ∧ r.1 !! "elevation" = Some TNull.
Proof.
  refine (proj1 (right_click_update sample_externals sample_config
            (sample_props true (Some (click_at 10 20)))
            (sample_props true (Some (click_at 30 40))) open_popup
            (click_at 30 40) eq_refl) eq_refl (or_introl eq_refl) _).
  vm_compute. reflexivity.
Defined.

(** C3 as stated does not hold: a right-click at a new pixel leaves the
    map-info rows of the previous click in the state; and with the tool
    disabled and a point stored, the click is not recorded, the popup is
    cleared instead. *)
Lemma right_click_not_always_recorded_or_cleared :
  (let r := componentDidUpdate sample_externals sample_config
             (sample_props true (Some (click_at 10 20)))
             (sample_props true (Some (click_at 30 40))) open_popup in
   r.1 !! "extraInfo" = Some (TRows [("Parcel", "1234")]))
  ∧ (let r := componentDidUpdate sample_externals sample_config
             (sample_props false (Some (click_at 10 20)))
             (sample_props false (Some (click_at 30 40))) open_popup in
   r.1 !! "point" = Some TNull).
Proof. vm_compute. auto. Qed.

Lemma render_info E pr st p :
  render E pr st = Some p →
  ∃ c, st !! "point" = Some (TPoint c)
       ∧ info p = (coordinate_rows E pr c ++ elevation_rows E st ++ extra_rows st)%list.
Proof.
  unfold render. destruct (st !! "point") as [[|c| |]|]; try discriminate.
  intros [= <-]. exists c. split; reflexivity.
Qed.

Lemma truthy_zero q : (q == 0)%Q → truthy (Some (TNum (Num q))) = false.
Proof.
  intros Hq. cbn. apply negb_false_iff, Qeq_bool_iff, Hq.
Qed.

Lemma onElevation_lookup E precision e st :
  onElevation E precision e st !! "elevation"
  = Some (TNum (rounded_elevation E precision e))
  ∧ onElevation E precision e st !! "point" = st !! "point"
  ∧ onElevation E precision e st !! "extraInfo" = st !! "extraInfo".
Proof. unfold onElevation. repeat split; tooltip_lookup; reflexivity. Qed.

(** C10: in a rendered popup the elevation row is there when the stored
    elevation is truthy and is left out when it is falsy; after an elevation
    response whose rounded value is zero the rows of the popup are the
    coordinate rows followed by the map-info rows, without an elevation
    row. *)
Theorem elevation_row_iff_truthy E pr st p :
  render E pr st = Some p →
  ∃ c, st !! "point" = Some (TPoint c)
  ∧ (truthy (st !! "elevation") = true →
       info p = (coordinate_rows E pr c ++ elevation_row E st :: extra_rows st)%list)
  ∧ (truthy (st !! "elevation") = false →
       info p = (coordinate_rows E pr c ++ extra_rows st)%list)
  ∧ (∀ precision e q p',
       rounded_elevation E precision e = Num q → (q == 0)%Q →
       render E pr (onElevation E precision e st) = Some p' →
       info p' = (coordinate_rows E pr c ++ extra_rows st)%list).
Proof.
  intros Hr. destruct (render_info _ _ _ _ Hr) as (c & Hc & Hinfo).
  exists c. split; [exact Hc|]. unfold elevation_rows in Hinfo.
  split; [|split].
  - intros Ht. rewrite Ht in Hinfo. exact Hinfo.
  - intros Ht. rewrite Ht in Hinfo. exact Hinfo.
  - intros precision e q p' Hround Hq Hr'.
    destruct (render_info _ _ _ _ Hr') as (c' & Hc' & Hinfo').
    destruct (onElevation_lookup E precision e st) as (He & Hp & Hx).
    rewrite Hp, Hc in Hc'. injection Hc' as <-.
    unfold elevation_rows, extra_rows in Hinfo'.
    rewrite He, Hround, (truthy_zero q Hq), Hx in Hinfo'. exact Hinfo'.
Qed.

Lemma elevation_row_iff_truthy_witness :
  let E := sample_externals in
  let pr := sample_props true (Some (click_at 10 20)) in
  ∃ p, render E pr open_popup = Some p
  ∧ ∃ c, open_popup !! "point" = Some (TPoint c)
    ∧ (truthy (open_popup !! "elevation") = true →
         info p = (coordinate_rows E pr c
                     ++ elevation_row E open_popup :: extra_rows open_popup)%list)
    ∧ (truthy (open_popup !! "elevation") = false →
         info p = (coordinate_rows E pr c ++ extra_rows open_popup)%list)
    ∧ (∀ precision e q p',
         rounded_elevation E precision e = Num q → (q == 0)%Q →
         render E pr (onElevation E precision e open_popup) = Some p' →
         info p' = (coordinate_rows E pr c ++ extra_rows open_popup)%list).
Proof.
  eexists. split; [reflexivity|].
  apply (elevation_row_iff_truthy sample_externals
           (sample_props true (Some (click_at 10 20))) open_popup).
  reflexivity.
Defined.

(** An elevation of 0.4 m at precision 0 is stored as zero and not shown. *)
Lemma zero_elevation_example :
  let E := sample_externals in
  let pr := sample_props true (Some (click_at 10 20)) in
  info <$> render E pr (onElevation E 0 (Num (2 # 5)) open_popup)
  = Some [("EPSG:2056", ""); ("EPSG:3857", ""); ("EPSG:4326", ""); ("Parcel", "1234")].
Proof. vm_compute. reflexivity. Qed.

End MapInfoTooltipFacts.

(** ** components/QtDesignerForm.jsx, continued *)
Module QtDesignerFormMoreFacts.
Import JS JSFacts QtDesignerForm QtDesignerFormFacts QtDesignerFormMore Samples.

(** *** Names, property lists, messages and dates *)

Lemma split_dunder_nonempty s : split_dunder s ≠ [].
Proof.
  destruct s as [|c s]; [discriminate|].
  rewrite split_dunder_cons. cbv zeta.
  destruct (split_dunder s) as [|t ts];
    destruct (Ascii.eqb c underscore); try discriminate;
    destruct s as [|c' rest]; try discriminate;
    destruct (Ascii.eqb c' underscore); discriminate.
Qed.

Lemma join_push_char sep c t ts :
  join sep (String c t :: ts) = String c (join sep (t :: ts)).
Proof. destruct ts; reflexivity. Qed.

Lemma join_split_step s :
  join "__" (split_dunder s) = s
  ∧ ∀ c, join "__" (split_dunder (String c s)) = String c s.
Proof.
  induction s as [|c' s IH].
  - split; [reflexivity|]. intros c. rewrite split_dunder_cons. cbv zeta.
    destruct (Ascii.eqb c underscore); reflexivity.
  - destruct IH as [IHs IHc]. split; [apply IHc|].
    intros c. rewrite split_dunder_cons. cbv zeta.
    assert (Hkeep : join "__" match split_dunder (String c' s) with
                              | t :: ts => String c t :: ts
                              | [] => [String c ""]
                              end = String c (String c' s)).
    { pose proof (split_dunder_nonempty (String c' s)) as Hne.
      specialize (IHc c').
      destruct (split_dunder (String c' s)) as [|t ts]; [contradiction|].
      rewrite join_push_char, IHc. reflexivity. }
    destruct (Ascii.eqb c underscore) eqn:Ec; [|exact Hkeep].
    destruct (Ascii.eqb c' underscore) eqn:Ec'; [|exact Hkeep].
    apply Ascii.eqb_eq in Ec, Ec'. subst c c'.
    pose proof (split_dunder_nonempty s) as Hne.
    destruct (split_dunder s) as [|t ts] eqn:Hs; [contradiction|].
    rewrite join_cons, IHs. reflexivity.
Qed.

(** Splitting at [__] and joining again gives the string back. *)
Lemma join_split_dunder s : join "__" (split_dunder s) = s.
Proof. apply join_split_step. Qed.

Lemma reduce_props_snoc (l : raw_props) e :
  reduce_props (l ++ [e])%list = <[entry_key e := entry_value e]> (reduce_props l).
Proof. unfold reduce_props. rewrite foldl_app. reflexivity. Qed.

(** [reduce_props], the reduction of a property list to an object: each key
    holds the value of the last element of the list carrying that name, and
    no other key is there. *)
Theorem reduce_props_lookup entries k :
  reduce_props entries !! k = entry_value <$> last_entry k entries.
Proof.
  unfold last_entry.
  induction entries as [|e l IH] using rev_ind; [reflexivity|].
  rewrite reduce_props_snoc, rev_app_distr. cbn [rev app find].
  destruct (String.eqb_spec (entry_key e) k) as [->|Hne].
  - apply lookup_insert_eq.
  - rewrite lookup_insert_ne by exact Hne. exact IH.
Qed.

Lemma append_assoc (a b c : string) : (a +:+ b) +:+ c = a +:+ (b +:+ c).
Proof.
  induction a as [|x a IH]; [reflexivity|].
  change (String x ((a +:+ b) +:+ c) = String x (a +:+ (b +:+ c))).
  rewrite IH. reflexivity.
Qed.

Lemma append_empty_r (a : string) : a +:+ "" = a.
Proof.
  induction a as [|x a IH]; [reflexivity|].
  change (String x (a +:+ "") = String x a). rewrite IH. reflexivity.
Qed.

(** [buildErrMsg]: the message begins with the record's [error], and nothing
    follows it exactly when the three lists of details are all empty (or
    there are no details). *)
Theorem buildErrMsg_base rec :
  let d := default no_details (record_error_details rec) in
  ∃ rest, buildErrMsg rec = error rec +:+ rest
          ∧ (rest = "" ↔ isEmpty (geometry_errors d) && isEmpty (data_errors d)
                           && isEmpty (validation_errors d) = true).
Proof.
  unfold buildErrMsg. set (d := default no_details (record_error_details rec)).
  cbv zeta.
  destruct (isEmpty (geometry_errors d)), (isEmpty (data_errors d)),
    (isEmpty (validation_errors d)); cbn [negb andb];
    rewrite ?append_assoc;
    try (eexists; split; [reflexivity|]; split; discriminate).
  exists "". split; [symmetry; apply append_empty_r|]. split; reflexivity.
Qed.

Lemma two_digits_slice n :
  (n < 100)%nat → slice_last2 ("0" +:+ pretty n) = two_digits n.
Proof.
  intros Hn.
  assert (H : forallb (fun n => String.eqb (slice_last2 ("0" +:+ pretty n)) (two_digits n))
                      (seq 0 100) = true) by (vm_compute; reflexivity).
  rewrite forallb_forall in H. apply String.eqb_eq, H, in_seq. lia.
Qed.

(** [dateConstraint]: for a month and a day below 100 the result is
    [year-MM-DD], month and day written with two digits, which read back
    as the numbers they came from. *)
Theorem dateConstraint_zero_padded y m d :
  (m < 100)%nat → (d < 100)%nat →
  dateConstraint {| year := y; month := pretty m; day := pretty d |}
  = y +:+ "-" +:+ two_digits m +:+ "-" +:+ two_digits d
  ∧ String.length (two_digits m) = 2%nat
  ∧ parseInt10 (Some (two_digits m)) = Some (Z.of_nat m).
Proof.
  intros Hm Hd. unfold dateConstraint. cbn [year month day].
  rewrite !two_digits_slice by assumption. split; [reflexivity|].
  assert (H : forallb (fun n => Nat.eqb (String.length (two_digits n)) 2
                                && bool_decide (parseInt10 (Some (two_digits n))
                                                = Some (Z.of_nat n)))
                      (seq 0 100) = true) by (vm_compute; reflexivity).
  rewrite forallb_forall in H. specialize (H m ltac:(apply in_seq; lia)).
  apply andb_prop in H as [H1 H2].
  apply Nat.eqb_eq in H1. apply bool_decide_eq_true in H2. auto.
Qed.

Lemma dateConstraint_zero_padded_witness :
  dateConstraint {| year := "2024"; month := pretty 3%nat; day := pretty 17%nat |}
  = "2024" +:+ "-" +:+ two_digits 3 +:+ "-" +:+ two_digits 17
  ∧ String.length (two_digits 3) = 2%nat
  ∧ parseInt10 (Some (two_digits 3)) = Some (Z.of_nat 3).
Proof. apply (dateConstraint_zero_padded "2024" 3 17); lia. Defined.

(** A combo box named [kvrel__<reltable>__<attr>__<table>__<key>__<value>]
    (six tokens): the field is [<reltable>__<attr>], the key-value relation
    is [mapPrefix + <table>:<key>:<value>], and nothing is rendered when the
    widget is not visible. *)
Theorem kvrel_relation_scoped pr ext feat nt w rt a b c d :
  w_name w = Some (kvrel_rel_name rt a b c d) →
  tokens_ok [rt; a; b; c; d] = true →
  renderWidget_QComboBox pr ext feat nt w =
    if String.eqb (String_of (props_of w !! "visible")) "false" then None
    else Some (KeyValCombo (rt +:+ "__" +:+ a) (rt +:+ "__" +:+ a)
                 (mapPrefix pr +:+ b +:+ ":" +:+ c +:+ ":" +:+ d)
                 (nt (rt +:+ "__" +:+ a))
                 (bool_decide (w_allowMulti w = Some "true"))
                 (or_empty (default ∅ (properties feat) !! (rt +:+ "__" +:+ a)))).
Proof.
  intros Hname Htok.
  assert (Hsplit : split_dunder (kvrel_rel_name rt a b c d)
                   = ["kvrel"; rt; a; b; c; d]).
  { apply split_join. exact Htok. }
  unfold renderWidget_QComboBox, name_of. rewrite Hname.
  change (default "" (Some ?x)) with x.
  destruct (String.eqb _ "false"); [reflexivity|].
  change (startsWith (kvrel_rel_name rt a b c d) "ext__") with false.
  cbv iota. rewrite Hsplit. reflexivity.
Qed.

Lemma kvrel_relation_scoped_witness :
  renderWidget_QComboBox (sample_props "map.") ∅ (p_feature (sample_props "map."))
      (fun n => n +:+ "__0") (combo_widget "kvrel__rel__a__b__c__d")
  = Some (KeyValCombo "rel__a" "rel__a" "map.b:c:d" "rel__a__0" false (FStr "")).
Proof.
  exact (kvrel_relation_scoped (sample_props "map.") ∅
           (p_feature (sample_props "map.")) (fun n => n +:+ "__0")
           (combo_widget "kvrel__rel__a__b__c__d") "rel" "a" "b" "c" "d"
           eq_refl eq_refl).
Defined.

(** *** computeLayoutColumns *)

Lemma columns_step_auto_item useIndex hasSpacer cols hasAuto index it :
  columns_step useIndex hasSpacer (cols, hasAuto) index it =
    let col := item_column useIndex index it in
    if auto_item useIndex hasSpacer it then (arr_set cols col (CStr "auto"), true)
    else (arr_set cols col (or_null (arr_get cols col)), hasAuto).
Proof.
  unfold columns_step, auto_item.
  destruct (is_hspacer it); [reflexivity|]. cbn [orb].
  destruct (negb hasSpacer && _ && _); reflexivity.
Qed.

Lemma columns_fold_auto useIndex hasSpacer items : ∀ index cols hasAuto (S : list Z),
  columns_inv S cols →
  let r := forEach_index (columns_step useIndex hasSpacer) index items (cols, hasAuto) in
  columns_inv (S ++ auto_columns useIndex hasSpacer index items) r.1
  ∧ r.2 = hasAuto || existsb (auto_item useIndex hasSpacer) items.
Proof.
  induction items as [|it items IH]; intros index cols hasAuto S Hinv.
  - cbn. rewrite app_nil_r, orb_false_r. auto.
  - cbn [forEach_index auto_columns existsb].
    rewrite columns_step_auto_item. cbv zeta.
    destruct (auto_item useIndex hasSpacer it) eqn:Hsp.
    + specialize (IH (Datatypes.S index) _ true _
                     (columns_inv_auto _ _ (item_column useIndex index it) Hinv)).
      cbv zeta in IH. rewrite <- app_assoc in IH. destruct IH as [IH1 IH2].
      split; [exact IH1|]. rewrite IH2, orb_true_r. reflexivity.
    + specialize (IH (Datatypes.S index) _ hasAuto _
                     (columns_inv_keep _ _ (item_column useIndex index it) Hinv)).
      cbv zeta in IH. destruct IH as [IH1 IH2].
      split; [exact IH1|]. rewrite IH2. reflexivity.
Qed.

(** The entries of the result. *)
Lemma computeLayoutColumns_entry items useIndex c v :
  computeLayoutColumns items useIndex !! c = Some v →
  let hasSpacer := existsb is_hspacer items in
  v = if existsb (auto_item useIndex hasSpacer) items then
        if bool_decide (Z.of_nat c ∈ auto_columns useIndex hasSpacer 0 items)
        then "auto"
        else "fit-content("
             +:+ round_percent (length (computeLayoutColumns items useIndex)) +:+ "%)"
      else "auto".
Proof.
  unfold computeLayoutColumns.
  pose proof (columns_fold_auto useIndex (existsb is_hspacer items) items 0 [] false []
                columns_inv_nil) as H.
  cbv zeta in H.
  destruct (forEach_index _ 0 items ([], false)) as [cols hasAuto].
  cbn [fst snd] in H. destruct H as [(_ & _ & Hc) ->]. cbn [orb].
  rewrite length_map, list_lookup_fmap.
  destruct (cols !! c) as [x|] eqn:Hx; [|discriminate].
  intros [= <-]. cbv zeta.
  destruct (existsb (auto_item useIndex (existsb is_hspacer items)) items); [|reflexivity].
  destruct (Hc c x Hx) as [H1 H2]. cbn [app] in *.
  case_bool_decide as Hin.
  - rewrite (H1 Hin). reflexivity.
  - destruct (H2 Hin) as [-> | ->]; reflexivity.
Qed.

Lemma auto_columns_item_columns useIndex hasSpacer items : ∀ index z,
  z ∈ auto_columns useIndex hasSpacer index items →
  z ∈ imap (fun i => item_column useIndex (index + i)%nat) items.
Proof.
  induction items as [|x items IH]; intros index z Hz; [inversion Hz|].
  cbn [auto_columns imap] in *. rewrite Nat.add_0_r.
  apply elem_of_app in Hz as [Hz|Hz].
  - destruct (auto_item useIndex hasSpacer x); [|inversion Hz].
    apply list_elem_of_singleton in Hz as ->. left.
  - right. specialize (IH _ _ Hz).
    erewrite imap_ext; [exact IH|]. intros i y _. cbn. f_equal. lia.
Qed.

(** [computeLayoutColumns], every case: the result has one entry for every
    column up to the last one an item sits in. When some item makes its
    column ['auto'] (a horizontal spacer; or, no spacer in the layout, an
    item of span 1 whose class is not in [hFitWidgets]), the columns of such
    items are ['auto'] and all others [fit-content]; when no item does,
    every column is ['auto']. *)
Theorem computeLayoutColumns_rule items useIndex :
  let hasSpacer := existsb is_hspacer items in
  let n := extent 0 (item_columns useIndex items) in
  computeLayoutColumns items useIndex
  = map (fun c =>
           if existsb (auto_item useIndex hasSpacer) items then
             if bool_decide (Z.of_nat c ∈ auto_columns useIndex hasSpacer 0 items)
             then "auto"
             else "fit-content(" +:+ round_percent n +:+ "%)"
           else "auto")
        (seq 0 n)
  ∧ ∀ z, z ∈ auto_columns useIndex hasSpacer 0 items → is_array_index z = true →
      computeLayoutColumns items useIndex !! Z.to_nat z = Some "auto".
Proof.
  intros hasSpacer n.
  match goal with |- ?l = map ?f _ ∧ _ => assert (Heq : l = map f (seq 0 n)) end.
  { apply list_eq_map_seq; [apply computeLayoutColumns_length|].
    intros c v Hv. subst n. rewrite <- computeLayoutColumns_length.
    exact (computeLayoutColumns_entry items useIndex c v Hv). }
  split; [exact Heq|].
  intros z Hz Hi. rewrite Heq, list_lookup_fmap.
  assert (Hlt : (Z.to_nat z < n)%nat).
  { apply extent_index; [|exact Hi].
    apply (auto_columns_item_columns useIndex hasSpacer items 0 z Hz). }
  rewrite lookup_seq_lt by exact Hlt. cbn.
  apply is_array_index_spec in Hi. rewrite Z2Nat.id by lia.
  rewrite bool_decide_eq_true_2 by exact Hz.
  assert (Hex : existsb (auto_item useIndex hasSpacer) items = true).
  { clearbody hasSpacer. clear -Hz. revert Hz. generalize 0%nat.
    induction items as [|x items IH]; intros index Hz; [inversion Hz|].
    cbn [auto_columns existsb] in *. apply elem_of_app in Hz as [Hz|Hz].
    - destruct (auto_item useIndex hasSpacer x); [reflexivity|inversion Hz].
    - rewrite (IH _ Hz). apply orb_true_r. }
  rewrite Hex. reflexivity.
Qed.

Lemma computeLayoutColumns_rule_witness :
  let items := [label_item; hspacer_item] in
  computeLayoutColumns items false = ["fit-content(50%)"; "auto"]
  ∧ ∀ z, z ∈ auto_columns false (existsb is_hspacer items) 0 items →
      is_array_index z = true →
      computeLayoutColumns items false !! Z.to_nat z = Some "auto".
Proof.
  pose proof (computeLayoutColumns_rule [label_item; hspacer_item] false) as H.
  cbv zeta in H. destruct H as [H1 H2].
  split; [rewrite H1; reflexivity|exact H2].
Defined.

(** Writing at the end of an array appends. *)
Lemma arr_set_append cols v :
  (Z.of_nat (length cols) < 2 ^ 32 - 1)%Z →
  arr_set cols (Z.of_nat (length cols)) v = (cols ++ [v])%list.
Proof.
  intros Hb. unfold arr_set.
  rewrite (proj2 (is_array_index_spec _)) by lia.
  rewrite Nat2Z.id, Nat.ltb_irrefl, Nat.sub_diag. reflexivity.
Qed.

Lemma arr_get_end cols : arr_get cols (Z.of_nat (length cols)) = CUndefined.
Proof.
  unfold arr_get. destruct (is_array_index _); [|reflexivity].
  rewrite Nat2Z.id, lookup_ge_None_2 by lia. reflexivity.
Qed.

Lemma columns_fold_box hasSpacer items : ∀ cols hasAuto,
  (Z.of_nat (length cols + length items) ≤ 2 ^ 32 - 1)%Z →
  forEach_index (columns_step true hasSpacer) (length cols) items (cols, hasAuto)
  = ((cols ++ map (box_cell hasSpacer) items)%list,
     hasAuto || existsb (auto_item true hasSpacer) items).
Proof.
  induction items as [|it items IH]; intros cols hasAuto Hb.
  - cbn. rewrite app_nil_r, orb_false_r. reflexivity.
  - cbn [forEach_index]. rewrite columns_step_auto_item. cbv zeta.
    unfold item_column. cbn [length] in Hb.
    rewrite arr_get_end, !arr_set_append by lia.
    cbn [or_null map existsb].
    assert (Hcell : box_cell hasSpacer it
                    = if auto_item true hasSpacer it then CStr "auto" else CNull)
      by reflexivity.
    destruct (auto_item true hasSpacer it).
    + specialize (IH (cols ++ [CStr "auto"])%list true).
      rewrite length_app in IH. cbn [length] in IH.
      rewrite Nat.add_1_r in IH. rewrite IH by lia.
      rewrite <- app_assoc, Hcell, orb_true_r. reflexivity.
    + specialize (IH (cols ++ [CNull])%list hasAuto).
      rewrite length_app in IH. cbn [length] in IH.
      rewrite Nat.add_1_r in IH. rewrite IH by lia.
      rewrite <- app_assoc, Hcell. reflexivity.
Qed.

(** [computeLayoutColumns] with [useIndex] (box layouts): one column per item,
    in order, sized by that item alone. *)
Theorem computeLayoutColumns_box items :
  (Z.of_nat (length items) ≤ 2 ^ 32 - 1)%Z →
  let hasSpacer := existsb is_hspacer items in
  let fit := "fit-content(" +:+ round_percent (length items) +:+ "%)" in
  computeLayoutColumns items true =
    map (fun it =>
           if existsb (auto_item true hasSpacer) items then
             if auto_item true hasSpacer it then "auto" else fit
           else "auto") items.
Proof.
  intros Hb. unfold computeLayoutColumns.
  pose proof (columns_fold_box (existsb is_hspacer items) items [] false) as H.
  cbn [length Nat.add app orb] in H. rewrite H by exact Hb.
  rewrite length_map, map_map. apply map_ext. intros it.
  unfold box_cell.
  destruct (existsb (auto_item true _) items); [|reflexivity].
  destruct (auto_item true _ it); reflexivity.
Qed.

Lemma computeLayoutColumns_box_witness :
  computeLayoutColumns [label_item; hspacer_item] true =
    map (fun it =>
           if existsb (auto_item true (existsb is_hspacer [label_item; hspacer_item]))
                      [label_item; hspacer_item]
           then
             if auto_item true (existsb is_hspacer [label_item; hspacer_item]) it
             then "auto"
             else "fit-content(" +:+ round_percent (length [label_item; hspacer_item])
                  +:+ "%)"
           else "auto") [label_item; hspacer_item].
Proof. apply (computeLayoutColumns_box [label_item; hspacer_item]). cbn. lia. Defined.

(** *** computeLayoutRows *)

Lemma rows_inv_nil : rows_inv (fun _ => false) [].
Proof.
  split; [cbn; lia|]. split; [reflexivity|].
  intros c x Hx. rewrite lookup_nil in Hx. discriminate.
Qed.

Lemma rows_step_inv useIndex hasSpacer V rows index it :
  rows_inv V rows →
  rows_inv (fun r =>
              if (item_row useIndex index it =? r)%Z then
                match row_write_of useIndex hasSpacer it with
                | WriteAuto => true
                | WriteNull => false
                | Keep => V r
                end
              else V r)
           (rows_step useIndex hasSpacer rows index it).
Proof.
  intros (Hb & Hout & Hin). unfold rows_step.
  set (z := item_row useIndex index it).
  set (wr := row_write_of useIndex hasSpacer it).
  set (v := match wr with
            | WriteAuto => CStr "auto"
            | WriteNull => CNull
            | Keep => or_null (arr_get rows z)
            end).
  assert (Hv : rows_step useIndex hasSpacer rows index it = arr_set rows z v)
    by (unfold rows_step; fold z wr; subst v; destruct wr; reflexivity).
  replace (match wr with
           | WriteAuto => arr_set rows z (CStr "auto")
           | WriteNull => arr_set rows z CNull
           | Keep => arr_set rows z (or_null (arr_get rows z))
           end) with (arr_set rows z v) by (subst v; destruct wr; reflexivity).
  split; [apply length_arr_set, Hb|]. split.
  - intros c Hc Hvalid.
    pose proof (length_arr_set_ge rows z v) as Hge.
    destruct (Z.eqb_spec z (Z.of_nat c)) as [Hz|Hz].
    + exfalso. rewrite <- Hz in Hvalid.
      pose proof (length_arr_set_index rows z v Hvalid) as Hlt.
      assert (Z.to_nat z = c) by lia. lia.
    + apply Hout; [lia|exact Hvalid].
  - intros c x. rewrite lookup_arr_set.
    destruct (is_array_index z) eqn:Hi.
    + pose proof Hi as Hi'. apply is_array_index_spec in Hi'.
      destruct (decide (c = Z.to_nat z)) as [->|Hne].
      * intros [= <-]. rewrite Z2Nat.id by lia. rewrite Z.eqb_refl.
        subst v. destruct wr; [reflexivity|left; reflexivity|].
        unfold arr_get. rewrite Hi.
        destruct (rows !! Z.to_nat z) as [y|] eqn:Hy; cbn [default].
        -- specialize (Hin _ _ Hy). rewrite Z2Nat.id in Hin by lia.
           destruct (V z); [rewrite Hin; reflexivity|].
           left. destruct Hin as [-> | ->]; reflexivity.
        -- apply lookup_ge_None_1 in Hy.
           specialize (Hout _ Hy). rewrite Z2Nat.id in Hout by lia.
           rewrite (Hout Hi). left. reflexivity.
      * assert (Hz : (z =? Z.of_nat c)%Z = false) by (apply Z.eqb_neq; lia).
        rewrite Hz.
        destruct (decide (c < length rows)%nat); [apply Hin|].
        destruct (decide (c < Z.to_nat z)%nat); [|discriminate].
        intros [= <-]. rewrite Hout; [right; reflexivity|lia|].
        apply is_array_index_spec. lia.
    + intros Hx.
      assert (c < length rows)%nat by (eapply lookup_lt_Some; eauto).
      assert (Hz : (z =? Z.of_nat c)%Z = false).
      { apply Z.eqb_neq. intros ->.
        assert (is_array_index (Z.of_nat c) = true)
          by (apply is_array_index_spec; lia). congruence. }
      rewrite Hz. apply Hin, Hx.
Qed.

Lemma rows_fold useIndex hasSpacer items : ∀ index rows V,
  rows_inv V rows →
  rows_inv (fun r => row_verdict useIndex hasSpacer r index items (V r))
           (forEach_index (rows_step useIndex hasSpacer) index items rows).
Proof.
  induction items as [|it items IH]; intros index rows V Hinv; [exact Hinv|].
  cbn [forEach_index row_verdict].
  exact (IH (Datatypes.S index) _ _ (rows_step_inv useIndex hasSpacer V rows index it Hinv)).
Qed.

(** The entries of the result. *)
Lemma computeLayoutRows_entry items useIndex r v :
  computeLayoutRows items useIndex !! r = Some v →
  v = if row_verdict useIndex (existsb is_vspacer items) (Z.of_nat r) 0 items false
      then "auto"
      else "fit-content("
           +:+ round_percent (length (computeLayoutRows items useIndex)) +:+ "%)".
Proof.
  unfold computeLayoutRows.
  pose proof (rows_fold useIndex (existsb is_vspacer items) items 0 [] _ rows_inv_nil)
    as (_ & _ & Hin).
  rewrite length_map, list_lookup_fmap.
  destruct (forEach_index _ 0 items [] !! r) as [x|] eqn:Hx; [|discriminate].
  intros [= <-]. specialize (Hin r x Hx). cbv beta in Hin.
  destruct (row_verdict _ _ _ 0 items false).
  - rewrite Hin. reflexivity.
  - destruct Hin as [-> | ->]; reflexivity.
Qed.

Lemma rows_step_length useIndex hasSpacer rows index it :
  length (rows_step useIndex hasSpacer rows index it)
  = if is_array_index (item_row useIndex index it) then
      max (length rows) (Datatypes.S (Z.to_nat (item_row useIndex index it)))
    else length rows.
Proof.
  unfold rows_step. destruct (row_write_of useIndex hasSpacer it);
    apply length_arr_set_eq.
Qed.

Lemma computeLayoutRows_length items useIndex :
  length (computeLayoutRows items useIndex) = extent 0 (item_rows useIndex items).
Proof.
  unfold computeLayoutRows, item_rows. rewrite length_map.
  rewrite (forEach_index_length _ (item_row useIndex) items
             (rows_step_length useIndex (existsb is_vspacer items)) 0 []).
  reflexivity.
Qed.

(** [computeLayoutRows]: the result has one entry for every row up to the
    last one an item sits in. A row is ['auto'] when the last item of that
    row that writes it (a vertical spacer, a relation widget, an item with
    a layout, a widget that does not fit) writes ['auto'], and
    [fit-content] otherwise; rows without item are [fit-content] too. The
    row of every item has its entry. *)
Theorem computeLayoutRows_rule items useIndex :
  let n := extent 0 (item_rows useIndex items) in
  computeLayoutRows items useIndex
  = map (fun r =>
           if row_verdict useIndex (existsb is_vspacer items) (Z.of_nat r) 0 items false
           then "auto"
           else "fit-content(" +:+ round_percent n +:+ "%)")
        (seq 0 n)
  ∧ ∀ z, z ∈ item_rows useIndex items → is_array_index z = true →
      is_Some (computeLayoutRows items useIndex !! Z.to_nat z).
Proof.
  intros n. split.
  - apply list_eq_map_seq; [apply computeLayoutRows_length|].
    intros r v Hv. subst n. rewrite <- computeLayoutRows_length.
    exact (computeLayoutRows_entry items useIndex r v Hv).
  - intros z Hz Hi. apply lookup_lt_is_Some.
    rewrite computeLayoutRows_length. apply extent_index; assumption.
Qed.

Lemma computeLayoutRows_rule_witness :
  let items := [label_item; vspacer_item] in
  computeLayoutRows items false = ["fit-content(50%)"; "auto"]
  ∧ ∀ z, z ∈ item_rows false items → is_array_index z = true →
      is_Some (computeLayoutRows items false !! Z.to_nat z).
Proof.
  pose proof (computeLayoutRows_rule [label_item; vspacer_item] false) as H.
  cbv zeta in H. destruct H as [H1 H2].
  split; [rewrite H1; reflexivity|exact H2].
Defined.

(** *** The verticalFill flags *)

Lemma forEachS_flags {A B S W} (f : nat → A → S → B * bool * S)
    (nodes : B → list W) (Q : W → Prop) (R : B → Prop) (fl : B → bool) (l : list A) :
  Forall (fun x => ∀ i st,
            (f i x st).1.2 = fl (f i x st).1.1
            ∧ R (f i x st).1.1
            ∧ Forall Q (nodes (f i x st).1.1)) l →
  ∀ i st,
    (forEachS f i l st).1.2 = existsb fl (forEachS f i l st).1.1
    ∧ Forall R (forEachS f i l st).1.1
    ∧ Forall Q (flat_map nodes (forEachS f i l st).1.1).
Proof.
  induction 1 as [|x l Hx _ IH]; intros i st.
  - cbn. repeat split; constructor.
  - cbn [forEachS]. specialize (Hx i st).
    destruct (f i x st) as [[y b] st1]. specialize (IH (Datatypes.S i) st1).
    destruct (forEachS f (Datatypes.S i) l st1) as [[ys b'] st2].
    cbn [fst snd flat_map existsb] in *.
    destruct Hx as (-> & HR & HQ). destruct IH as (-> & HRs & HQs).
    split; [reflexivity|]. split; [constructor; assumption|].
    apply Forall_app. split; assumption.
Qed.

Lemma name_or_fresh_layout_nonempty n st name st' :
  name_or n fresh_layout_name st = (name, st') → name ≠ "".
Proof.
  unfold name_or, fresh_layout_name.
  destruct n as [s|]; [destruct (truthy_str s) eqn:Hs|].
  - intros [= <- _]. destruct s; [discriminate|congruence].
  - intros [= <- _]. discriminate.
  - intros [= <- _]. discriminate.
Qed.

(** The flag returned by [reformatWidget] and [reformatLayout] is the
    [verticalFill] of the tree they leave, and every layout of that tree is
    normalised. *)
Lemma reformat_flags :
  (∀ w pr here forced st,
     (reformatWidget pr here forced w st).1.2
       = widget_fills (reformatWidget pr here forced w st).1.1
     ∧ Forall layout_normalised
              (widget_layouts (reformatWidget pr here forced w st).1.1))
  ∧ (∀ l pr here st,
     (reformatLayout pr here l st).1.2
       = layout_fills (reformatLayout pr here l st).1.1
     ∧ Forall layout_normalised
              (layout_layouts (reformatLayout pr here l st).1.1)).
Proof.
  pose (P0 := fun w : widget raw_props => ∀ pr here forced st,
     (reformatWidget pr here forced w st).1.2
       = widget_fills (reformatWidget pr here forced w st).1.1
     ∧ Forall layout_normalised
              (widget_layouts (reformatWidget pr here forced w st).1.1)).
  pose (P1 := fun l : layout raw_props => ∀ pr here st,
     (reformatLayout pr here l st).1.2
       = layout_fills (reformatLayout pr here l st).1.1
     ∧ Forall layout_normalised
              (layout_layouts (reformatLayout pr here l st).1.1)).
  pose (P3 := fun c : item_content raw_props =>
     match c with IWidget w => P0 w | ILayout l => P1 l | _ => True end).
  pose (P2 := fun it : item raw_props => P3 (i_content it)).
  assert (HW : (∀ w, P0 w) ∧ (∀ l, P1 l) ∧ (∀ i, P2 i) ∧ (∀ c, P3 c)).
  { apply (tree_mutind raw_props P0 P1 P2 P3); subst P0 P1 P2 P3; cbv beta.
    - intros class name property attribute allowMulti item Hitem layout Hlayout
             children Hchildren pr here forced st.
      apply list_all_Forall in Hitem, Hchildren.
      cbn [reformatWidget].
      pose proof (forEachS_flags
        (fun i it s => reformatWidget pr (here ++ [AtItem i])%list None it s)
        widget_layouts layout_normalised (fun _ => True) widget_fills item) as Hi.
      specialize (Hi ltac:(eapply Forall_impl; [exact Hitem|]; cbv beta;
                           intros x Hx i s; destruct (Hx pr (here ++ [AtItem i])%list None s);
                           auto) 0%nat st).
      destruct (forEachS _ 0 item st) as [[item' vf1] st1]. cbn [fst snd] in Hi.
      destruct Hi as (-> & _ & Hil).
      destruct (name_or _ fresh_widget_name st1) as [name' st2] eqn:Hname.
      match goal with |- context [set_widgets ?f ?x] => set (st3 := set_widgets f x) end.
      assert (Hl : ∃ layout' vf2 st4,
                (match layout with
                 | Some l =>
                     let '(l', vf, st') := reformatLayout pr (here ++ [AtLayout])%list l st3 in
                     (Some l', vf, st')
                 | None => (None, false, st3)
                 end) = (layout', vf2, st4)
                ∧ vf2 = match layout' with Some l' => layout_fills l' | None => false end
                ∧ Forall layout_normalised
                         (match layout' with Some l' => layout_layouts l' | None => [] end)
                ∧ bool_decide (is_Some layout') = bool_decide (is_Some layout)).
      { destruct layout as [l|].
        - inversion Hlayout as [l0 Hl0|]; subst.
          specialize (Hl0 pr (here ++ [AtLayout])%list st3).
          destruct (reformatLayout pr (here ++ [AtLayout])%list l st3) as [[l' vf] st'].
          cbn [fst snd] in Hl0. destruct Hl0 as [-> Hl0].
          eexists (Some l'), _, _.
          split; [reflexivity|]. split; [reflexivity|]. split; [exact Hl0|].
          rewrite !bool_decide_eq_true_2 by eauto. reflexivity.
        - eexists None, _, _.
          split; [reflexivity|]. split; [reflexivity|]. split; [constructor|].
          rewrite !bool_decide_eq_false_2 by (intros [? ?]; discriminate). reflexivity. }
      destruct Hl as (layout' & vf2 & st4 & -> & -> & Hll & Hsome).
      pose proof (forEachS_flags
        (fun i child s =>
           let '(n, s') := fresh_widget_name s in
           reformatWidget pr (here ++ [AtChild i])%list (Some n) child s')
        widget_layouts layout_normalised (fun _ => True) widget_fills children) as Hc.
      specialize (Hc ltac:(eapply Forall_impl; [exact Hchildren|]; cbv beta;
                           intros x Hx i s; destruct (fresh_widget_name s) as [n s'];
                           destruct (Hx pr (here ++ [AtChild i])%list (Some n) s'); auto)
                     0%nat st4).
      destruct (forEachS _ 0 children st4) as [[children' vf3] st5]. cbn [fst snd] in Hc.
      destruct Hc as (-> & _ & Hcl).
      cbn [fst snd widget_fills widget_layouts default].
      split.
      + rewrite Hsome. unfold id.
        destruct (startsWith name' "nrel__");
          destruct (negb (bool_decide (is_Some layout))
                    && negb (includes vFitWidgets class));
          cbn [orb]; rewrite ?orb_true_r, ?orb_false_r; reflexivity.
      + rewrite !Forall_app. auto.
    - intros class name item Hitem vf pr here st.
      apply list_all_Forall in Hitem.
      cbn [reformatLayout].
      destruct (name_or name fresh_layout_name st) as [name' st1] eqn:Hname.
      apply name_or_fresh_layout_nonempty in Hname.
      match goal with |- context [forEachS ?f 0 item st1] =>
        pose proof (forEachS_flags f item_layouts layout_normalised
                      (fun it => match i_content it with
                                 | ISpacer _ p => is_Some p
                                 | _ => True
                                 end) item_fills item) as Hi end.
      specialize (Hi ltac:(eapply Forall_impl; [exact Hitem|]; cbv beta;
        intros [r c rs cs [w|sn sp|l|]] Hx i s; cbn in Hx;
        [ specialize (Hx pr (here ++ [AtLayoutItem i])%list None s);
          destruct (reformatWidget pr (here ++ [AtLayoutItem i])%list None w s) as [[w' b] s'];
          cbn in *; destruct Hx; auto
        | cbn; repeat split; eauto
        | specialize (Hx pr (here ++ [AtLayoutItem i])%list s);
          destruct (reformatLayout pr (here ++ [AtLayoutItem i])%list l s) as [[l' b] s'];
          cbn in *; destruct Hx; auto
        | cbn; auto ]) 0%nat st1).
      destruct (forEachS _ 0 item st1) as [[item' vf'] st2].
      cbn [fst snd] in *. destruct Hi as (-> & HR & HQ).
      split; [reflexivity|].
      constructor; [|exact HQ].
      split; [eauto|]. split; [reflexivity|exact HR].
    - intros r c rs cs content H. exact H.
    - intros w H. exact H.
    - intros; exact I.
    - intros l H. exact H.
    - exact I. }
  destruct HW as (H0 & H1 & _). split; assumption.
Qed.

(** *** The registries *)

Lemma registries_grow_refl st : registries_grow st st.
Proof. split; [|auto]. unfold registries_le. repeat split; auto. Qed.

Lemma registries_grow_trans a b c :
  registries_grow a b → registries_grow b c → registries_grow a c.
Proof.
  intros [(A1 & A2 & A3 & A4 & A5 & A6 & A7 & A8) Ab]
         [(B1 & B2 & B3 & B4 & B5 & B6 & B7 & B8) Bb].
  split; [|auto].
  unfold registries_le. repeat split; try (etrans; eassumption); lia.
Qed.

Lemma registered_grow pr st st' w :
  registries_grow st st' → registered pr st w → registered pr st' w.
Proof.
  intros [(A1 & A2 & A3 & A4 & A5 & A6 & A7 & A8) _]
         (name & Hn & H1 & H2 & H3 & H4 & H5 & H6).
  exists name. repeat split; auto.
Qed.

Lemma grow_set_fields k v st : registries_grow st (set_fields <[k:=v]> st).
Proof.
  split; [|auto]. unfold registries_le. cbn. rewrite dom_insert_L.
  repeat split; auto. apply union_subseteq_r.
Qed.
Lemma grow_set_buttons k v st : registries_grow st (set_buttons <[k:=v]> st).
Proof.
  split; [|auto]. unfold registries_le. cbn. rewrite dom_insert_L.
  repeat split; auto. apply union_subseteq_r.
Qed.
Lemma grow_set_nrels k v st : registries_grow st (set_nrels <[k:=v]> st).
Proof.
  split; [|auto]. unfold registries_le. cbn. rewrite dom_insert_L.
  repeat split; auto. apply union_subseteq_r.
Qed.
Lemma grow_set_widgets k v st : registries_grow st (set_widgets <[k:=v]> st).
Proof.
  split; [|auto]. unfold registries_le. cbn. rewrite dom_insert_L.
  repeat split; auto. apply union_subseteq_r.
Qed.
Lemma grow_set_relationTables k v st :
  registries_grow st (set_relationTables <[k:=v]> st).
Proof.
  split; [|auto]. unfold registries_le. cbn. rewrite dom_insert_L.
  repeat split; auto. apply union_subseteq_r.
Qed.
Lemma grow_set_externalFields k st :
  registries_grow st (set_externalFields <[k:=""]> st).
Proof.
  split.
  - unfold registries_le. cbn. rewrite dom_insert_L.
    repeat split; auto. apply union_subseteq_r.
  - intros Hb k' v. cbn. rewrite lookup_insert.
    case_decide; [intros [= <-]; reflexivity|apply Hb].
Qed.
Lemma grow_fresh_widget_name st : registries_grow st (fresh_widget_name st).2.
Proof.
  split; [|auto]. unfold registries_le. cbn. repeat split; auto.
Qed.
Lemma grow_fresh_layout_name st : registries_grow st (fresh_layout_name st).2.
Proof.
  split; [|auto]. unfold registries_le. cbn. repeat split; auto.
Qed.
Lemma grow_name_or_widget n st : registries_grow st (name_or n fresh_widget_name st).2.
Proof.
  unfold name_or. destruct n as [s|]; [destruct (truthy_str s)|];
    first [apply registries_grow_refl | apply grow_fresh_widget_name].
Qed.
Lemma grow_name_or_layout n st : registries_grow st (name_or n fresh_layout_name st).2.
Proof.
  unfold name_or. destruct n as [s|]; [destruct (truthy_str s)|];
    first [apply registries_grow_refl | apply grow_fresh_layout_name].
Qed.
Lemma grow_register_relation pr name st :
  registries_grow st (register_relation pr name st).
Proof.
  unfold register_relation. destruct (_ && _);
    [apply grow_set_relationTables|apply registries_grow_refl].
Qed.

Lemma forEachS_grow {A B W} (f : nat → A → registries → B * bool * registries)
    (nodes : B → list W) (Q : registries → W → Prop) (l : list A) :
  (∀ s s' x, registries_grow s s' → Q s x → Q s' x) →
  Forall (fun x => ∀ i st,
            registries_grow st (f i x st).2
            ∧ Forall (Q (f i x st).2) (nodes (f i x st).1.1)) l →
  ∀ i st,
    registries_grow st (forEachS f i l st).2
    ∧ Forall (Q (forEachS f i l st).2) (flat_map nodes (forEachS f i l st).1.1).
Proof.
  intros Hmono. induction 1 as [|x l Hx _ IH]; intros i st.
  - cbn. split; [apply registries_grow_refl|constructor].
  - cbn [forEachS]. specialize (Hx i st).
    destruct (f i x st) as [[y b] st1]. specialize (IH (Datatypes.S i) st1).
    destruct (forEachS f (Datatypes.S i) l st1) as [[ys b'] st2].
    cbn [fst snd flat_map] in *.
    destruct Hx as [Hg HQ]. destruct IH as [Hg' HQ'].
    split; [eapply registries_grow_trans; eassumption|].
    apply Forall_app. split; [|exact HQ'].
    eapply Forall_impl; [exact HQ|]. intros w. apply Hmono, Hg'.
Qed.

Lemma startsWith_btn_not_kvrel_img name :
  startsWith name "btn__" = true →
  startsWith name "kvrel__" || startsWith name "img__" = false.
Proof.
  unfold startsWith. destruct name as [|c name]; [discriminate|].
  cbn [String.prefix]. destruct (ascii_dec "b" c) as [<-|]; [|discriminate].
  intros _. reflexivity.
Qed.

Lemma startsWith_nrel_not_others name :
  startsWith name "nrel__" = true →
  startsWith name "kvrel__" || startsWith name "img__" = false
  ∧ startsWith name "btn__" = false.
Proof.
  unfold startsWith. destruct name as [|c name]; [discriminate|].
  cbn [String.prefix]. destruct (ascii_dec "n" c) as [<-|]; [|discriminate].
  intros _. split; reflexivity.
Qed.

Lemma grow_classify pr here name st : registries_grow st (classify pr here name st).
Proof.
  unfold classify.
  eapply registries_grow_trans; [|apply grow_set_widgets].
  eapply registries_grow_trans; [|destruct (startsWith name "ext__");
    [apply grow_set_externalFields|apply registries_grow_refl]].
  repeat (case_bool_decide || match goal with |- context [if ?c then _ else _] =>
            destruct c end);
    first [apply registries_grow_refl | apply grow_set_fields
          | apply grow_set_buttons | apply grow_set_nrels].
Qed.

Lemma classify_registers pr here name st :
  let st' := classify pr here name st in
  name ∈ dom (widgets st')
  ∧ (js_in name (p_fields pr) = true → name ∈ dom (fields st'))
  ∧ (startsWith name "ext__" = true → slice_from 5 name ∈ dom (externalFields st'))
  ∧ (js_in name (p_fields pr) = false → startsWith name "btn__" = true →
     part_key (split_dunder name) 1 ∈ dom (buttons st'))
  ∧ (js_in name (p_fields pr) = false → startsWith name "nrel__" = true →
     part_key (split_dunder name) 1 ∈ dom (nrels st')).
Proof.
  unfold classify. cbv zeta. repeat split.
  - cbn. rewrite dom_insert_L. apply elem_of_union_l, elem_of_singleton. reflexivity.
  - intros Hin. rewrite Hin.
    destruct (startsWith name "ext__"); cbn; rewrite dom_insert_L;
      apply elem_of_union_l, elem_of_singleton; reflexivity.
  - intros ->. cbn. rewrite dom_insert_L.
    apply elem_of_union_l, elem_of_singleton. reflexivity.
  - intros Hnot Hbtn. rewrite Hnot.
    rewrite (startsWith_btn_not_kvrel_img _ Hbtn), Hbtn.
    destruct (startsWith name "ext__"); cbn; rewrite dom_insert_L;
      apply elem_of_union_l, elem_of_singleton; reflexivity.
  - intros Hnot Hnrel. rewrite Hnot.
    destruct (startsWith_nrel_not_others _ Hnrel) as [-> ->]. rewrite Hnrel.
    destruct (startsWith name "ext__"); cbn; rewrite dom_insert_L;
      apply elem_of_union_l, elem_of_singleton; reflexivity.
Qed.

Lemma register_relation_registers pr name st :
  (3 ≤ length (split_dunder name))%nat → split_dunder name !! 0%nat = Some "nrel" →
  mapPrefix pr +:+ part_key (split_dunder name) 1
    ∈ dom (relationTables (register_relation pr name st)).
Proof.
  intros Hlen Hhead. unfold register_relation.
  rewrite (proj2 (Nat.leb_le _ _) Hlen), bool_decide_eq_true_2 by exact Hhead.
  cbn. rewrite dom_insert_L. apply elem_of_union_l, elem_of_singleton. reflexivity.
Qed.

(** [reformatWidget] and [reformatLayout] only add to the registries, and
    enter every widget of the tree they leave. *)
Lemma reformat_registers :
  (∀ w pr here forced st,
     registries_grow st (reformatWidget pr here forced w st).2
     ∧ Forall (registered pr (reformatWidget pr here forced w st).2)
              (widget_nodes (reformatWidget pr here forced w st).1.1))
  ∧ (∀ l pr here st,
     registries_grow st (reformatLayout pr here l st).2
     ∧ Forall (registered pr (reformatLayout pr here l st).2)
              (layout_nodes (reformatLayout pr here l st).1.1)).
Proof.
  pose (P0 := fun w : widget raw_props => ∀ pr here forced st,
     registries_grow st (reformatWidget pr here forced w st).2
     ∧ Forall (registered pr (reformatWidget pr here forced w st).2)
              (widget_nodes (reformatWidget pr here forced w st).1.1)).
  pose (P1 := fun l : layout raw_props => ∀ pr here st,
     registries_grow st (reformatLayout pr here l st).2
     ∧ Forall (registered pr (reformatLayout pr here l st).2)
              (layout_nodes (reformatLayout pr here l st).1.1)).
  pose (P3 := fun c : item_content raw_props =>
     match c with IWidget w => P0 w | ILayout l => P1 l | _ => True end).
  pose (P2 := fun it : item raw_props => P3 (i_content it)).
  assert (HW : (∀ w, P0 w) ∧ (∀ l, P1 l) ∧ (∀ i, P2 i) ∧ (∀ c, P3 c)).
  { apply (tree_mutind raw_props P0 P1 P2 P3); subst P0 P1 P2 P3; cbv beta.
    - intros class name property attribute allowMulti item Hitem layout Hlayout
             children Hchildren pr here forced st.
      apply list_all_Forall in Hitem, Hchildren.
      cbn [reformatWidget].
      pose proof (forEachS_grow
        (fun i it s => reformatWidget pr (here ++ [AtItem i])%list None it s)
        widget_nodes (registered pr) item
        (fun s s' x Hg => registered_grow pr s s' x Hg)) as Hi.
      specialize (Hi ltac:(eapply Forall_impl; [exact Hitem|]; cbv beta;
                           intros x Hx i s; apply Hx) 0%nat st).
      destruct (forEachS _ 0 item st) as [[item' vf1] st1]. cbn [fst snd] in Hi.
      destruct Hi as [Hg1 Hi].
      pose proof (grow_name_or_widget
                    (match forced with Some f => Some f | None => name end) st1) as Hg2.
      destruct (name_or _ fresh_widget_name st1) as [name' st2]. cbn [snd] in Hg2.
      change (set_widgets <[name':=here]> ?x) with (classify pr here name' st2).
      pose proof (grow_classify pr here name' st2) as Hg3.
      pose proof (classify_registers pr here name' st2) as Hreg. cbv zeta in Hreg.
      set (st3 := classify pr here name' st2) in *.
      assert (Hl : ∃ layout' vf2 st4,
                (match layout with
                 | Some l =>
                     let '(l', vf, st') := reformatLayout pr (here ++ [AtLayout])%list l st3 in
                     (Some l', vf, st')
                 | None => (None, false, st3)
                 end) = (layout', vf2, st4)
                ∧ registries_grow st3 st4
                ∧ Forall (registered pr st4)
                         (match layout' with Some l' => layout_nodes l' | None => [] end)).
      { destruct layout as [l|].
        - inversion Hlayout as [l0 Hl0|]; subst.
          specialize (Hl0 pr (here ++ [AtLayout])%list st3).
          destruct (reformatLayout pr (here ++ [AtLayout])%list l st3) as [[l' vf] st'].
          cbn [fst snd] in Hl0. destruct Hl0 as [Hg Hl0].
          eexists (Some l'), _, _. split; [reflexivity|]. split; assumption.
        - eexists None, _, _. split; [reflexivity|].
          split; [apply registries_grow_refl|constructor]. }
      destruct Hl as (layout' & vf2 & st4 & -> & Hg4 & Hll).
      pose proof (forEachS_grow
        (fun i child s =>
           let '(n, s') := fresh_widget_name s in
           reformatWidget pr (here ++ [AtChild i])%list (Some n) child s')
        widget_nodes (registered pr) children
        (fun s s' x Hg => registered_grow pr s s' x Hg)) as Hc.
      specialize (Hc ltac:(eapply Forall_impl; [exact Hchildren|]; cbv beta;
                           intros x Hx i s;
                           pose proof (grow_fresh_widget_name s) as Hf;
                           destruct (fresh_widget_name s) as [n s'];
                           destruct (Hx pr (here ++ [AtChild i])%list (Some n) s');
                           split; [eapply registries_grow_trans; eassumption|assumption])
                     0%nat st4).
      destruct (forEachS _ 0 children st4) as [[children' vf3] st5]. cbn [fst snd] in Hc.
      destruct Hc as [Hg5 Hcl].
      pose proof (grow_register_relation pr name' st5) as Hg6.
      cbn [fst snd widget_nodes].
      assert (G35 : registries_grow st3 st5)
        by (eapply registries_grow_trans; eassumption).
      assert (G36 : registries_grow st3 (register_relation pr name' st5))
        by (eapply registries_grow_trans; eassumption).
      split.
      { eapply registries_grow_trans; [exact Hg1|].
        eapply registries_grow_trans; [exact Hg2|].
        eapply registries_grow_trans; [exact Hg3|exact G36]. }
      constructor.
      + destruct Hreg as (R1 & R2 & R3 & R4 & R5).
        destruct G36 as [(A1 & A2 & A3 & A4 & A5 & A6 & _) _].
        exists name'. split; [reflexivity|].
        split; [auto|]. split; [auto|]. split; [auto|]. split; [auto|].
        split; [auto|]. apply register_relation_registers.
      + rewrite !Forall_app. split; [|split].
        * eapply Forall_impl; [exact Hi|]. intros x. apply registered_grow.
          eapply registries_grow_trans; [exact Hg2|].
          eapply registries_grow_trans; [exact Hg3|exact G36].
        * eapply Forall_impl; [exact Hll|]. intros x. apply registered_grow.
          eapply registries_grow_trans; eassumption.
        * eapply Forall_impl; [exact Hcl|]. intros x. apply registered_grow, Hg6.
    - intros class name item Hitem vf pr here st.
      apply list_all_Forall in Hitem.
      cbn [reformatLayout].
      pose proof (grow_name_or_layout name st) as Hg1.
      destruct (name_or name fresh_layout_name st) as [name' st1]. cbn [snd] in Hg1.
      match goal with |- context [forEachS ?f 0 item st1] =>
        pose proof (forEachS_grow f item_nodes (registered pr) item
                      (fun s s' x Hg => registered_grow pr s s' x Hg)) as Hi end.
      specialize (Hi ltac:(eapply Forall_impl; [exact Hitem|]; cbv beta;
        intros [r c rs cs [w|sn sp|l|]] Hx i s; cbn in Hx;
        [ specialize (Hx pr (here ++ [AtLayoutItem i])%list None s);
          destruct (reformatWidget pr (here ++ [AtLayoutItem i])%list None w s) as [[w' b] s'];
          exact Hx
        | split; [apply registries_grow_refl|constructor]
        | specialize (Hx pr (here ++ [AtLayoutItem i])%list s);
          destruct (reformatLayout pr (here ++ [AtLayoutItem i])%list l s) as [[l' b] s'];
          exact Hx
        | split; [apply registries_grow_refl|constructor] ]) 0%nat st1).
      destruct (forEachS _ 0 item st1) as [[item' vf'] st2].
      cbn [fst snd] in *. destruct Hi as [Hg2 Hi].
      split; [eapply registries_grow_trans; eassumption|].
      rewrite layout_nodes_eq. exact Hi.
    - intros r c rs cs content H. exact H.
    - intros w H. exact H.
    - intros; exact I.
    - intros l H. exact H.
    - exact I. }
  destruct HW as (H0 & H1 & _). split; assumption.
Qed.

(** *** What a parse produces *)

Lemma externalFields_blank_empty : externalFields_blank empty_registries.
Proof. intros k v H. cbn in H. rewrite lookup_empty in H. discriminate. Qed.

(** The tree and the registries a successful parse is made of. *)
Lemma produced_form_inv E data w json :
  produced_form (parseForm E data w) = Some json →
  ∃ root vf reg,
    xmlParse E data = Some root
    ∧ reformatWidget (w_props w) [] None root empty_registries = (ui_widget json, vf, reg)
    ∧ fd_externalFields json = externalFields reg
    ∧ fd_widgets json = widgets reg
    ∧ fd_fields json = fields reg
    ∧ fd_buttons json = buttons reg
    ∧ fd_nrels json = nrels reg
    ∧ pushed_tables (parseForm E data w).2 = Some (relationTables reg).
Proof.
  unfold parseForm. destruct (xmlParse E data) as [root|]; [|discriminate].
  destruct (reformatWidget _ [] None root empty_registries) as [[root' vf] reg] eqn:Hr.
  cbn [w_props FormPreprocessors] in Hr |- *.
  case_bool_decide; unfold produced_form;
    cbn [fst snd app pushed_tables w_state with_state]; lookup_lit;
    intros [= <-]; exists root, vf, reg; cbn [ui_widget fd_externalFields fd_widgets
      fd_fields fd_buttons fd_nrels]; repeat split; exact Hr.
Qed.

Lemma written_is_Some {V} (entries : list (string * V)) k v :
  (k, v) ∈ entries → is_Some (written entries !! k).
Proof.
  induction entries as [|[k' v'] entries IH] using rev_ind; intros Hin.
  - apply elem_of_nil in Hin. destruct Hin.
  - rewrite written_snoc. apply elem_of_app in Hin as [Hin|Hin].
    + destruct (decide (k' = k)) as [->|Hne].
      * rewrite lookup_insert_eq. eauto.
      * rewrite lookup_insert_ne by exact Hne. exact (IH Hin).
    + apply list_elem_of_singleton in Hin. injection Hin as <- <-.
      rewrite lookup_insert_eq. eauto.
Qed.

(** What a successful [parseForm] hands on. The registries of the form hold
    the widgets of its tree by reference (the position in the tree): each is
    what writing the entries of the widgets one by one leaves, in the order
    in which [reformatWidget] enters them, so that of two widgets writing
    the same key the later one is held. A widget is entered in [json.fields]
    under its name when that is a key of the layer's fields, or under the
    second token of a [kvrel__]/[img__] name when that is one; otherwise a
    [btn__x] widget goes to [json.buttons] and an [nrel__x] widget to
    [json.nrels] under [x]; an [ext__x] widget puts the empty string in
    [json.externalFields] under [x]. Every entry of [json.widgets] refers to
    a widget of the tree bearing the key as its name, and every widget of
    the tree has its name among the keys. *)
Theorem parsed_form_registries E data w json :
  produced_form (parseForm E data w) = Some json →
  let pr := w_props w in
  let tree := ui_widget json in
  let ent := entered [] tree in
  fd_widgets json = written ent
  ∧ fd_fields json = written (omap (field_entry pr) ent)
  ∧ fd_buttons json = written (omap (button_entry pr) ent)
  ∧ fd_nrels json = written (omap (nrel_entry pr) ent)
  ∧ fd_externalFields json = written (omap external_entry ent)
  ∧ (∀ name p, fd_widgets json !! name = Some p →
       ∃ node, node_at p tree = Some node ∧ w_name node = Some name)
  ∧ (∀ before name p after,
       ent = (before ++ (name, p) :: after)%list →
       (∀ e, e ∈ after → e.1 ≠ name) →
       fd_widgets json !! name = Some p)
  ∧ (∀ node, node ∈ widget_nodes tree →
       ∃ name, w_name node = Some name ∧ is_Some (fd_widgets json !! name)).
Proof.
  intros Hform pr tree ent.
  pose proof (parseForm_tree_normalised _ _ _ _ Hform) as Hnorm.
  rewrite Forall_forall in Hnorm.
  destruct (produced_form_parsed _ _ _ _ Hform) as [root Hparse].
  destruct (parseForm_produces E data root w Hparse) as [Hf _].
  rewrite Hform in Hf. injection Hf as Hjson.
  destruct (parse_registries (w_props w) root) as (H1 & H2 & H3 & H4 & H5 & _).
  assert (Hw : fd_widgets json = written ent).
  { subst ent tree. rewrite Hjson. exact H1. }
  split; [exact Hw|].
  split; [subst ent tree pr; rewrite Hjson; exact H2|].
  split; [subst ent tree pr; rewrite Hjson; exact H3|].
  split; [subst ent tree pr; rewrite Hjson; exact H4|].
  split; [subst ent tree; rewrite Hjson; exact H5|].
  split; [|split].
  - intros name p Hlook. rewrite Hw in Hlook.
    apply written_lookup_elem in Hlook.
    destruct (proj1 entered_node_at tree [] name p Hlook)
      as (q & node & -> & Hnode & Hname).
    exists node. split; [exact Hnode|].
    destruct (Hnorm node (proj1 (node_at_nodes q) tree node Hnode))
      as (_ & _ & n & Hn & _).
    rewrite Hn in Hname |- *. cbn in Hname. congruence.
  - intros before name p after Hsplit Hafter. rewrite Hw, Hsplit.
    apply written_last. exact Hafter.
  - intros node Hnode.
    destruct (Hnorm node Hnode) as (_ & _ & n & Hn & _).
    exists n. split; [exact Hn|].
    destruct (proj1 nodes_entered tree [] node Hnode) as [p Hp].
    rewrite Hn in Hp. cbn in Hp. rewrite Hw.
    exact (written_is_Some _ _ _ Hp).
Qed.

Lemma parsed_form_registries_witness :
  ∃ json,
    produced_form (parseForm full_externals "full" full_world) = Some json
    ∧ fd_widgets json = written (entered [] (ui_widget json))
    ∧ fd_fields json = written (omap (field_entry full_props) (entered [] (ui_widget json)))
    ∧ fd_nrels json !! "parcels" = Some [AtLayout; AtLayoutItem 8]
    ∧ fd_widgets json !! "header__area"
      = Some [AtLayout; AtLayoutItem 9; AtLayout; AtLayoutItem 0]
    ∧ ∀ node, node ∈ widget_nodes (ui_widget json) →
        ∃ name, w_name node = Some name ∧ is_Some (fd_widgets json !! name).
Proof.
  destruct (produced_form (parseForm full_externals "full" full_world))
    as [json|] eqn:Hf; [|vm_compute in Hf; discriminate Hf].
  destruct (parsed_form_registries full_externals "full" full_world json Hf)
    as (H1 & H2 & _ & H4 & _ & _ & _ & H8).
  exists json. split; [reflexivity|]. split; [exact H1|]. split; [exact H2|].
  assert (Hj : json = default json
                        (produced_form (parseForm full_externals "full" full_world))).
  { rewrite Hf. reflexivity. }
  split; [|split; [|exact H8]].
  - rewrite Hj. vm_compute. reflexivity.
  - rewrite Hj. vm_compute. reflexivity.
Defined.

(** The relation tables pushed by a successful [parseForm] have an entry
    [mapPrefix + <table>] for every widget named [nrel__<table>__<fk>...]. *)
Theorem parsed_relation_tables E data w json :
  produced_form (parseForm E data w) = Some json →
  ∃ tables,
    pushed_tables (parseForm E data w).2 = Some tables
    ∧ ∀ n name, n ∈ widget_nodes (ui_widget json) → w_name n = Some name →
        (3 ≤ length (split_dunder name))%nat →
        split_dunder name !! 0%nat = Some "nrel" →
        mapPrefix (w_props w) +:+ part_key (split_dunder name) 1 ∈ dom tables.
Proof.
  intros Hp.
  destruct (produced_form_inv _ _ _ _ Hp)
    as (root & vf & reg & _ & Hr & _ & _ & _ & _ & _ & Ht).
  exists (relationTables reg). split; [exact Ht|].
  intros n name Hn Hname Hlen Hhead.
  destruct reformat_registers as [HW _].
  destruct (HW root (w_props w) [] None empty_registries) as [_ Hreg].
  rewrite Hr in Hreg. cbn [fst snd] in Hreg. rewrite Forall_forall in Hreg.
  destruct (Hreg n Hn) as (name' & Hname' & _ & _ & _ & _ & _ & Hrt).
  assert (name' = name) as -> by congruence.
  exact (Hrt Hlen Hhead).
Qed.

Lemma parsed_relation_tables_witness :
  ∃ json tables,
    produced_form (parseForm document_externals "form" (document_world ∅)) = Some json
    ∧ pushed_tables (parseForm document_externals "form" (document_world ∅)).2
      = Some tables
    ∧ ∀ n name, n ∈ widget_nodes (ui_widget json) → w_name n = Some name →
        (3 ≤ length (split_dunder name))%nat →
        split_dunder name !! 0%nat = Some "nrel" →
        mapPrefix document_props +:+ part_key (split_dunder name) 1 ∈ dom tables.
Proof.
  destruct (produced_form (parseForm document_externals "form" (document_world ∅)))
    as [json|] eqn:H.
  - destruct (parsed_relation_tables document_externals "form" (document_world ∅) json H)
      as (tables & Ht & Hall).
    exists json, tables. split; [reflexivity|]. split; [exact Ht|exact Hall].
  - vm_compute in H. discriminate H.
Defined.

(** Every layout of a parsed form has a non-empty name, carries the
    [verticalFill] flag of what it holds, and holds spacers with a property
    map. *)
Theorem parsed_layouts_normalised E data w json :
  produced_form (parseForm E data w) = Some json →
  Forall layout_normalised (widget_layouts (ui_widget json)).
Proof.
  intros Hp.
  destruct (produced_form_inv _ _ _ _ Hp) as (root & vf & reg & _ & Hr & _).
  destruct reformat_flags as [HW _].
  destruct (HW root (w_props w) [] None empty_registries) as [_ Hl].
  rewrite Hr in Hl. exact Hl.
Qed.

Lemma parsed_layouts_normalised_witness :
  ∃ json,
    produced_form (parseForm document_externals "form" (document_world ∅)) = Some json
    ∧ Forall layout_normalised (widget_layouts (ui_widget json)).
Proof.
  destruct (produced_form (parseForm document_externals "form" (document_world ∅)))
    as [json|] eqn:H.
  - exists json. split; [reflexivity|].
    exact (parsed_layouts_normalised document_externals "form" (document_world ∅) json H).
  - vm_compute in H. discriminate H.
Defined.

(** *** Loading and rendering *)

Lemma triggers_spec prev cur :
  triggers prev cur ↔
  negb (bool_decide (Some (form cur) = form <$> prev))
  || negb (bool_decide (version (p_feature cur) = prev ≫= (version ∘ p_feature))) = true.
Proof.
  unfold triggers. rewrite orb_true_iff, !negb_true_iff, !bool_decide_eq_false.
  split; (intros [H|H]; [left|right]; congruence).
Qed.

Lemma defaultState_lookup k :
  defaultState !! k =
    if String.eqb k "activetabs" then Some (STabs ∅)
    else if String.eqb k "formdata" then Some SNull
    else if String.eqb k "loading" then Some (SBool false)
    else if String.eqb k "loadingReqId" then Some SNull
    else if String.eqb k "relationAddPressed" then Some SNull
    else None.
Proof.
  destruct (String.eqb_spec k "activetabs") as [->|?]; [vm_compute; reflexivity|].
  destruct (String.eqb_spec k "formdata") as [->|?]; [vm_compute; reflexivity|].
  destruct (String.eqb_spec k "loading") as [->|?]; [vm_compute; reflexivity|].
  destruct (String.eqb_spec k "loadingReqId") as [->|?]; [vm_compute; reflexivity|].
  destruct (String.eqb_spec k "relationAddPressed") as [->|?]; [vm_compute; reflexivity|].
  unfold defaultState.
  rewrite !lookup_insert_ne by congruence. apply lookup_singleton_ne. congruence.
Qed.

(** The state after [componentDidUpdate], key by key. *)
Lemma componentDidUpdate_lookup E prev w k :
  k ≠ "relationAddPressed" →
  w_state (componentDidUpdate E prev w).1 !! k =
    if negb (bool_decide (Some (form (w_props w)) = form <$> prev))
       || negb (bool_decide (version (p_feature (w_props w))
                             = prev ≫= (version ∘ p_feature)))
    then
      match (<[ "activetabs" :=
                  if negb (bool_decide (Some (form (w_props w)) = form <$> prev))
                  then STabs ∅
                  else default SUndefined (w_state w !! "activetabs") ]>
               defaultState) !! k with
      | Some v => Some v
      | None => w_state w !! k
      end
    else w_state w !! k.
Proof.
  intros Hk. unfold componentDidUpdate.
  destruct (negb _ || negb _);
    destruct (w_state w !! "relationAddPressed") as [[| | | | | |e]|];
    cbn [fst w_state with_state];
    try (apply lookup_setState); try reflexivity;
    destruct (negb (bool_decide (relationValues _ = _)));
    cbn [fst w_state with_state]; try (apply lookup_setState); try reflexivity;
    rewrite lookup_setState, lookup_singleton_ne by congruence;
    try (apply lookup_setState); reflexivity.
Qed.

(** A change of form or feature version resets [loading] and
    [loadingReqId] but leaves [formData] alone ([defaultState] spells the
    key [formdata]): until the response is parsed, [render] shows the form
    it showed before, not the spinner. *)
Theorem trigger_keeps_rendered_form E prev w :
  triggers prev (w_props w) →
  let w' := (componentDidUpdate E prev w).1 in
  w_state w' !! "formData" = w_state w !! "formData"
  ∧ w_state w' !! "loading" = Some (SBool false)
  ∧ w_state w' !! "loadingReqId" = Some SNull
  ∧ render w' = match w_state w !! "formData" with
                | Some (SForm fd) => ViewForm fd
                | _ => ViewNothing
                end.
Proof.
  intros Ht w'. apply triggers_spec in Ht.
  assert (H1 : w_state w' !! "formData" = w_state w !! "formData").
  { subst w'. rewrite componentDidUpdate_lookup, Ht by discriminate.
    rewrite lookup_insert_ne, defaultState_lookup by discriminate. reflexivity. }
  assert (H2 : w_state w' !! "loading" = Some (SBool false)).
  { subst w'. rewrite componentDidUpdate_lookup, Ht by discriminate.
    rewrite lookup_insert_ne, defaultState_lookup by discriminate. reflexivity. }
  assert (H3 : w_state w' !! "loadingReqId" = Some SNull).
  { subst w'. rewrite componentDidUpdate_lookup, Ht by discriminate.
    rewrite lookup_insert_ne, defaultState_lookup by discriminate. reflexivity. }
  repeat split; try assumption.
  unfold render. rewrite H2, H1. reflexivity.
Qed.

Lemma trigger_keeps_rendered_form_witness :
  let w := (parseForm document_externals "form" (document_world ∅)).1 in
  let w' := (componentDidUpdate document_externals None w).1 in
  w_state w' !! "formData" = w_state w !! "formData"
  ∧ w_state w' !! "loading" = Some (SBool false)
  ∧ w_state w' !! "loadingReqId" = Some SNull
  ∧ render w' = match w_state w !! "formData" with
                | Some (SForm fd) => ViewForm fd
                | _ => ViewNothing
                end.
Proof.
  apply (trigger_keeps_rendered_form document_externals None
           (parseForm document_externals "form" (document_world ∅)).1).
  left. vm_compute. discriminate.
Defined.

(** The active tabs survive an update that keeps the form and are reset by
    one that changes it. *)
Theorem active_tabs_across_updates E p w tabs :
  w_state w !! "activetabs" = Some tabs →
  let w' := (componentDidUpdate E (Some p) w).1 in
  (form p ≠ form (w_props w) → w_state w' !! "activetabs" = Some (STabs ∅))
  ∧ (form p = form (w_props w) → w_state w' !! "activetabs" = Some tabs).
Proof.
  intros Htabs w'. subst w'. rewrite componentDidUpdate_lookup by discriminate.
  cbn [fmap option_fmap option_map mbind option_bind].
  split; intros Hf.
  - rewrite (bool_decide_eq_false_2 (Some (form (w_props w)) = Some (form p)))
      by congruence.
    cbn [negb orb]. rewrite lookup_insert_eq. reflexivity.
  - rewrite (bool_decide_eq_true_2 (Some (form (w_props w)) = Some (form p)))
      by congruence.
    cbn [negb orb]. destruct (negb _); [|exact Htabs].
    rewrite lookup_insert_eq, Htabs. reflexivity.
Qed.

Lemma active_tabs_across_updates_witness :
  w_state tab_selected !! "activetabs" = Some (STabs {[ "tabs" := "page2" ]})
  ∧ w_state (componentDidUpdate sample_externals (Some (sample_form_props "f2.ui"))
                                tab_selected).1 !! "activetabs"
    = Some (STabs {[ "tabs" := "page2" ]})
  ∧ w_state (componentDidUpdate sample_externals (Some (sample_form_props "f1.ui"))
                                tab_selected).1 !! "activetabs"
    = Some (STabs ∅).
Proof.
  assert (Htabs : w_state tab_selected !! "activetabs"
                  = Some (STabs {[ "tabs" := "page2" ]})).
  { vm_compute. reflexivity. }
  split; [exact Htabs|]. split.
  - apply (active_tabs_across_updates sample_externals (sample_form_props "f2.ui")
             tab_selected _ Htabs).
    reflexivity.
  - apply (active_tabs_across_updates sample_externals (sample_form_props "f1.ui")
             tab_selected _ Htabs).
    vm_compute. discriminate.
Defined.

Lemma loading_after_trigger E prev w :
  loading_consistent w → loading_consistent (componentDidUpdate E prev w).1.
Proof.
  intros Hw. unfold loading_consistent.
  rewrite !componentDidUpdate_lookup by discriminate.
  destruct (negb _ || negb _); [|exact Hw].
  right. rewrite !lookup_insert_ne, !defaultState_lookup by discriminate.
  split; reflexivity.
Qed.

Lemma loading_after_parse E data w : loading_consistent (parseForm E data w).1.
Proof.
  unfold parseForm, loading_consistent.
  destruct (xmlParse E data) as [root|]; cbn [fst].
  - destruct (reformatWidget _ [] None root empty_registries) as [[root' vf] reg].
    cbn [w_props FormPreprocessors].
    case_bool_decide; cbn [fst w_state uuid_count with_state].
    + destruct (earlyCallback E _ _ _) as [fd|].
      * match goal with |- context [earlyPreprocessorCallback ?s ?i ?f ?x] =>
          destruct (earlyPreprocessorCallback_cases s i f x) as [-> | ->] end;
          cbn [w_state with_state].
        -- left. split; [|eexists]; lookup_lit; reflexivity.
        -- right. split; lookup_lit; reflexivity.
      * left. cbn [w_state]. split; [|eexists]; lookup_lit; reflexivity.
    + right. split; lookup_lit; reflexivity.
  - left. cbn [w_state]. split; [|eexists]; lookup_lit; reflexivity.
Qed.

Lemma loading_after_callback id fd w :
  loading_consistent w → loading_consistent (preprocessorCallback id fd w).
Proof.
  intros Hw. unfold preprocessorCallback.
  destruct (w_state w !! "loadingReqId") as [[| | |current| | |]|]; try exact Hw.
  destruct (Nat.eqb current id); [|exact Hw].
  right. cbn [w_state with_state]. split; lookup_lit; reflexivity.
Qed.

Lemma loading_after_handle E w ev :
  loading_consistent w → loading_consistent (handle E w ev).1.
Proof.
  intros Hw. destruct ev as [new|req data|req|id fd|l|l]; cbn [handle fst].
  - apply loading_after_trigger. exact Hw.
  - apply loading_after_parse.
  - exact Hw.
  - apply loading_after_callback, Hw.
  - exact Hw.
  - exact Hw.
Qed.

(** Whatever happens to a mounted component, [loading] is [true] exactly
    while [loadingReqId] holds a request identifier. *)
Theorem loading_iff_request_recorded E pr pre evs :
  loading_consistent (run E (mount E pr pre).1 evs).
Proof.
  assert (H0 : loading_consistent (mount E pr pre).1).
  { apply loading_after_trigger. right. split; vm_compute; reflexivity. }
  revert H0. generalize (mount E pr pre).1.
  induction evs as [|ev evs IH]; intros w Hw; [exact Hw|].
  cbn [run foldl]. apply IH, loading_after_handle, Hw.
Qed.

(** A response without [ui.widget] leaves the component loading: the
    spinner is rendered, the form committed before is kept in the state,
    and no form and no relation tables are handed on. *)
Theorem parse_failure_keeps_spinner E data w :
  xmlParse E data = None →
  let r := parseForm E data w in
  render r.1 = ViewLoading
  ∧ w_state r.1 !! "formData" = w_state w !! "formData"
  ∧ produced_form r = None
  ∧ pushed_tables r.2 = None.
Proof.
  intros Hparse r. subst r. unfold parseForm. rewrite Hparse.
  cbn [fst snd w_state]. unfold render, produced_form. cbn [fst snd w_state].
  repeat split; lookup_lit; reflexivity.
Qed.

Lemma parse_failure_keeps_spinner_witness :
  let r := parseForm document_externals "<html>" (document_world ∅) in
  render r.1 = ViewLoading
  ∧ w_state r.1 !! "formData" = w_state (document_world ∅) !! "formData"
  ∧ produced_form r = None
  ∧ pushed_tables r.2 = None.
Proof.
  apply (parse_failure_keeps_spinner document_externals "<html>" (document_world ∅)).
  reflexivity.
Defined.



Lemma includes_qmark_app a b :
  includes_qmark (a +:+ b) = includes_qmark a || includes_qmark b.
Proof.
  induction a as [|c a IH]; [reflexivity|].
  change (includes_qmark (String c (a +:+ b))
          = includes_qmark (String c a) || includes_qmark b).
  cbn [includes_qmark]. rewrite IH, orb_assoc. reflexivity.
Qed.

Lemma componentDidUpdate_gets E prev w :
  let r := componentDidUpdate E prev w in
  count_gets r.2 =
    (if negb (bool_decide (Some (form (w_props w)) = form <$> prev))
        || negb (bool_decide (version (p_feature (w_props w))
                              = prev ≫= (version ∘ p_feature)))
     then 1%nat else 0%nat)
  ∧ requests r.1 = (requests w ++ gets_of r.2)%list
  ∧ gets_have_query r.2.
Proof.
  unfold componentDidUpdate, gets_have_query.
  set (url := resolveAssetsPath E (form (w_props w))).
  assert (Hq : includes_qmark (url +:+ (if includes_qmark url then "&" else "?")
                                   +:+ "lang=" +:+ locale (w_props w)) = true).
  { rewrite !includes_qmark_app. destruct (includes_qmark url); reflexivity. }
  destruct (negb _ || negb _).
  - destruct (w_state w !! "relationAddPressed") as [[| | | | | |e]|];
      try (cbn; repeat split; repeat constructor; exact Hq).
    destruct (negb _); cbn; repeat split; repeat constructor; exact Hq.
  - destruct (w_state w !! "relationAddPressed") as [[| | | | | |e]|];
      try (cbn; rewrite app_nil_r; repeat split; constructor).
    destruct (negb _); cbn; rewrite app_nil_r; repeat split; repeat constructor.
Qed.

(** One event sends at most one request: new props send exactly one when
    the form or the feature version changed and none otherwise, no other
    event sends any, and the URL requested has a query string. *)
Theorem one_request_per_trigger E w ev :
  let r := handle E w ev in
  count_gets r.2 =
    match ev with
    | SetProps new =>
        if bool_decide (form new = form (w_props w)
                        ∧ version (p_feature new) = version (p_feature (w_props w)))
        then 0%nat else 1%nat
    | _ => 0%nat
    end
  ∧ requests r.1 = (requests w ++ gets_of r.2)%list
  ∧ gets_have_query r.2.
Proof.
  destruct ev as [new|req data|req|id fd|l|l]; cbn [handle].
  - match goal with |- context [componentDidUpdate E ?p ?x] =>
      pose proof (componentDidUpdate_gets E p x) as H end.
    cbn zeta in H. cbn [w_props requests fmap option_fmap option_map mbind option_bind] in H.
    destruct H as (Hc & Hr & Hq). cbn zeta. rewrite Hc. split; [|split; assumption].
    destruct (decide (form new = form (w_props w))) as [Hf|Hf];
      destruct (decide (version (p_feature new) = version (p_feature (w_props w))))
        as [Hv|Hv].
    + rewrite (bool_decide_eq_true_2 (_ ∧ _)) by (split; assumption).
      rewrite (bool_decide_eq_true_2 (Some _ = _)) by congruence.
      rewrite (bool_decide_eq_true_2 (version _ = _)) by exact Hv.
      reflexivity.
    + rewrite (bool_decide_eq_false_2 (_ ∧ _)) by (intros [_ ?]; contradiction).
      rewrite (bool_decide_eq_false_2 (version _ = _)) by exact Hv.
      rewrite orb_true_r. reflexivity.
    + rewrite (bool_decide_eq_false_2 (_ ∧ _)) by (intros [? _]; contradiction).
      rewrite (bool_decide_eq_false_2 (Some _ = _)) by congruence.
      reflexivity.
    + rewrite (bool_decide_eq_false_2 (_ ∧ _)) by (intros [? _]; contradiction).
      rewrite (bool_decide_eq_false_2 (Some _ = _)) by congruence.
      reflexivity.
  - unfold parseForm, gets_have_query. destruct (xmlParse E data) as [root|].
    + destruct (reformatWidget _ [] None root empty_registries) as [[root' vf] reg].
      cbn [w_props FormPreprocessors]. case_bool_decide.
      * destruct (earlyCallback E _ _ _) as [fd|];
          [match goal with |- context [earlyPreprocessorCallback ?s ?i ?f ?x] =>
             destruct (earlyPreprocessorCallback_cases s i f x) as [-> | ->] end|];
          cbn; rewrite app_nil_r; repeat split; repeat constructor.
      * cbn; rewrite app_nil_r; repeat split; repeat constructor.
    + cbn. rewrite app_nil_r. repeat split; repeat constructor.
  - unfold gets_have_query. cbn. rewrite app_nil_r. repeat split; repeat constructor.
  - unfold gets_have_query. cbn. rewrite app_nil_r. repeat split; try constructor.
    unfold preprocessorCallback.
    destruct (w_state w !! "loadingReqId") as [[| | |current| | |]|]; try reflexivity.
    destruct (Nat.eqb current id); reflexivity.
  - unfold gets_have_query. cbn. rewrite app_nil_r. repeat split; constructor.
  - unfold gets_have_query. cbn. rewrite app_nil_r. repeat split; constructor.
Qed.

(** *** Scrolling a relation table *)

Lemma componentDidUpdate_same_props E w :
  (∀ e, w_state w !! "relationAddPressed" ≠ Some (SElement e)) →
  componentDidUpdate E (Some (w_props w)) w = (w, []).
Proof.
  intros Hnone. unfold componentDidUpdate.
  cbn [fmap option_fmap option_map mbind option_bind].
  rewrite (bool_decide_eq_true_2 (Some _ = Some _)) by reflexivity.
  rewrite (bool_decide_eq_true_2 (version _ = _)) by reflexivity.
  cbn [negb orb].
  destruct (w_state w !! "relationAddPressed") as [[| | | | | |e]|] eqn:Hr;
    try reflexivity.
  exfalso. exact (Hnone e eq_refl).
Qed.

(** The scroll to the bottom of a relation table happens only for the
    element recorded by [addRelationRecord], and uses it up: afterwards
    [relationAddPressed] is [null], and the re-render that follows does
    nothing. *)
Theorem scroll_consumes_add_press E prev w e :
  EScrollToBottom e ∈ (componentDidUpdate E prev w).2 →
  let w' := (componentDidUpdate E prev w).1 in
  w_state w !! "relationAddPressed" = Some (SElement e)
  ∧ w_state w' !! "relationAddPressed" = Some SNull
  ∧ componentDidUpdate E (Some (w_props w')) w' = (w', []).
Proof.
  intros Hin w'.
  assert (H : w_state w !! "relationAddPressed" = Some (SElement e)
              ∧ w_state w' !! "relationAddPressed" = Some SNull).
  { subst w'. revert Hin. unfold componentDidUpdate.
    destruct (negb _ || negb _);
      (destruct (w_state w !! "relationAddPressed") as [[| | | | | |e']|] eqn:Hr;
       [..|destruct (negb _)|]);
      cbn [fst snd app w_state with_state];
      rewrite ?elem_of_cons, ?elem_of_nil;
      intros Hin; try (exfalso; intuition discriminate).
    all: assert (e' = e) as -> by (intuition congruence).
    all: split; [reflexivity|]; lookup_lit; reflexivity. }
  destruct H as [H1 H2]. split; [exact H1|]. split; [exact H2|].
  apply componentDidUpdate_same_props. intros e0. rewrite H2. discriminate.
Qed.

Lemma scroll_consumes_add_press_witness :
  let w := {| w_state := w_state add_pressed; w_props := document_props_added;
              uuid_count := uuid_count add_pressed;
              FormPreprocessors := FormPreprocessors add_pressed;
              requests := requests add_pressed |} in
  let w' := (componentDidUpdate document_externals (Some document_props) w).1 in
  w_state w !! "relationAddPressed" = Some (SElement 7)
  ∧ w_state w' !! "relationAddPressed" = Some SNull
  ∧ componentDidUpdate document_externals (Some (w_props w')) w' = (w', []).
Proof.
  apply (scroll_consumes_add_press document_externals (Some document_props)
           {| w_state := w_state add_pressed; w_props := document_props_added;
              uuid_count := uuid_count add_pressed;
              FormPreprocessors := FormPreprocessors add_pressed;
              requests := requests add_pressed |} 7).
  vm_compute. left.
Defined.

End QtDesignerFormMoreFacts.

(** ** plugins/MapInfoTooltip.jsx, continued *)
Module MapInfoTooltipMoreFacts.
Import JS JSFacts MapInfoTooltip MapInfoTooltipMore TooltipSamples MapInfoTooltipFacts.

(** *** The state over time *)

Lemma well_formed_clear st : well_formed st → well_formed (clear st).
Proof.
  intros (_ & He & _). destruct (clear_lookup st) as (Hp & Hx & _ & Hel).
  split; [left; exact Hp|]. split; [rewrite Hel; exact He|left; exact Hx].
Qed.

Lemma well_formed_update E cfg prev pr st :
  well_formed st → well_formed (componentDidUpdate E cfg prev pr st).1.
Proof.
  intros Hw. unfold componentDidUpdate.
  destruct (negb (enabled pr) && truthy (st !! "point")); [apply well_formed_clear, Hw|].
  destruct (map_click (map pr)) as [newPoint|].
  - destruct (button newPoint =? 2)%Z eqn:Hb; cbn [negb].
    + match goal with |- context [if ?c then _ else _] => destruct c end; [|exact Hw].
      cbn [fst]. destruct Hw as (_ & _ & Hx).
      split; [right; exists newPoint; split; [tooltip_lookup; reflexivity|lia]|].
      split; [left; tooltip_lookup; reflexivity|].
      tooltip_lookup. exact Hx.
    + cbn [fst]. destruct (truthy (st !! "point")); [apply well_formed_clear|]; exact Hw.
  - cbn [fst]. destruct (truthy (st !! "point")); [apply well_formed_clear|]; exact Hw.
Qed.

Lemma well_formed_handle E cfg st ev :
  well_formed st → well_formed (handle E cfg st ev).
Proof.
  intros Hw. destruct ev as [prev pr|p e|rows|]; cbn [handle].
  - apply well_formed_update, Hw.
  - destruct Hw as (Hp & _ & Hx). unfold onElevation.
    split; [tooltip_lookup; exact Hp|].
    split; [right; eexists; tooltip_lookup; reflexivity|tooltip_lookup; exact Hx].
  - destruct Hw as (Hp & He & _). unfold onMapInfo.
    split; [tooltip_lookup; exact Hp|].
    split; [tooltip_lookup; exact He|right; eexists; tooltip_lookup; reflexivity].
  - apply well_formed_clear, Hw.
Qed.

(** Whatever happens to a mounted tooltip, [point] is [null] or a click
    with button 2, [elevation] is [null] or a number, [extraInfo] is
    [null] or rows; so a popup is only ever rendered at a right-click. *)
Theorem popup_only_at_right_click E cfg evs pr :
  let st := run E cfg initial_state evs in
  well_formed st
  ∧ (∀ p, render E pr st = Some p →
       ∃ c, st !! "point" = Some (TPoint c) ∧ button c = 2%Z).
Proof.
  cbn zeta.
  assert (Hw : well_formed (run E cfg initial_state evs)).
  { assert (H0 : well_formed initial_state).
    { unfold well_formed, initial_state. repeat split; left; vm_compute; reflexivity. }
    revert H0. unfold run. generalize initial_state.
    induction evs as [|ev evs IH]; intros st Hst; [exact Hst|].
    cbn [foldl]. apply IH, well_formed_handle, Hst. }
  split; [exact Hw|].
  intros p Hr. destruct Hw as ([Hp|(c & Hp & Hb)] & _).
  - unfold render in Hr. rewrite Hp in Hr. discriminate.
  - exists c. split; assumption.
Qed.

Lemma pixel_differs_same a : pixel_differs a a = false.
Proof. apply pixel_differs_false. split; reflexivity. Qed.

(** An update with unchanged props (the re-render after a [setState]) sends
    no request and, repeated, changes nothing any more. *)
Theorem rerender_settles E cfg pr st :
  let r := componentDidUpdate E cfg pr pr st in
  r.2 = [] ∧ componentDidUpdate E cfg pr pr r.1 = (r.1, []).
Proof.
  cbn zeta. unfold componentDidUpdate.
  destruct (truthy (st !! "point")) eqn:Hp; destruct (enabled pr);
    destruct (map_click (map pr)) as [c|]; try destruct (button c =? 2)%Z;
    repeat (cbn [negb andb fst snd];
            rewrite ?pixel_differs_same, ?truthy_clear_point, ?Hp, ?andb_false_r);
    split; reflexivity.
Qed.

(** With the tool disabled, the re-render that follows an update leaves no
    popup and sends nothing, whatever that update did. *)
Theorem disabled_tooltip_closes E cfg prev pr st :
  enabled pr = false →
  let st1 := (componentDidUpdate E cfg prev pr st).1 in
  let r := componentDidUpdate E cfg pr pr st1 in
  render E pr r.1 = None ∧ r.2 = [].
Proof.
  intros Hen st1 r. subst r.
  assert (Hr : ∀ s, truthy (s !! "point") = false → render E pr s = None).
  { intros s Hs. unfold render. destruct (s !! "point") as [[]|]; try reflexivity.
    discriminate. }
  generalize st1. clear st1. intros st1.
  unfold componentDidUpdate. rewrite Hen. cbn [negb andb].
  destruct (truthy (st1 !! "point")) eqn:Hp.
  - cbn [fst snd]. split; [apply Hr, truthy_clear_point|reflexivity].
  - destruct (map_click (map pr)) as [c|]; [|split; [apply Hr, Hp|reflexivity]].
    destruct (button c =? 2)%Z; cbn [negb]; [|split; [apply Hr, Hp|reflexivity]].
    rewrite pixel_differs_same. split; [apply Hr, Hp|reflexivity].
Qed.

Lemma disabled_tooltip_closes_witness :
  let pr := sample_props false (Some (click_at 30 40)) in
  let st1 := (componentDidUpdate sample_externals sample_config
                (sample_props true None) pr initial_state).1 in
  let r := componentDidUpdate sample_externals sample_config pr pr st1 in
  st1 !! "point" = Some (TPoint (click_at 30 40))
  ∧ render sample_externals pr r.1 = None ∧ r.2 = [].
Proof.
  split; [vm_compute; reflexivity|].
  apply (disabled_tooltip_closes sample_externals sample_config
           (sample_props true None) (sample_props false (Some (click_at 30 40)))
           initial_state).
  reflexivity.
Defined.

(** *** The requests *)

Lemma length_append_string (a b : string) :
  String.length (a +:+ b) = (String.length a + String.length b)%nat.
Proof.
  induction a as [|c a IH]; [reflexivity|].
  change (String c a +:+ b) with (String c (a +:+ b)). cbn [String.length].
  rewrite IH. reflexivity.
Qed.

(** A request is only sent by an update that records a right-click as the
    new point and resets the elevation. It carries that click's
    coordinates and the map projection; the elevation request goes to the
    non-empty configured URL, less one trailing slash, plus
    [/getelevation], and remembers the precision of the previous props; the
    map-info request goes to the non-empty configured URL. *)
Theorem fetches_go_with_new_point E cfg prev pr st f :
  f ∈ (componentDidUpdate E cfg prev pr st).2 →
  ∃ c, map_click (map pr) = Some c ∧ button c = 2%Z
       ∧ (componentDidUpdate E cfg prev pr st).1 !! "point" = Some (TPoint c)
       ∧ (componentDidUpdate E cfg prev pr st).1 !! "elevation" = Some TNull
       ∧ fetch_pos f = join "," (List.map (fun x => numToString E (Num x)) (coordinate c))
       ∧ match f with
         | GetElevation url _ crs precision =>
             url = strip_trailing_slash (default "" (elevationServiceUrl cfg))
                     +:+ "/getelevation"
             ∧ url ≠ "/getelevation"
             ∧ crs = projection (map pr)
             ∧ precision = elevationPrecision prev
         | GetMapInfo url _ crs =>
             mapInfoService cfg = Some url ∧ url ≠ "" ∧ crs = projection (map pr)
         end.
Proof.
  unfold componentDidUpdate.
  destruct (negb (enabled pr) && truthy (st !! "point"));
    [intros H; apply elem_of_nil in H; contradiction|].
  destruct (map_click (map pr)) as [c|];
    [|intros H; apply elem_of_nil in H; contradiction].
  destruct (button c =? 2)%Z eqn:Hb; cbn [negb];
    [|intros H; apply elem_of_nil in H; contradiction].
  match goal with |- context [if ?c then _ else _] => destruct c end;
    [|intros H; apply elem_of_nil in H; contradiction].
  cbn [fst snd]. intros Hf. exists c.
  split; [reflexivity|]. split; [lia|].
  split; [tooltip_lookup; reflexivity|]. split; [tooltip_lookup; reflexivity|].
  apply elem_of_app in Hf. destruct Hf as [Hf|Hf].
  - destruct (strip_trailing_slash (default "" (elevationServiceUrl cfg))) as [|a s] eqn:Hs;
      cbn [truthy_str] in Hf.
    + apply elem_of_nil in Hf. contradiction.
    + apply list_elem_of_singleton in Hf. subst f. cbn [fetch_pos].
      repeat split. intros H. apply (f_equal String.length) in H.
      rewrite length_append_string in H. cbn [String.length] in H. lia.
  - destruct (mapInfoService cfg) as [url|]; [|apply elem_of_nil in Hf; contradiction].
    destruct url as [|a s]; cbn [truthy_str] in Hf;
      [apply elem_of_nil in Hf; contradiction|].
    apply list_elem_of_singleton in Hf. subst f. cbn [fetch_pos].
    repeat split. discriminate.
Qed.

Lemma fetches_go_with_new_point_witness :
  let prev := sample_props true None in
  let pr := sample_props true (Some (click_at 30 40)) in
  let r := componentDidUpdate sample_externals sample_config prev pr initial_state in
  ∃ c, map_click (map pr) = Some c ∧ button c = 2%Z
       ∧ r.1 !! "point" = Some (TPoint c)
       ∧ r.1 !! "elevation" = Some TNull
       ∧ "30000,40000" = join "," (List.map (fun x => numToString sample_externals (Num x))
                                            (coordinate c))
       ∧ "https://example.org/elevation/getelevation"
         = strip_trailing_slash (default "" (elevationServiceUrl sample_config))
             +:+ "/getelevation"
       ∧ "https://example.org/elevation/getelevation" ≠ "/getelevation"
       ∧ "EPSG:3857" = projection (map pr)
       ∧ 0%Z = elevationPrecision prev.
Proof.
  apply (fetches_go_with_new_point sample_externals sample_config
           (sample_props true None) (sample_props true (Some (click_at 30 40)))
           initial_state
           (GetElevation "https://example.org/elevation/getelevation" "30000,40000"
                         "EPSG:3857" 0)).
  vm_compute. left.
Defined.

Lemma strip_trailing_slash_cons c s :
  s ≠ "" → strip_trailing_slash (String c s) = String c (strip_trailing_slash s).
Proof. destruct s; [congruence|reflexivity]. Qed.

Lemma strip_trailing_slash_app s :
  strip_trailing_slash (s +:+ "/") = s.
Proof.
  induction s as [|c s IH]; [reflexivity|].
  change (String c s +:+ "/") with (String c (s +:+ "/")).
  rewrite strip_trailing_slash_cons by (destruct s; discriminate).
  rewrite IH. reflexivity.
Qed.

Lemma ends_with_slash_cons c s :
  s ≠ "" → ends_with_slash (String c s) = ends_with_slash s.
Proof.
  destruct s as [|d s]; [congruence|]. intros _. unfold ends_with_slash.
  cbn [list_ascii_of_string]. reflexivity.
Qed.

Lemma strip_trailing_slash_id s :
  ends_with_slash s = false → strip_trailing_slash s = s.
Proof.
  induction s as [|c s IH]; [reflexivity|].
  destruct s as [|d s].
  - unfold ends_with_slash. cbn. intros ->. reflexivity.
  - rewrite ends_with_slash_cons by discriminate. intros H.
    rewrite strip_trailing_slash_cons by discriminate. rewrite IH by exact H. reflexivity.
Qed.

(** A trailing slash on [elevationServiceUrl] makes no difference. *)
Theorem elevation_url_trailing_slash E mapInfo u prev pr st :
  ends_with_slash u = false →
  componentDidUpdate E {| elevationServiceUrl := Some (u +:+ "/");
                          mapInfoService := mapInfo |} prev pr st
  = componentDidUpdate E {| elevationServiceUrl := Some u;
                            mapInfoService := mapInfo |} prev pr st.
Proof.
  intros Hu. unfold componentDidUpdate.
  cbn [elevationServiceUrl mapInfoService default from_option id].
  rewrite strip_trailing_slash_app, (strip_trailing_slash_id u Hu). reflexivity.
Qed.

Lemma elevation_url_trailing_slash_witness :
  componentDidUpdate sample_externals
    {| elevationServiceUrl := Some ("https://example.org/elevation" +:+ "/");
       mapInfoService := None |}
    (sample_props true None) (sample_props true (Some (click_at 30 40))) initial_state
  = componentDidUpdate sample_externals
      {| elevationServiceUrl := Some "https://example.org/elevation";
         mapInfoService := None |}
      (sample_props true None) (sample_props true (Some (click_at 30 40))) initial_state.
Proof.
  apply (elevation_url_trailing_slash sample_externals None
           "https://example.org/elevation").
  reflexivity.
Defined.

(** *** The rows of the popup *)

(** The coordinate systems listed in the popup: the display CRS first, then
    the map projection, then WGS 84 if wanted, none of them twice. *)
Theorem projections_distinct pr :
  NoDup (projections pr)
  ∧ head (projections pr) = Some (displayCrs (map pr))
  ∧ ∀ crs, crs ∈ projections pr ↔
      crs = displayCrs (map pr) ∨ crs = projection (map pr)
      ∨ (includeWGS84 pr = true ∧ crs = "EPSG:4326").
Proof.
  unfold projections.
  set (d := displayCrs (map pr)). set (p := projection (map pr)).
  destruct (includeWGS84 pr); cbn [andb];
    repeat case_bool_decide; cbn [negb app] in *;
    repeat match goal with
           | H : context [_ ∈ _ :: _] |- _ => rewrite elem_of_cons in H
           | H : context [_ ∈ []] |- _ => rewrite elem_of_nil in H
           end;
    (split; [|split; [reflexivity|]]);
    try (intros crs; rewrite ?elem_of_cons, ?elem_of_nil;
         intuition (subst; congruence));
    repeat (constructor; [rewrite ?elem_of_cons, ?elem_of_nil; intuition congruence|]);
    constructor.
Qed.

End MapInfoTooltipMoreFacts.
